(** * SQLMesh core: renderer, state reader and connection configuration

    A shallow embedding of

    - [sqlmesh/core/config/connection.py]  (module [Connection]),
    - [sqlmesh/core/state_sync/base.py]    (module [StateSync]),
    - [sqlmesh/core/renderer.py]           (module [Renderer]),

    together with the properties of these modules that the specification
    states and further properties read off the code.  Python values are
    modelled as the code has them: dictionaries as [gmap], sets as [gset],
    exceptions as a result type whose error side carries the exception
    class, and objects mutated in place by explicit state passing. *)

From stdpp Require Import base option list sorting gmap strings pretty fin_maps.
From Stdlib Require Import ZArith Lia Ascii.

Local Open Scope Z_scope.

(** ** Python exceptions and results *)

(** The exception classes the three modules raise or catch.  The payload is
    the message, as [str(ex)] gives it. *)
Inductive exn : Type :=
  | ConfigError (msg : string)
  | SQLMeshError (msg : string)
  | MacroEvalError (msg : string)
  | ParsetimeAdapterCallError (msg : string)
  | SqlglotError (msg : string)
  | ValueError (msg : string)
  | AttributeError (msg : string)
  | OtherException (msg : string).

Definition exn_str (e : exn) : string :=
  match e with
  | ConfigError m | SQLMeshError m | MacroEvalError m
  | ParsetimeAdapterCallError m | SqlglotError m | ValueError m
  | AttributeError m | OtherException m => m
  end.

(** A call either returns a value or raises. *)
Inductive result (A : Type) : Type :=
  | Ok (a : A)
  | Raise (e : exn).
Arguments Ok {A} a.
Arguments Raise {A} e.

Definition is_raise {A} (r : result A) : bool :=
  match r with Ok _ => false | Raise _ => true end.

(** Raw Python values, as they reach a pydantic validator. *)
Inductive pyval : Type :=
  | PyNone
  | PyBool (b : bool)
  | PyInt (z : Z)
  | PyStr (s : string).

#[global] Instance pyval_eq_dec : EqDecision pyval.
Proof. solve_decision. Defined.

(** Python truthiness: [not v] is [negb (truthy v)]. *)
Definition truthy (v : pyval) : bool :=
  match v with
  | PyNone => false
  | PyBool b => b
  | PyInt z => negb (z =? 0)
  | PyStr s => negb (String.eqb s "")
  end.

(** Python [==] on raw values: booleans compare as the integers 0 and 1. *)
Definition py_eq (a b : pyval) : bool :=
  match a, b with
  | PyNone, PyNone => true
  | PyStr s, PyStr t => String.eqb s t
  | PyInt x, PyInt y => x =? y
  | PyBool x, PyBool y => Bool.eqb x y
  | PyBool x, PyInt y | PyInt y, PyBool x => (if x then 1 else 0) =? y
  | _, _ => false
  end.

(** ** Times *)

(** [TimeLike]: a datetime, an epoch-millisecond integer or a date string.
    Datetimes are kept as epoch milliseconds. *)
Inductive TimeLike : Type :=
  | TDatetime (ms : Z)
  | TInt (ms : Z)
  | TStr (s : string).

Definition time_truthy (t : TimeLike) : bool :=
  match t with
  | TDatetime _ => true
  | TInt ms => negb (ms =? 0)
  | TStr s => negb (String.eqb s "")
  end.

(** [a or b] for an optional time [a]. *)
Definition time_or (a : option TimeLike) (b : TimeLike) : TimeLike :=
  match a with
  | Some t => if time_truthy t then t else b
  | None => b
  end.

(** [a or b] where [b] may be [None] as well. *)
Definition time_or_opt (a b : option TimeLike) : option TimeLike :=
  match a with
  | Some t => if time_truthy t then Some t else b
  | None => b
  end.

(** ** sqlmesh/core/config/connection.py *)

Module Connection.

(** [values.get(k)]: [None] for a missing key. *)
Definition get (values : gmap string pyval) (k : string) : pyval :=
  default PyNone (values !! k).

Inductive adapter_kind : Type :=
  | DuckDBEngineAdapter
  | SnowflakeEngineAdapter.

(** What [create_engine_adapter] hands to the adapter class: the keyword
    arguments the connection factory will be called with, the
    [multithreaded] flag and the extra engine configuration. *)
Record EngineAdapter : Type := mkEngineAdapter {
  adapter : adapter_kind;
  connection_kwargs : gmap string pyval;
  multithreaded : bool;
  extra_engine_config : gmap string pyval
}.

(** The abstract base [_ConnectionConfig]: a [concurrent_tasks] field and
    the abstract properties every connection configuration supplies. *)
Class _ConnectionConfig (C : Type) : Type := {
  concurrent_tasks : C -> Z;
  dict : C -> gmap string pyval;
  _connection_kwargs_keys : C -> gset string;
  _engine_adapter : C -> adapter_kind;
  _static_connection_kwargs : C -> gmap string pyval;
  _extra_engine_config : C -> gmap string pyval
}.

(** [_ConnectionConfig.create_engine_adapter]. In [{**a, **b}] the entries
    of [b] win, hence the left-biased union with [b] on the left. *)
Definition create_engine_adapter {C} `{_ConnectionConfig C} (self : C) : EngineAdapter :=
  {| adapter := _engine_adapter self;
     connection_kwargs :=
       filter (fun kv => kv.1 ∈ _connection_kwargs_keys self) (dict self)
       ∪ _static_connection_kwargs self;
     multithreaded := concurrent_tasks self >? 1;
     extra_engine_config := _extra_engine_config self |}.

(** *** DuckDB *)

Record DuckDBConnectionConfig : Type := mkDuckDB {
  duckdb_database : option string;
  duckdb_concurrent_tasks : Z;
  duckdb_type_ : string
}.

(** pydantic's validator of a [Literal[...]] field: the value is looked up
    among the permitted ones (by [==]) and the permitted value is stored. *)
Definition literal_validator (field : string) (permitted v : pyval) : result pyval :=
  if py_eq v permitted then Ok permitted
  else Raise (ValueError ("unexpected value for " +:+ field)).

(** pydantic's validator of an [Optional[str]] field. *)
Definition optional_str_validator (field : string) (v : option pyval) : result (option string) :=
  match v with
  | None | Some PyNone => Ok None
  | Some (PyStr s) => Ok (Some s)
  | Some (PyInt z) => Ok (Some (pretty z))
  | Some (PyBool b) => Ok (Some (if b then "True" else "False"))
  end.

(** Construction of a [DuckDBConnectionConfig] from raw values: every field
    is validated against its declared type, a missing field takes its
    default ([concurrent_tasks: Literal[1] = 1], [type: Literal["duckdb"]]). *)
Definition DuckDBConnectionConfig_validate (values : gmap string pyval)
  : result DuckDBConnectionConfig :=
  match optional_str_validator "database" (values !! "database") with
  | Raise e => Raise e
  | Ok database =>
    match literal_validator "concurrent_tasks" (PyInt 1)
            (default (PyInt 1) (values !! "concurrent_tasks")) with
    | Ok (PyInt tasks) =>
      match literal_validator "type" (PyStr "duckdb")
              (default (PyStr "duckdb") (values !! "type")) with
      | Ok (PyStr ty) =>
        Ok {| duckdb_database := database;
              duckdb_concurrent_tasks := tasks;
              duckdb_type_ := ty |}
      | Ok _ => Raise (ValueError "unexpected value for type")
      | Raise e => Raise e
      end
    | Ok _ => Raise (ValueError "unexpected value for concurrent_tasks")
    | Raise e => Raise e
    end
  end.

Definition opt_str (o : option string) : pyval :=
  match o with Some s => PyStr s | None => PyNone end.

#[global] Instance DuckDB_config : _ConnectionConfig DuckDBConnectionConfig := {
  concurrent_tasks := duckdb_concurrent_tasks;
  dict := fun c =>
    <["database" := opt_str (duckdb_database c)]>
    (<["concurrent_tasks" := PyInt (duckdb_concurrent_tasks c)]>
    (<["type_" := PyStr (duckdb_type_ c)]> ∅));
  _connection_kwargs_keys := fun _ => {["database"]};
  _engine_adapter := fun _ => DuckDBEngineAdapter;
  _static_connection_kwargs := fun _ => ∅;
  _extra_engine_config := fun _ => ∅
}.

(** *** Snowflake *)

Record SnowflakeConnectionConfig : Type := mkSnowflake {
  snowflake_account : string;
  snowflake_user : option string;
  snowflake_password : option string;
  snowflake_warehouse : option string;
  snowflake_database : option string;
  snowflake_role : option string;
  snowflake_authenticator : option string;
  snowflake_concurrent_tasks : Z;
  snowflake_type_ : string
}.

(** [SnowflakeConnectionConfig._validate_authenticator], a root validator
    run on the raw values before the fields are validated. *)
Definition _validate_authenticator (values : gmap string pyval)
  : result (gmap string pyval) :=
  if bool_decide (is_Some (values !! "type"))
     && negb (py_eq (get values "type") (PyStr "snowflake"))
  then Ok values
  else
    let auth := get values "authenticator" in
    let user := get values "user" in
    let password := get values "password" in
    if negb (truthy auth) && (negb (truthy user) || negb (truthy password))
    then Raise (ConfigError
           "User and password must be provided if using default authentication")
    else Ok values.

#[global] Instance Snowflake_config : _ConnectionConfig SnowflakeConnectionConfig := {
  concurrent_tasks := snowflake_concurrent_tasks;
  dict := fun c =>
    <["account" := PyStr (snowflake_account c)]>
    (<["user" := opt_str (snowflake_user c)]>
    (<["password" := opt_str (snowflake_password c)]>
    (<["warehouse" := opt_str (snowflake_warehouse c)]>
    (<["database" := opt_str (snowflake_database c)]>
    (<["role" := opt_str (snowflake_role c)]>
    (<["authenticator" := opt_str (snowflake_authenticator c)]>
    (<["concurrent_tasks" := PyInt (snowflake_concurrent_tasks c)]>
    (<["type_" := PyStr (snowflake_type_ c)]> ∅))))))));
  _connection_kwargs_keys := fun _ =>
    {["user"; "password"; "account"; "warehouse"; "database"; "role";
      "authenticator"]};
  _engine_adapter := fun _ => SnowflakeEngineAdapter;
  _static_connection_kwargs := fun _ => ∅;
  _extra_engine_config := fun _ => ∅
}.

(** A value is provided under a key when [values.get(key)] is truthy: the
    key is present and its value is neither [None] nor empty. *)
Definition provided (values : gmap string pyval) (k : string) : bool :=
  truthy (get values k).

(** The raw values describe a Snowflake connection: the [type] tag, when
    given, is ["snowflake"]. *)
Definition is_snowflake (values : gmap string pyval) : Prop :=
  values !! "type" = None \/ py_eq (get values "type") (PyStr "snowflake") = true.

(** *** Databricks *)

(** [KeyError(key)]: none of the classes the modules name; its [str] is the
    [repr] of the key. *)
Definition KeyError (key : string) : exn := OtherException ("'" +:+ key +:+ "'").

(** [values[k]] *)
Definition getitem (values : gmap string pyval) (k : string) : result pyval :=
  match values !! k with
  | Some v => Ok v
  | None => Raise (KeyError k)
  end.

(** [str(v)], as an f-string formats a value. *)
Definition py_str (v : pyval) : string :=
  match v with
  | PyNone => "None"
  | PyBool b => if b then "True" else "False"
  | PyInt z => pretty z
  | PyStr s => s
  end.

(** [s.split(sep)] for a separator of one character: the pieces between
    the separators, in order; there is always at least one piece. *)
Fixpoint split (sep : ascii) (s : string) : list string :=
  match s with
  | EmptyString => [EmptyString]
  | String c rest =>
    if Ascii.eqb c sep then EmptyString :: split sep rest
    else match split sep rest with
         | piece :: pieces => String c piece :: pieces
         | [] => [String c EmptyString]
         end
  end.

(** [v.split("/")[-1]] on a raw value: only a string has [split]. *)
Definition split_last (v : pyval) : result pyval :=
  match v with
  | PyStr s =>
    match last (split "/" s) with
    | Some piece => Ok (PyStr piece)
    | None => Raise (OtherException "list index out of range")
    end
  | PyInt _ => Raise (AttributeError "'int' object has no attribute 'split'")
  | PyBool _ => Raise (AttributeError "'bool' object has no attribute 'split'")
  | PyNone => Raise (AttributeError "'NoneType' object has no attribute 'split'")
  end.

(** [values[k] = v] unless [values.get(k)] is truthy already. *)
Definition set_default (k : string) (v : pyval) (values : gmap string pyval)
  : gmap string pyval :=
  if truthy (get values k) then values else <[k := v]> values.

Section Databricks.

(** [runtime_env.is_databricks] and
    [DatabricksEngineAdapter.can_access_spark_session]. *)
Variable is_databricks : bool.
Variable can_access_spark_session : bool.

(** [DatabricksConnectionConfig._databricks_connect_validator], a root
    validator run on the raw values before the fields are validated.  It
    works on the dictionary it is given; the model returns the dictionary
    as it is when the validator returns. *)
Definition _databricks_connect_validator (values : gmap string pyval)
  : result (gmap string pyval) :=
  match getitem values "type" with
  | Raise e => Raise e
  | Ok type_ =>
    if negb (py_eq type_ (PyStr "databricks")) || is_databricks then Ok values
    else
      let server_hostname := get values "server_hostname" in
      let http_path := get values "http_path" in
      let access_token := get values "access_token" in
      if negb (truthy server_hostname) || negb (truthy http_path)
         || negb (truthy access_token)
      then Raise (ValueError
             "`server_hostname`, `http_path`, and `access_token` are required for Databricks connections when not running in a notebook")
      else if can_access_spark_session then
        let values :=
          set_default "databricks_connect_server_hostname"
            (PyStr ("https://" +:+ py_str server_hostname)) values in
        let values :=
          set_default "databricks_connect_access_token" access_token values in
        if truthy (get values "databricks_connect_cluster_id") then Ok values
        else
          match split_last http_path with
          | Ok cluster_id => Ok (<["databricks_connect_cluster_id" := cluster_id]> values)
          | Raise e => Raise e
          end
      else Ok values
  end.

End Databricks.

(** The raw values describe a Databricks connection. *)
Definition is_databricks_type (values : gmap string pyval) : Prop :=
  exists type_, values !! "type" = Some type_ /\ py_eq type_ (PyStr "databricks") = true.

(** The three settings of Databricks Connect the validator may fill in. *)
Definition databricks_connect_keys : list string :=
  ["databricks_connect_server_hostname"; "databricks_connect_access_token";
   "databricks_connect_cluster_id"].

(** The character occurs in the string. *)
Fixpoint contains (c : ascii) (s : string) : bool :=
  match s with
  | EmptyString => false
  | String c' rest => Ascii.eqb c' c || contains c rest
  end.

(** The Literal validator stores the permitted value, whatever was given. *)
Lemma literal_validator_ok field permitted v w :
  literal_validator field permitted v = Ok w -> w = permitted.
Proof.
  unfold literal_validator. destruct (py_eq v permitted); congruence.
Qed.

(** A Snowflake configuration with four concurrent tasks gets a
    multithreaded adapter: the flag does follow [concurrent_tasks]. *)
Example snowflake_default_is_multithreaded :
  multithreaded (create_engine_adapter
    (mkSnowflake "acct" (Some "u") (Some "p") None None None None 4 "snowflake"))
  = true.
Proof. reflexivity. Qed.

(** C10. Every DuckDB connection configuration that validation accepts has
    [concurrent_tasks = 1], so the engine adapter [create_engine_adapter]
    builds for it is never multithreaded. *)
Theorem duckdb_adapter_single_threaded (values : gmap string pyval)
    (c : DuckDBConnectionConfig) :
  DuckDBConnectionConfig_validate values = Ok c ->
  concurrent_tasks c = 1 /\ multithreaded (create_engine_adapter c) = false.
Proof.
  unfold DuckDBConnectionConfig_validate. intros Hv.
  destruct (optional_str_validator _ _) as [db|]; [|discriminate].
  destruct (literal_validator "concurrent_tasks" _ _) as [t|] eqn:Ht; [|discriminate].
  apply literal_validator_ok in Ht. subst t.
  destruct (literal_validator "type" _ _) as [[| | |ty]|]; try discriminate.
  injection Hv as <-. split; reflexivity.
Qed.

Lemma duckdb_adapter_single_threaded_witness :
  DuckDBConnectionConfig_validate {["concurrent_tasks" := PyBool true]}
    = Ok (mkDuckDB None 1 "duckdb")
  /\ concurrent_tasks (mkDuckDB None 1 "duckdb") = 1
  /\ multithreaded (create_engine_adapter (mkDuckDB None 1 "duckdb")) = false.
Proof.
  split; [reflexivity|].
  apply (duckdb_adapter_single_threaded {["concurrent_tasks" := PyBool true]}).
  reflexivity.
Defined.

(** C9. For the raw values of a Snowflake connection, the authenticator
    rule raises a [ConfigError] exactly when no authenticator is provided
    and the user or the password is missing; with an authenticator, or with
    both user and password, the rule passes and hands the values on. *)
Theorem snowflake_authenticator_rule (values : gmap string pyval) :
  is_snowflake values ->
  ((exists msg, _validate_authenticator values = Raise (ConfigError msg))
   <-> provided values "authenticator" = false
       /\ (provided values "user" = false \/ provided values "password" = false))
  /\ (provided values "authenticator" = true
      \/ (provided values "user" = true /\ provided values "password" = true)
      -> _validate_authenticator values = Ok values)
  /\ (is_raise (_validate_authenticator values) = true
      -> exists msg, _validate_authenticator values = Raise (ConfigError msg)).
Proof.
  intros Hsf. unfold _validate_authenticator, provided.
  assert (Hguard : bool_decide (is_Some (values !! "type"))
                   && negb (py_eq (get values "type") (PyStr "snowflake")) = false).
  { destruct Hsf as [Hnone | Heq].
    - rewrite Hnone. rewrite bool_decide_eq_false_2; [reflexivity|].
      intros [x Hx]; discriminate.
    - rewrite Heq. apply andb_false_r. }
  rewrite Hguard.
  destruct (truthy (get values "authenticator")),
           (truthy (get values "user")),
           (truthy (get values "password")); cbn;
    (split; [split|split]);
    try (intros [msg Hm]; discriminate Hm);
    try (intros [Ha [Hu|Hp]]; discriminate);
    try (intros _; eexists; reflexivity);
    try reflexivity;
    try discriminate;
    try (intros [Ha|[Hu Hp]]; discriminate);
    (intros _; split; [reflexivity | first [left; reflexivity | right; reflexivity]]).
Qed.

Lemma snowflake_authenticator_rule_witness :
  (exists msg, _validate_authenticator
     {["type" := PyStr "snowflake"; "user" := PyStr "alice"]}
     = Raise (ConfigError msg))
  /\ _validate_authenticator
       {["type" := PyStr "snowflake"; "authenticator" := PyStr "externalbrowser"]}
     = Ok {["type" := PyStr "snowflake"; "authenticator" := PyStr "externalbrowser"]}.
Proof.
  split.
  - destruct (snowflake_authenticator_rule
                {["type" := PyStr "snowflake"; "user" := PyStr "alice"]})
      as [[_ Hraise] _].
    + right. reflexivity.
    + apply Hraise. split; [reflexivity | right; reflexivity].
  - destruct (snowflake_authenticator_rule
                {["type" := PyStr "snowflake"; "authenticator" := PyStr "externalbrowser"]})
      as [_ [Hpass _]].
    + right. reflexivity.
    + apply Hpass. left. reflexivity.
Defined.

(** *** The Databricks Connect settings *)

Lemma get_insert_ne (values : gmap string pyval) k k' v :
  k <> k' -> get (<[k := v]> values) k' = get values k'.
Proof. intros Hne. unfold get. now rewrite lookup_insert_ne. Qed.

Lemma get_insert (values : gmap string pyval) k v : get (<[k := v]> values) k = v.
Proof. unfold get. now rewrite lookup_insert_eq. Qed.

Lemma get_set_default_ne (values : gmap string pyval) k k' v :
  k <> k' -> get (set_default k v values) k' = get values k'.
Proof.
  intros Hne. unfold set_default.
  destruct (truthy (get values k)); [reflexivity | now apply get_insert_ne].
Qed.

Lemma lookup_set_default_ne (values : gmap string pyval) k k' v :
  k <> k' -> set_default k v values !! k' = values !! k'.
Proof.
  intros Hne. unfold set_default.
  destruct (truthy (get values k)); [reflexivity | now apply lookup_insert_ne].
Qed.

(** A setting that is provided is kept; one that is not takes the default. *)
Lemma set_default_provided (values : gmap string pyval) k v :
  truthy (get values k) = true -> set_default k v values = values.
Proof. intros Ht. unfold set_default. now rewrite Ht. Qed.

Lemma get_set_default_missing (values : gmap string pyval) k v :
  truthy (get values k) = false -> get (set_default k v values) k = v.
Proof. intros Ht. unfold set_default. rewrite Ht. apply get_insert. Qed.

Lemma truthy_set_default (values : gmap string pyval) k v :
  truthy v = true -> truthy (get (set_default k v values) k) = true.
Proof.
  intros Hv. destruct (truthy (get values k)) eqn:Ht.
  - now rewrite set_default_provided.
  - now rewrite get_set_default_missing.
Qed.

Lemma truthy_https (s : string) : truthy (PyStr ("https://" +:+ s)) = true.
Proof. reflexivity. Qed.

(** The pieces of a split: there is one at least, the last one holds no
    separator, and the string ends with it, right after a separator if
    anything comes before. *)
Lemma split_not_nil (sep : ascii) (s : string) : split sep s <> [].
Proof.
  destruct s as [|c rest]; cbn; [discriminate|].
  destruct (Ascii.eqb c sep); [discriminate|].
  destruct (split sep rest); discriminate.
Qed.

Lemma split_without_separator (sep : ascii) (s : string) :
  contains sep s = false -> split sep s = [s].
Proof.
  induction s as [|c rest IH]; cbn; [reflexivity|].
  intros Hno. apply orb_false_elim in Hno as [Hc Hrest].
  now rewrite Hc, (IH Hrest).
Qed.

Lemma split_with_separator (sep : ascii) (s : string) :
  contains sep s = true -> exists p q qs, split sep s = p :: q :: qs.
Proof.
  induction s as [|c rest IH]; cbn; [discriminate|].
  destruct (Ascii.eqb c sep) eqn:Hc; cbn.
  - intros _. destruct (split sep rest) as [|q qs] eqn:Hs;
      [now apply split_not_nil in Hs|]. now exists EmptyString, q, qs.
  - intros Hrest. destruct (IH Hrest) as (p & q & qs & ->).
    now exists (String c p), q, qs.
Qed.

Lemma last_split (sep : ascii) (s piece : string) :
  last (split sep s) = Some piece ->
  contains sep piece = false
  /\ exists before, s = before +:+ piece
       /\ (before = EmptyString \/ exists b, before = b +:+ String sep EmptyString).
Proof.
  revert piece. induction s as [|c rest IH]; intros piece; cbn [split].
  - intros [= <-]. split; [reflexivity|]. exists EmptyString. split; [reflexivity | now left].
  - destruct (Ascii.eqb c sep) eqn:Hc.
    + apply Ascii.eqb_eq in Hc as ->.
      destruct (split sep rest) as [|p ps] eqn:Hs; [now apply split_not_nil in Hs|].
      change (last (EmptyString :: p :: ps)) with (last (p :: ps)).
      intros Hlast. destruct (IH piece Hlast) as (Hno & before & -> & Hbefore).
      split; [exact Hno|]. exists (String sep before). split; [reflexivity|].
      right. destruct Hbefore as [-> | (b & ->)].
      * now exists EmptyString.
      * now exists (String sep b).
    + destruct (contains sep rest) eqn:Hrest.
      * destruct (split_with_separator sep rest Hrest) as (p & q & qs & Hs).
        rewrite Hs in IH |- *.
        change (last (String c p :: q :: qs)) with (last (p :: q :: qs)).
        intros Hlast. destruct (IH piece Hlast) as (Hno & before & -> & Hbefore).
        split; [exact Hno|]. exists (String c before). split; [reflexivity|].
        right. destruct Hbefore as [-> | (b & ->)].
        -- change (contains sep piece = true) in Hrest. congruence.
        -- now exists (String c b).
      * rewrite (split_without_separator sep rest Hrest). cbn.
        intros [= <-]. split; [cbn; now rewrite Hc, Hrest|].
        exists EmptyString. split; [reflexivity | now left].
Qed.

(** The two defaults the validator fills in first. *)
Lemma filled_lookup_ne (values : gmap string pyval) host token k :
  k <> "databricks_connect_server_hostname" ->
  k <> "databricks_connect_access_token" ->
  set_default "databricks_connect_access_token" token
    (set_default "databricks_connect_server_hostname" host values) !! k
  = values !! k.
Proof.
  intros Hh Ht. rewrite lookup_set_default_ne by congruence.
  now rewrite lookup_set_default_ne by congruence.
Qed.

Lemma filled_get_ne (values : gmap string pyval) host token k :
  k <> "databricks_connect_server_hostname" ->
  k <> "databricks_connect_access_token" ->
  get (set_default "databricks_connect_access_token" token
         (set_default "databricks_connect_server_hostname" host values)) k
  = get values k.
Proof. intros Hh Ht. unfold get. now rewrite filled_lookup_ne. Qed.

(** What a call that returns has done: nothing, or filled in the defaults
    of Databricks Connect. *)
Lemma _databricks_connect_validator_ok (is_databricks can_access_spark_session : bool)
    (values values' : gmap string pyval) :
  _databricks_connect_validator is_databricks can_access_spark_session values
  = Ok values' ->
  values' = values
  \/ (is_databricks_type values /\ is_databricks = false
      /\ can_access_spark_session = true
      /\ provided values "server_hostname" = true
      /\ provided values "http_path" = true
      /\ provided values "access_token" = true
      /\ let filled :=
           set_default "databricks_connect_access_token" (get values "access_token")
             (set_default "databricks_connect_server_hostname"
                (PyStr ("https://" +:+ py_str (get values "server_hostname"))) values) in
         (truthy (get filled "databricks_connect_cluster_id") = true /\ values' = filled)
         \/ (truthy (get filled "databricks_connect_cluster_id") = false
             /\ exists cluster_id,
                  split_last (get values "http_path") = Ok cluster_id
                  /\ values' = <["databricks_connect_cluster_id" := cluster_id]> filled)).
Proof.
  unfold _databricks_connect_validator, getitem, provided.
  destruct (values !! "type") as [type_|] eqn:Htype; [|discriminate].
  destruct (py_eq type_ (PyStr "databricks")) eqn:Heq; cbn [negb orb];
    [|intros [= <-]; now left].
  destruct is_databricks; [intros [= <-]; now left|].
  destruct (truthy (get values "server_hostname")); cbn [negb orb]; [|discriminate].
  destruct (truthy (get values "http_path")); cbn [negb orb]; [|discriminate].
  destruct (truthy (get values "access_token")); cbn [negb orb]; [|discriminate].
  destruct can_access_spark_session; [|intros [= <-]; now left].
  intros Hrun. right.
  split; [now exists type_|]. do 5 (split; [reflexivity|]). cbn zeta.
  destruct (truthy (get _ "databricks_connect_cluster_id")) eqn:Hcid.
  - left. injection Hrun as <-. now split.
  - right. split; [reflexivity|].
    destruct (split_last (get values "http_path")) as [cluster_id|]; [|discriminate].
    injection Hrun as <-. now exists cluster_id.
Qed.

(** X2. For the raw values of a Databricks connection outside a Databricks
    runtime, the validator raises a [ValueError] exactly when
    [server_hostname], [http_path] or [access_token] is not provided.
    Values of another type, and any values inside a Databricks runtime, are
    returned as they are.  Values without a [type] key raise a [KeyError],
    whatever the runtime. *)
Theorem databricks_required_settings (is_databricks can_access_spark_session : bool)
    (values : gmap string pyval) :
  let validate :=
    _databricks_connect_validator is_databricks can_access_spark_session in
  (values !! "type" = None -> validate values = Raise (KeyError "type"))
  /\ (forall type_,
        values !! "type" = Some type_ ->
        py_eq type_ (PyStr "databricks") = false \/ is_databricks = true ->
        validate values = Ok values)
  /\ (is_databricks_type values -> is_databricks = false ->
      ((exists msg, validate values = Raise (ValueError msg))
       <-> provided values "server_hostname" = false
           \/ provided values "http_path" = false
           \/ provided values "access_token" = false)
      /\ (can_access_spark_session = false ->
          provided values "server_hostname" = true ->
          provided values "http_path" = true ->
          provided values "access_token" = true ->
          validate values = Ok values)).
Proof.
  cbn zeta. unfold _databricks_connect_validator, getitem, provided.
  split; [|split].
  - intros ->. reflexivity.
  - intros type_ -> [Hne | ->]; [now rewrite Hne|].
    now rewrite orb_true_r.
  - intros (type_ & -> & ->) ->. cbn [negb orb]. split.
    + destruct (truthy (get values "server_hostname")),
               (truthy (get values "http_path")) eqn:Hpath,
               (truthy (get values "access_token")); cbn [negb orb];
        try (split; [intros _; auto | intros _; eexists; reflexivity]).
      split; [|intros [H|[H|H]]; discriminate H].
      intros [msg Hmsg]. exfalso.
      destruct can_access_spark_session; [|discriminate].
      destruct (truthy (get _ "databricks_connect_cluster_id")); [discriminate|].
      unfold split_last in Hmsg.
      destruct (get values "http_path") as [| |z|s]; try discriminate.
      destruct (last (split "/" s)); discriminate.
    + intros -> -> -> ->. reflexivity.
Qed.

Lemma databricks_required_settings_witness :
  (exists msg,
     _databricks_connect_validator false true
       {["type" := PyStr "databricks"; "server_hostname" := PyStr "dbc.cloud.databricks.com";
         "http_path" := PyStr "/sql/1.0/endpoints/1234"]}
     = Raise (ValueError msg))
  /\ _databricks_connect_validator true true
       {["type" := PyStr "databricks"]}
     = Ok {["type" := PyStr "databricks"]}
  /\ _databricks_connect_validator true true ∅ = Raise (KeyError "type").
Proof.
  split; [|split].
  - apply (databricks_required_settings false true
             {["type" := PyStr "databricks";
               "server_hostname" := PyStr "dbc.cloud.databricks.com";
               "http_path" := PyStr "/sql/1.0/endpoints/1234"]}).
    + exists (PyStr "databricks"). split; reflexivity.
    + reflexivity.
    + right. right. reflexivity.
  - apply (proj1 (proj2 (databricks_required_settings true true
                            {["type" := PyStr "databricks"]}))
             (PyStr "databricks")); [reflexivity | now right].
  - apply (databricks_required_settings true true ∅). reflexivity.
Defined.

(** X3. The validator is idempotent: values it has returned pass it again
    and come back as they are. *)
Theorem databricks_validator_idempotent (is_databricks can_access_spark_session : bool)
    (values values' : gmap string pyval) :
  _databricks_connect_validator is_databricks can_access_spark_session values
  = Ok values' ->
  _databricks_connect_validator is_databricks can_access_spark_session values'
  = Ok values'.
Proof.
  intros Hrun.
  destruct (_databricks_connect_validator_ok _ _ _ _ Hrun)
    as [-> | ((type_ & Htype & Heq) & -> & -> & Hhost & Hpath & Htoken & Hfilled)];
    [exact Hrun|].
  cbn zeta in Hfilled. unfold provided in *.
  set (host := PyStr ("https://" +:+ py_str (get values "server_hostname"))) in *.
  set (token := get values "access_token") in *.
  set (filled := set_default "databricks_connect_access_token" token
                   (set_default "databricks_connect_server_hostname" host values)) in *.
  assert (Hlookup : forall k,
            k <> "databricks_connect_server_hostname" ->
            k <> "databricks_connect_access_token" ->
            k <> "databricks_connect_cluster_id" ->
            values' !! k = values !! k).
  { intros k Hk1 Hk2 Hk3.
    destruct Hfilled as [[_ ->] | [_ (cluster_id & _ & ->)]].
    - now apply filled_lookup_ne.
    - rewrite lookup_insert_ne by congruence. now apply filled_lookup_ne. }
  assert (Hget : forall k,
            k <> "databricks_connect_server_hostname" ->
            k <> "databricks_connect_access_token" ->
            k <> "databricks_connect_cluster_id" ->
            get values' k = get values k).
  { intros k Hk1 Hk2 Hk3. unfold get. now rewrite Hlookup. }
  assert (Hfilled_host : truthy (get filled "databricks_connect_server_hostname") = true).
  { unfold filled. rewrite get_set_default_ne by discriminate.
    apply truthy_set_default. reflexivity. }
  assert (Hfilled_token : truthy (get filled "databricks_connect_access_token") = true).
  { unfold filled. apply truthy_set_default. exact Htoken. }
  assert (Hhost' : truthy (get values' "databricks_connect_server_hostname") = true).
  { destruct Hfilled as [[_ ->] | [_ (cluster_id & _ & ->)]]; [exact Hfilled_host|].
    now rewrite get_insert_ne by discriminate. }
  assert (Htoken' : truthy (get values' "databricks_connect_access_token") = true).
  { destruct Hfilled as [[_ ->] | [_ (cluster_id & _ & ->)]]; [exact Hfilled_token|].
    now rewrite get_insert_ne by discriminate. }
  unfold _databricks_connect_validator, getitem.
  rewrite Hlookup by discriminate. rewrite Htype, Heq. cbn [negb orb].
  rewrite !Hget by discriminate. fold token. rewrite Hhost, Hpath, Htoken.
  cbn [negb orb].
  rewrite (set_default_provided values' "databricks_connect_server_hostname")
    by exact Hhost'.
  rewrite (set_default_provided values' "databricks_connect_access_token")
    by exact Htoken'.
  destruct Hfilled as [[Hcid ->] | [Hcid (cluster_id & Hsplit & ->)]].
  - now rewrite Hcid.
  - rewrite get_insert. destruct (truthy cluster_id); [reflexivity|].
    rewrite Hsplit. now rewrite insert_insert_eq.
Qed.

Lemma databricks_validator_idempotent_witness :
  _databricks_connect_validator false true
    {["access_token" := PyStr "dapi-token";
      "databricks_connect_access_token" := PyStr "dapi-token";
      "databricks_connect_cluster_id" := PyStr "1234";
      "databricks_connect_server_hostname" := PyStr "https://dbc.cloud.databricks.com";
      "http_path" := PyStr "/sql/1.0/endpoints/1234";
      "server_hostname" := PyStr "dbc.cloud.databricks.com";
      "type" := PyStr "databricks"]}
  = Ok {["access_token" := PyStr "dapi-token";
         "databricks_connect_access_token" := PyStr "dapi-token";
         "databricks_connect_cluster_id" := PyStr "1234";
         "databricks_connect_server_hostname" := PyStr "https://dbc.cloud.databricks.com";
         "http_path" := PyStr "/sql/1.0/endpoints/1234";
         "server_hostname" := PyStr "dbc.cloud.databricks.com";
         "type" := PyStr "databricks"]}.
Proof.
  apply (databricks_validator_idempotent false true
           {["type" := PyStr "databricks";
             "server_hostname" := PyStr "dbc.cloud.databricks.com";
             "http_path" := PyStr "/sql/1.0/endpoints/1234";
             "access_token" := PyStr "dapi-token"]}).
  vm_compute. reflexivity.
Defined.

(** X4. Whenever the validator returns, every key other than the three
    settings of Databricks Connect holds what it held, no key is lost, and
    a setting that was provided is not overwritten. *)
Theorem databricks_validator_keeps_values (is_databricks can_access_spark_session : bool)
    (values values' : gmap string pyval) :
  _databricks_connect_validator is_databricks can_access_spark_session values
  = Ok values' ->
  (forall k, k ∉ databricks_connect_keys -> values' !! k = values !! k)
  /\ (forall k, provided values k = true -> values' !! k = values !! k)
  /\ (forall k, is_Some (values !! k) -> is_Some (values' !! k)).
Proof.
  intros Hrun.
  destruct (_databricks_connect_validator_ok _ _ _ _ Hrun)
    as [-> | (_ & _ & _ & _ & _ & _ & Hfilled)]; [now repeat split|].
  cbn zeta in Hfilled.
  set (host := PyStr ("https://" +:+ py_str (get values "server_hostname"))) in *.
  set (token := get values "access_token") in *.
  assert (Hdefault : forall k k' v (m : gmap string pyval),
            provided m k' = true \/ k' <> k -> set_default k v m !! k' = m !! k').
  { intros k k' v m [Hp | Hne]; [|now apply lookup_set_default_ne].
    destruct (decide (k = k')) as [<-|Hne]; [|now apply lookup_set_default_ne].
    now rewrite set_default_provided. }
  assert (Hprovided : forall k k' v (m : gmap string pyval),
            provided m k' = true -> provided (set_default k v m) k' = true).
  { intros k k' v m Hp. unfold provided, get in *. now rewrite Hdefault by now left. }
  assert (Hkept : forall k,
            provided values k = true \/ k ∉ databricks_connect_keys ->
            values' !! k = values !! k).
  { intros k Hk.
    assert (Hfill : set_default "databricks_connect_access_token" token
                      (set_default "databricks_connect_server_hostname" host values) !! k
                    = values !! k).
    { destruct Hk as [Hp | Hnot].
      - rewrite Hdefault by (left; now apply Hprovided).
        now rewrite Hdefault by now left.
      - unfold databricks_connect_keys in Hnot.
        apply not_elem_of_cons in Hnot as [Hk1 Hnot].
        apply not_elem_of_cons in Hnot as [Hk2 _].
        now apply filled_lookup_ne. }
    destruct Hfilled as [[_ ->] | [Hcid (cluster_id & _ & ->)]]; [exact Hfill|].
    rewrite lookup_insert_ne; [exact Hfill|].
    intros <-. destruct Hk as [Hp | Hnot].
    + unfold provided, get in Hp. unfold get in Hcid. rewrite Hfill in Hcid. congruence.
    + apply Hnot. unfold databricks_connect_keys. set_solver. }
  split; [intros k Hk; apply Hkept; now right|].
  split; [intros k Hk; apply Hkept; now left|].
  intros k [v Hv].
  assert (Hfill : is_Some (set_default "databricks_connect_access_token" token
                             (set_default "databricks_connect_server_hostname" host values)
                           !! k)).
  { unfold set_default.
    destruct (truthy (get values "databricks_connect_server_hostname")),
             (truthy (get _ "databricks_connect_access_token"));
      rewrite ?lookup_insert_is_Some'; eauto 6. }
  destruct Hfilled as [[_ ->] | [_ (cluster_id & _ & ->)]]; [exact Hfill|].
  apply lookup_insert_is_Some'. now right.
Qed.

Lemma databricks_validator_keeps_values_witness :
  let values : gmap string pyval :=
    {["type" := PyStr "databricks";
      "server_hostname" := PyStr "dbc.cloud.databricks.com";
      "http_path" := PyStr "/sql/1.0/endpoints/1234";
      "access_token" := PyStr "dapi-token";
      "databricks_connect_cluster_id" := PyStr "0123-456789-abcdefgh"]} in
  let values' : gmap string pyval :=
    <["databricks_connect_server_hostname" := PyStr "https://dbc.cloud.databricks.com"]>
    (<["databricks_connect_access_token" := PyStr "dapi-token"]> values) in
  _databricks_connect_validator false true values = Ok values'
  /\ values' !! "databricks_connect_cluster_id" = Some (PyStr "0123-456789-abcdefgh")
  /\ values' !! "http_path" = Some (PyStr "/sql/1.0/endpoints/1234").
Proof.
  cbv zeta.
  match goal with
  | |- ?run = Ok ?values' /\ _ =>
    assert (Hrun : run = Ok values') by (vm_compute; reflexivity)
  end.
  split; [exact Hrun|].
  destruct (databricks_validator_keeps_values false true _ _ Hrun)
    as (Hother & Hprovided & _).
  split.
  - rewrite Hprovided; reflexivity.
  - rewrite Hother; [reflexivity|]. unfold databricks_connect_keys. intros H.
    repeat (apply elem_of_cons in H as [H|H]; [discriminate H|]).
    now apply elem_of_nil in H.
Defined.

Lemma filled_defaults (values : gmap string pyval) host token :
  let filled :=
    set_default "databricks_connect_access_token" token
      (set_default "databricks_connect_server_hostname" host values) in
  (provided values "databricks_connect_server_hostname" = false ->
   filled !! "databricks_connect_server_hostname" = Some host)
  /\ (provided values "databricks_connect_access_token" = false ->
      filled !! "databricks_connect_access_token" = Some token)
  /\ (truthy host = true ->
      provided filled "databricks_connect_server_hostname" = true)
  /\ (truthy token = true ->
      provided filled "databricks_connect_access_token" = true).
Proof.
  cbn zeta. unfold provided. repeat split.
  - intros Hp. rewrite lookup_set_default_ne by discriminate.
    unfold set_default. rewrite Hp. apply lookup_insert_eq.
  - intros Hp. unfold set_default at 1.
    rewrite get_set_default_ne by discriminate. rewrite Hp. apply lookup_insert_eq.
  - intros Hh. rewrite get_set_default_ne by discriminate.
    now apply truthy_set_default.
  - intros Ht. now apply truthy_set_default.
Qed.

(** X5. Outside a Databricks runtime and with a Spark session at hand, the
    values of a Databricks connection that pass the validator come back with
    the settings of Databricks Connect filled in where they were not
    provided: the server hostname is ["https://"] followed by
    [server_hostname], the access token is [access_token], and the cluster
    id is the last piece of [http_path] split at ["/"]; that piece holds no
    ["/"] and [http_path] ends with it, right after a ["/"] when anything
    comes before.  The hostname and the token are provided afterwards. *)
Theorem databricks_connect_defaults (values values' : gmap string pyval) :
  is_databricks_type values ->
  _databricks_connect_validator false true values = Ok values' ->
  (provided values "databricks_connect_server_hostname" = false ->
   values' !! "databricks_connect_server_hostname"
   = Some (PyStr ("https://" +:+ py_str (get values "server_hostname"))))
  /\ (provided values "databricks_connect_access_token" = false ->
      values' !! "databricks_connect_access_token" = Some (get values "access_token"))
  /\ (provided values "databricks_connect_cluster_id" = false ->
      exists path piece,
        get values "http_path" = PyStr path
        /\ values' !! "databricks_connect_cluster_id" = Some (PyStr piece)
        /\ last (split "/" path) = Some piece
        /\ contains "/" piece = false
        /\ exists before,
             path = before +:+ piece
             /\ (before = EmptyString \/ exists b, before = b +:+ "/"))
  /\ provided values' "databricks_connect_server_hostname" = true
  /\ provided values' "databricks_connect_access_token" = true.
Proof.
  intros (type_ & Htype & Heq) Hrun.
  unfold _databricks_connect_validator, getitem in Hrun.
  rewrite Htype, Heq in Hrun. cbn [negb orb] in Hrun.
  destruct (truthy (get values "server_hostname")); cbn [negb orb] in Hrun;
    [|discriminate].
  destruct (truthy (get values "http_path")); cbn [negb orb] in Hrun; [|discriminate].
  destruct (truthy (get values "access_token")) eqn:Htoken; cbn [negb orb] in Hrun;
    [|discriminate].
  destruct (filled_defaults values
              (PyStr ("https://" +:+ py_str (get values "server_hostname")))
              (get values "access_token")) as (Hhost & Htok & Hph & Hpt).
  cbn zeta in Hhost, Htok, Hph, Hpt.
  specialize (Hph eq_refl). specialize (Hpt Htoken).
  set (filled := set_default "databricks_connect_access_token" _ _) in *.
  assert (Hcid_get : get filled "databricks_connect_cluster_id"
                     = get values "databricks_connect_cluster_id").
  { unfold filled. now rewrite filled_get_ne by discriminate. }
  destruct (truthy (get filled "databricks_connect_cluster_id")) eqn:Hcid.
  - injection Hrun as <-. repeat split; try assumption.
    intros Hp. unfold provided in Hp. rewrite Hcid_get in Hcid. congruence.
  - destruct (split_last (get values "http_path")) as [cluster_id|] eqn:Hsplit;
      [|discriminate].
    injection Hrun as <-. unfold provided, get in *.
    rewrite !lookup_insert_ne by discriminate. repeat split; try assumption.
    intros _. unfold split_last in Hsplit.
    destruct (default PyNone (values !! "http_path")) as [| | |path]; try discriminate.
    destruct (last (split "/" path)) as [piece|] eqn:Hlast; [|discriminate].
    injection Hsplit as <-. exists path, piece.
    split; [reflexivity|]. split; [apply lookup_insert_eq|]. split; [exact Hlast|].
    exact (last_split "/" path piece Hlast).
Qed.

Lemma databricks_connect_defaults_witness :
  let values : gmap string pyval :=
    {["type" := PyStr "databricks";
      "server_hostname" := PyStr "dbc.cloud.databricks.com";
      "http_path" := PyStr "/sql/1.0/endpoints/1234";
      "access_token" := PyStr "dapi-token"]} in
  let values' : gmap string pyval :=
    <["databricks_connect_server_hostname" := PyStr "https://dbc.cloud.databricks.com"]>
    (<["databricks_connect_access_token" := PyStr "dapi-token"]>
    (<["databricks_connect_cluster_id" := PyStr "1234"]> values)) in
  _databricks_connect_validator false true values = Ok values'
  /\ exists path piece before,
       get values "http_path" = PyStr path
       /\ values' !! "databricks_connect_cluster_id" = Some (PyStr piece)
       /\ path = before +:+ piece.
Proof.
  cbv zeta.
  match goal with
  | |- ?run = Ok ?values' /\ _ =>
    assert (Hrun : run = Ok values') by (vm_compute; reflexivity)
  end.
  split; [exact Hrun|].
  match type of Hrun with
  | _ ?values = _ =>
    assert (Htype : is_databricks_type values)
      by (exists (PyStr "databricks"); split; reflexivity)
  end.
  destruct (databricks_connect_defaults _ _ Htype Hrun) as (_ & _ & Hcluster & _ & _).
  destruct (Hcluster eq_refl) as (path & piece & Hpath & Hid & _ & _ & before & Heq & _).
  now exists path, piece, before.
Defined.

(** *** The keyword arguments of the connection factory *)

Lemma connection_kwargs_lookup {C} `{_ConnectionConfig C} (self : C) (k : string) :
  connection_kwargs (create_engine_adapter self) !! k
  = match dict self !! k with
    | Some v =>
      if decide (k ∈ _connection_kwargs_keys self) then Some v
      else _static_connection_kwargs self !! k
    | None => _static_connection_kwargs self !! k
    end.
Proof.
  unfold create_engine_adapter. cbn [connection_kwargs].
  rewrite lookup_union, map_lookup_filter.
  destruct (dict self !! k) as [v|]; cbn.
  - case_guard as Hk; cbn in Hk |- *;
      now destruct (_static_connection_kwargs self !! k).
  - now destruct (_static_connection_kwargs self !! k).
Qed.

(** X6. For every connection configuration, [create_engine_adapter] has the
    connection factory called with each field of the configuration that
    [_connection_kwargs_keys] names, under its configured value, also when
    a static keyword argument has the same name; a field that is not named
    there is not passed on, and under any other name the static keyword
    argument is passed, if there is one. *)
Theorem create_engine_adapter_connection_kwargs {C} `{_ConnectionConfig C}
    (self : C) (k : string) :
  (forall v,
     k ∈ _connection_kwargs_keys self -> dict self !! k = Some v ->
     connection_kwargs (create_engine_adapter self) !! k = Some v)
  /\ (k ∉ _connection_kwargs_keys self \/ dict self !! k = None ->
      connection_kwargs (create_engine_adapter self) !! k
      = _static_connection_kwargs self !! k).
Proof.
  rewrite connection_kwargs_lookup. split.
  - intros v Hk ->. now rewrite decide_True.
  - intros [Hk | ->]; [|reflexivity].
    destruct (dict self !! k); [now rewrite decide_False | reflexivity].
Qed.

Lemma create_engine_adapter_connection_kwargs_witness :
  let config :=
    mkSnowflake "acct" (Some "alice") (Some "secret") None None None None 4 "snowflake" in
  connection_kwargs (create_engine_adapter config) !! "user" = Some (PyStr "alice")
  /\ connection_kwargs (create_engine_adapter config) !! "warehouse" = Some PyNone
  /\ connection_kwargs (create_engine_adapter config) !! "concurrent_tasks" = None.
Proof.
  cbv zeta. split; [|split].
  - apply (create_engine_adapter_connection_kwargs
             (mkSnowflake "acct" (Some "alice") (Some "secret") None None None None 4
                "snowflake") "user"); [vm_compute|]; reflexivity.
  - apply (create_engine_adapter_connection_kwargs
             (mkSnowflake "acct" (Some "alice") (Some "secret") None None None None 4
                "snowflake") "warehouse"); [vm_compute|]; reflexivity.
  - etransitivity;
      [apply (create_engine_adapter_connection_kwargs
                (mkSnowflake "acct" (Some "alice") (Some "secret") None None None None 4
                   "snowflake") "concurrent_tasks");
       left; vm_compute; intros Hin; discriminate Hin
      |reflexivity].
Defined.

End Connection.

(** ** sqlmesh/core/state_sync/base.py *)

Module StateSync.

(** [Versions]: the versions row of the state store. *)
Record Versions : Type := mkVersions {
  schema_version : Z;
  sqlglot_version : string
}.

(** [<] and [>] on the [(major, minor)] tuples: lexicographic. *)
Definition tuple_lt (a b : Z * Z) : bool :=
  (a.1 <? b.1) || ((a.1 =? b.1) && (a.2 <? b.2)).

Definition tuple_gt (a b : Z * Z) : bool := tuple_lt b a.

(** The inner [raise_error] of [get_versions]: the error it raises. *)
Definition raise_error (lib local remote : string) (ahead : bool) : exn :=
  if ahead then
    SQLMeshError (lib +:+ " (local) is using version '" +:+ local
                  +:+ "' which is ahead of '" +:+ remote
                  +:+ "' (remote). Please run a migration.")
  else
    SQLMeshError (lib +:+ " (local) is using version '" +:+ local
                  +:+ "' which is behind '" +:+ remote
                  +:+ "' (remote). Please upgrade " +:+ lib +:+ ".").

(** [sorted(names)]: the migration module names in string order. *)
Definition sorted (names : list string) : list string :=
  merge_sort (fun a b => Is_true (String.leb a b)) names.

Section GetVersions.

(** The names [pkgutil.iter_modules] finds in the migrations package, the
    version of the installed sqlglot, and [sqlmesh.utils.major_minor],
    which reads the first two components of a version string. *)
Variable migration_modules : list string.
Variable SQLGLOT_VERSION : string.
Variable major_minor : string -> Z * Z.

(** [MIGRATIONS]: one imported module per name, in sorted order. *)
Definition MIGRATIONS : list string :=
  (fun migration => "sqlmesh.migrations." +:+ migration) <$> sorted migration_modules.

Definition SCHEMA_VERSION : Z := Z.of_nat (length MIGRATIONS).

(** [StateReader.get_versions]; [versions] is what [self._get_versions()]
    reads from the store. *)
Definition get_versions (validate : bool) (versions : Versions) : result Versions :=
  if SCHEMA_VERSION <? schema_version versions then
    Raise (raise_error "SQLMesh" (pretty SCHEMA_VERSION)
             (pretty (schema_version versions)) false)
  else if tuple_lt (major_minor SQLGLOT_VERSION)
                   (major_minor (sqlglot_version versions)) then
    Raise (raise_error "SQLGlot" SQLGLOT_VERSION (sqlglot_version versions) false)
  else if validate && (SCHEMA_VERSION >? schema_version versions) then
    Raise (raise_error "SQLMesh" (pretty SCHEMA_VERSION)
             (pretty (schema_version versions)) true)
  else if validate && tuple_gt (major_minor SQLGLOT_VERSION)
                               (major_minor (sqlglot_version versions)) then
    Raise (raise_error "SQLGlot" SQLGLOT_VERSION (sqlglot_version versions) true)
  else Ok versions.

End GetVersions.

(** The error tells the user to upgrade the library [lib]. *)
Definition says_upgrade (lib : string) (e : exn) : Prop :=
  exists local remote, e = raise_error lib local remote false.

(** The error tells the user to run a migration. *)
Definition says_migrate (lib : string) (e : exn) : Prop :=
  exists local remote, e = raise_error lib local remote true.

(** *** [StateReader.missing_intervals] *)

(** Python dictionaries keep insertion order; an assignment to a key that
    is already there replaces the value in place and keeps the key object.
    Keys are compared through [key] (their [__eq__] and [__hash__]). *)
Fixpoint dict_set {K I V} `{EqDecision I} (key : K -> I) (k : K) (v : V)
    (d : list (K * V)) : list (K * V) :=
  match d with
  | [] => [(k, v)]
  | (k', v') :: rest =>
    if decide (key k' = key k) then (k', v) :: rest
    else (k', v') :: dict_set key k v rest
  end.

(** [{**d, **extra}] *)
Definition dict_update {K I V} `{EqDecision I} (key : K -> I)
    (d extra : list (K * V)) : list (K * V) :=
  foldl (fun acc kv => dict_set key kv.1 kv.2 acc) d extra.

(** What [missing_intervals] uses of [sqlmesh.core.snapshot],
    [sqlmesh.core.scheduler] and [sqlmesh.utils.date].
    [Snapshot.hydrate_with_intervals_by_version] merges the stored intervals
    into the snapshots it is given and returns them; [Snapshot.remove_interval]
    and [Snapshot.missing_intervals] are the snapshot's own interval
    operations, the former updating the snapshot in place;
    [scheduler.start_date] is the start date of a snapshot, if it has one;
    [parse_time] is the parser behind [to_datetime] and [now] the clock
    reading of [now()]. *)
Class SnapshotModule (Snapshot SnapshotId SnapshotIntervals Interval : Type) : Type := {
  snapshot_id : Snapshot -> SnapshotId;
  snapshot_id_eq_dec :: EqDecision SnapshotId;
  snapshot_name : Snapshot -> string;
  snapshot_version : Snapshot -> option string;
  hydrate_with_intervals_by_version :
    list Snapshot -> list SnapshotIntervals -> list Snapshot;
  remove_interval : Snapshot -> Z -> TimeLike -> option TimeLike -> Snapshot;
  snapshot_missing_intervals :
    Snapshot -> Z -> TimeLike -> option TimeLike -> gset string -> list Interval;
  earliest_start_date : list Snapshot -> TimeLike;
  scheduler_start_date : Snapshot -> list Snapshot -> option TimeLike;
  parse_time : string -> Z;
  now : TimeLike
}.

(** The abstract methods of [StateReader] that [missing_intervals] calls,
    and what it reads of an [Environment]. *)
Class StateReader (Snapshot SnapshotId SnapshotIntervals Environment : Type) : Type := {
  env_snapshots : Environment -> list SnapshotId;
  env_start_at : Environment -> TimeLike;
  env_end_at : Environment -> option TimeLike;
  get_environment : string -> option Environment;
  get_snapshots : list SnapshotId -> list (SnapshotId * Snapshot);
  get_snapshot_intervals : list Snapshot -> list SnapshotIntervals
}.

Section MissingIntervals.

Context {Snapshot SnapshotId SnapshotIntervals Interval Environment : Type}.
Context `{!SnapshotModule Snapshot SnapshotId SnapshotIntervals Interval}.
Context `{!StateReader Snapshot SnapshotId SnapshotIntervals Environment}.

Definition to_datetime (t : TimeLike) : Z :=
  match t with
  | TDatetime ms | TInt ms => ms
  | TStr s => parse_time s
  end.

Inductive env_or_snapshots : Type :=
  | ByName (environment : string)
  | ByEnvironment (env : Environment)
  | BySnapshots (snapshots : list Snapshot).

(** [not snapshot.version] *)
Definition unversioned (snapshot : Snapshot) : bool :=
  match snapshot_version snapshot with
  | Some v => String.eqb v ""
  | None => true
  end.

(** The body of the loop up to the call of [Snapshot.missing_intervals]:
    a snapshot named in [restatements] has the interval removed. *)
Definition restate (start_date : Z) (end_date : TimeLike) (latest : option TimeLike)
    (restatements : gset string) (snapshot : Snapshot) : Snapshot :=
  if decide (snapshot_name snapshot ∈ restatements)
  then remove_interval snapshot start_date end_date latest
  else snapshot.

(** The intervals the loop computes for [snapshot]; [all] are the snapshots
    of [snapshots_by_id.values()] as they are at that point. *)
Definition intervals_for (start_date : Z) (end_date : TimeLike)
    (latest : option TimeLike) (restatements : gset string)
    (all : list Snapshot) (snapshot : Snapshot) : list Interval :=
  snapshot_missing_intervals snapshot
    (Z.max start_date
       (to_datetime (time_or (scheduler_start_date snapshot all) (TDatetime start_date))))
    end_date latest restatements.

(** The [for] loop.  The snapshots are objects shared with
    [snapshots_by_id]: [done] are the ones already visited (as updated),
    [todo] the ones still to visit, so that [done ++ todo] is what
    [snapshots_by_id.values()] holds. *)
Fixpoint missing_loop (start_date : Z) (end_date : TimeLike)
    (latest : option TimeLike) (restatements : gset string)
    (done todo : list Snapshot) (missing : list (Snapshot * list Interval))
    : list (Snapshot * list Interval) :=
  match todo with
  | [] => missing
  | snapshot :: rest =>
    let snapshot := restate start_date end_date latest restatements snapshot in
    let intervals :=
      intervals_for start_date end_date latest restatements
        (done ++ snapshot :: rest) snapshot in
    let missing :=
      match intervals with
      | [] => missing
      | _ => dict_set snapshot_id snapshot intervals missing
      end in
    missing_loop start_date end_date latest restatements (done ++ [snapshot]) rest missing
  end.

(** The first half of [missing_intervals]: the snapshots to look at and the
    window.  [None] is the early [return {}]. *)
Definition setup (input : env_or_snapshots) (start end_ : option TimeLike)
    (restatements : option (list string))
    : option (Z * TimeLike * gset string * list Snapshot) :=
  let from_env (env : Environment)
      : list (SnapshotId * Snapshot) * option TimeLike * option TimeLike :=
    (get_snapshots (env_snapshots env),
     Some (time_or start (env_start_at env)),
     time_or_opt end_ (env_end_at env)) in
  let '(snapshots_by_id, start, end_) :=
    match input return list (SnapshotId * Snapshot) * option TimeLike * option TimeLike with
    | ByName environment =>
      match get_environment environment with
      | Some env => from_env env
      | None => ([], start, end_)
      end
    | ByEnvironment env => from_env env
    | BySnapshots snapshots =>
      (dict_update id [] ((fun snapshot => (snapshot_id snapshot, snapshot)) <$> snapshots),
       start, end_)
    end in
  match snapshots_by_id with
  | [] => None
  | _ =>
    let unversioned := filter (fun s => Is_true (unversioned s)) snapshots_by_id.*2 in
    let snapshots_by_id :=
      dict_update id snapshots_by_id
        (match unversioned with
         | [] => []
         | _ => get_snapshots (snapshot_id <$> unversioned)
         end) in
    let snapshot_intervals := get_snapshot_intervals snapshots_by_id.*2 in
    let start_date := to_datetime (time_or start (earliest_start_date snapshots_by_id.*2)) in
    let end_date := time_or end_ now in
    let restatements : gset string := list_to_set (default [] restatements) in
    Some (start_date, end_date, restatements,
          hydrate_with_intervals_by_version snapshots_by_id.*2 snapshot_intervals)
  end.

Definition missing_intervals (input : env_or_snapshots)
    (start end_ latest : option TimeLike) (restatements : option (list string))
    : list (Snapshot * list Interval) :=
  match setup input start end_ restatements with
  | None => []
  | Some (start_date, end_date, restatements, hydrated) =>
    missing_loop start_date end_date latest restatements [] hydrated []
  end.


End MissingIntervals.

(** A small in-memory store to run [missing_intervals] on: a snapshot is
    its name, version, start and covered intervals; removing an interval
    clears the covered intervals and a snapshot with nothing covered misses
    the whole window. *)
Record sample_snapshot : Type := mkSample {
  sample_name : string;
  sample_version : option string;
  sample_start : option TimeLike;
  sample_intervals : list (Z * Z)
}.

Definition sample_ms (t : TimeLike) : Z :=
  match t with TDatetime ms | TInt ms => ms | TStr _ => 0 end.

Definition sample_snapshot_module
  : SnapshotModule sample_snapshot string unit (Z * Z) := {|
  snapshot_id := sample_name;
  snapshot_name := sample_name;
  snapshot_version := sample_version;
  hydrate_with_intervals_by_version := fun snapshots _ => snapshots;
  remove_interval := fun s _ _ _ =>
    mkSample (sample_name s) (sample_version s) (sample_start s) [];
  snapshot_missing_intervals := fun s start end_ _ _ =>
    match sample_intervals s with
    | [] => [(start, sample_ms end_)]
    | _ => []
    end;
  earliest_start_date := fun _ => TInt 0;
  scheduler_start_date := fun s _ => sample_start s;
  parse_time := fun _ => 0;
  now := TInt 100
|}.

Definition sample_state_reader : StateReader sample_snapshot string unit unit := {|
  env_snapshots := fun _ => [];
  env_start_at := fun _ => TInt 0;
  env_end_at := fun _ => None;
  get_environment := fun _ => None;
  get_snapshots := fun _ => [];
  get_snapshot_intervals := fun _ => []
|}.

Definition sample_a : sample_snapshot := mkSample "a" (Some "1") None [(0, 20)].
Definition sample_b : sample_snapshot := mkSample "b" (Some "1") (Some (TInt 7)) [(0, 20)].
Definition sample_c : sample_snapshot := mkSample "c" (Some "1") (Some (TInt 7)) [].

(** A reading of [major_minor] for version strings of decimal components,
    used to run [get_versions] on concrete versions. *)
Definition digit_of (c : ascii) : option Z :=
  let n := Z.of_nat (nat_of_ascii c) in
  if (48 <=? n) && (n <=? 57) then Some (n - 48) else None.

Fixpoint components (s : string) (cur : Z) : list Z :=
  match s with
  | EmptyString => [cur]
  | String c rest =>
    match digit_of c with
    | Some d => components rest (10 * cur + d)
    | None => cur :: components rest 0
    end
  end.

Definition major_minor_decimal (version : string) : Z * Z :=
  match components version 0 with
  | major :: minor :: _ => (major, minor)
  | [major] => (major, 0)
  | [] => (0, 0)
  end.

(** *** Properties *)

Lemma length_sorted (names : list string) : length (sorted names) = length names.
Proof.
  unfold sorted. apply Permutation_length, merge_sort_Permutation.
Qed.

Lemma SCHEMA_VERSION_spec (migration_modules : list string) :
  SCHEMA_VERSION migration_modules = Z.of_nat (length migration_modules).
Proof.
  unfold SCHEMA_VERSION, MIGRATIONS. now rewrite length_fmap, length_sorted.
Qed.

Section MissingIntervalsProperties.

Context {Snapshot SnapshotId SnapshotIntervals Interval Environment : Type}.
Context `{!SnapshotModule Snapshot SnapshotId SnapshotIntervals Interval}.
Context `{!StateReader Snapshot SnapshotId SnapshotIntervals Environment}.


Section Loop.

Variable start_date : Z.
Variable end_date : TimeLike.
Variable latest : option TimeLike.
Variable restatements : gset string.

(** Removing an interval leaves the identity of the snapshot alone. *)
Hypothesis remove_interval_id : forall snapshot,
  snapshot_id (remove_interval snapshot start_date end_date latest)
  = snapshot_id snapshot.



End Loop.


End MissingIntervalsProperties.

#[local] Existing Instance sample_snapshot_module.
#[local] Existing Instance sample_state_reader.

Example missing_intervals_sample :
  missing_intervals (BySnapshots [sample_a; sample_b; sample_c])
    (Some (TInt 5)) (Some (TInt 9)) None (Some ["a"])
  = [(mkSample "a" (Some "1") None [], [(5, 9)]); (sample_c, [(7, 9)])].
Proof. vm_compute. reflexivity. Qed.


Example major_minor_decimal_11_5_2 : major_minor_decimal "11.5.2" = (11, 5).
Proof. reflexivity. Qed.

(** With [validate] off, a local schema that is ahead of the stored one is
    accepted: the stored versions are returned and nothing is raised. *)
Lemma get_versions_ahead_unvalidated :
  SCHEMA_VERSION ["v0001_init"; "v0002_remove"] > schema_version (mkVersions 1 "11.5.2")
  /\ get_versions ["v0001_init"; "v0002_remove"] "11.5.2" major_minor_decimal
       false (mkVersions 1 "11.5.2")
     = Ok (mkVersions 1 "11.5.2").
Proof. split; [reflexivity | vm_compute; reflexivity]. Qed.

(** With [validate] on, a local schema that is ahead while the local
    sqlglot is behind raises the upgrade error of sqlglot, not the
    migration error. *)
Example get_versions_ahead_but_sqlglot_behind :
  get_versions ["v0001_init"; "v0002_remove"] "11.4.0" major_minor_decimal
    true (mkVersions 1 "11.5.2")
  = Raise (raise_error "SQLGlot" "11.4.0" "11.5.2" false).
Proof. vm_compute; reflexivity. Qed.

(** C8 (as amended). [get_versions] raises the upgrade error of SQLMesh
    whenever the local schema version is below the stored one and, the
    schema not being behind, the upgrade error of SQLGlot whenever the local
    sqlglot major.minor is below the stored one.  Only when [validate] is on
    and neither is behind does a version that is ahead raise: the migration
    error of SQLMesh when the local schema is above the stored one, else the
    migration error of SQLGlot when the local major.minor is above.  With
    [validate] off and nothing behind, the stored versions are returned.
    The local schema version is the number of migration modules. *)
Theorem get_versions_gate (migration_modules : list string)
    (SQLGLOT_VERSION : string) (major_minor : string -> Z * Z)
    (validate : bool) (versions : Versions) :
  let local := SCHEMA_VERSION migration_modules in
  let mm_local := major_minor SQLGLOT_VERSION in
  let mm_remote := major_minor (sqlglot_version versions) in
  let r := get_versions migration_modules SQLGLOT_VERSION major_minor validate versions in
  local = Z.of_nat (length migration_modules)
  /\ (local < schema_version versions ->
      exists e, r = Raise e /\ says_upgrade "SQLMesh" e)
  /\ (local >= schema_version versions -> tuple_lt mm_local mm_remote = true ->
      exists e, r = Raise e /\ says_upgrade "SQLGlot" e)
  /\ (validate = true -> local > schema_version versions ->
      tuple_lt mm_local mm_remote = false ->
      exists e, r = Raise e /\ says_migrate "SQLMesh" e)
  /\ (validate = true -> local = schema_version versions ->
      tuple_lt mm_local mm_remote = false -> tuple_gt mm_local mm_remote = true ->
      exists e, r = Raise e /\ says_migrate "SQLGlot" e)
  /\ (validate = false -> local >= schema_version versions ->
      tuple_lt mm_local mm_remote = false -> r = Ok versions).
Proof.
  intros local mm_local mm_remote r. subst r. unfold get_versions.
  fold local mm_local mm_remote.
  split; [apply SCHEMA_VERSION_spec|].
  repeat split.
  - intros Hlt. apply Z.ltb_lt in Hlt. rewrite Hlt.
    eexists; split; [reflexivity|]. now eexists _, _.
  - intros Hge Hb. destruct (Z.ltb_spec local (schema_version versions)); [lia|].
    rewrite Hb. eexists; split; [reflexivity|]. now eexists _, _.
  - intros -> Hgt Hb. destruct (Z.ltb_spec local (schema_version versions)); [lia|].
    rewrite Hb. cbn. destruct (Z.gtb_spec local (schema_version versions)); [|lia].
    eexists; split; [reflexivity|]. now eexists _, _.
  - intros -> Heq Hb Ha. destruct (Z.ltb_spec local (schema_version versions)); [lia|].
    rewrite Hb. cbn. destruct (Z.gtb_spec local (schema_version versions)); [lia|].
    rewrite Ha. eexists; split; [reflexivity|]. now eexists _, _.
  - intros -> Hge Hb. destruct (Z.ltb_spec local (schema_version versions)); [lia|].
    rewrite Hb. reflexivity.
Qed.

Lemma get_versions_gate_witness :
  (exists e, get_versions ["v0001_init"] "11.5.2" major_minor_decimal true
               (mkVersions 2 "11.5.2") = Raise e
             /\ says_upgrade "SQLMesh" e)
  /\ (exists e, get_versions ["v0001_init"; "v0002_remove"] "11.5.2"
                  major_minor_decimal true (mkVersions 1 "11.5.2") = Raise e
                /\ says_migrate "SQLMesh" e).
Proof.
  split.
  - apply (get_versions_gate ["v0001_init"] "11.5.2" major_minor_decimal true
             (mkVersions 2 "11.5.2")).
    reflexivity.
  - apply (get_versions_gate ["v0001_init"; "v0002_remove"] "11.5.2"
             major_minor_decimal true (mkVersions 1 "11.5.2"));
      reflexivity.
Defined.

(** *** When [get_versions] returns *)

(** The order on [(major, minor)] tuples is total: two tuples neither of
    which is below the other are equal. *)
Lemma tuple_lt_total (a b : Z * Z) :
  tuple_lt a b = false -> tuple_gt a b = false -> a = b.
Proof.
  destruct a as [a1 a2], b as [b1 b2]. unfold tuple_gt, tuple_lt. cbn [fst snd].
  intros Hlt Hgt.
  apply orb_false_elim in Hlt as [Hlt1 Hlt2], Hgt as [Hgt1 Hgt2].
  apply Z.ltb_ge in Hlt1, Hgt1.
  assert (a1 = b1) as -> by lia.
  rewrite Z.eqb_refl in Hlt2, Hgt2. cbn in Hlt2, Hgt2.
  apply Z.ltb_ge in Hlt2, Hgt2. f_equal. lia.
Qed.

Lemma tuple_lt_irrefl (a : Z * Z) : tuple_lt a a = false.
Proof.
  unfold tuple_lt. rewrite !Z.ltb_irrefl. now rewrite andb_false_r.
Qed.

(** X7. With [validate] on, [get_versions] returns exactly when the local
    schema version equals the stored one and the local sqlglot major.minor
    equals the stored one.  With [validate] off, it returns exactly when
    neither is behind.  What it returns is the stored versions, as read,
    and a call that passes with [validate] on passes with it off. *)
Theorem get_versions_returns (migration_modules : list string)
    (SQLGLOT_VERSION : string) (major_minor : string -> Z * Z) (versions : Versions) :
  let local := Z.of_nat (length migration_modules) in
  let mm_local := major_minor SQLGLOT_VERSION in
  let mm_remote := major_minor (sqlglot_version versions) in
  let run := get_versions migration_modules SQLGLOT_VERSION major_minor in
  (run true versions = Ok versions
   <-> local = schema_version versions /\ mm_local = mm_remote)
  /\ (run false versions = Ok versions
      <-> schema_version versions <= local
          /\ (mm_remote.1 < mm_local.1
              \/ (mm_remote.1 = mm_local.1 /\ mm_remote.2 <= mm_local.2)))
  /\ (forall validate v, run validate versions = Ok v -> v = versions)
  /\ (run true versions = Ok versions -> run false versions = Ok versions).
Proof.
  cbn zeta. unfold get_versions. rewrite SCHEMA_VERSION_spec.
  set (local := Z.of_nat (length migration_modules)).
  set (mm_local := major_minor SQLGLOT_VERSION).
  set (mm_remote := major_minor (sqlglot_version versions)).
  assert (Hbehind : tuple_lt mm_local mm_remote = false
                    <-> mm_remote.1 < mm_local.1
                        \/ (mm_remote.1 = mm_local.1 /\ mm_remote.2 <= mm_local.2)).
  { unfold tuple_lt. destruct mm_local as [a1 a2], mm_remote as [b1 b2]. cbn [fst snd].
    destruct (Z.ltb_spec a1 b1), (Z.eqb_spec a1 b1), (Z.ltb_spec a2 b2); cbn;
      split; (discriminate || lia || reflexivity). }
  destruct (Z.ltb_spec local (schema_version versions)) as [Hlt|Hge].
  { repeat split; try discriminate; try lia; intros; lia. }
  destruct (tuple_lt mm_local mm_remote) eqn:Hb.
  { destruct Hbehind as [_ Hbehind].
    repeat split; try discriminate.
    - intros [_ Heq]. rewrite Heq, tuple_lt_irrefl in Hb. discriminate.
    - intros [_ Hok]. now apply Hbehind in Hok. }
  cbn [andb]. destruct (Z.gtb_spec local (schema_version versions)) as [Hgt|Hle].
  { repeat split; try discriminate; try lia; try (now apply Hbehind).
    intros [] v; cbn [andb]; [discriminate | congruence]. }
  assert (Heq : local = schema_version versions) by lia.
  destruct (tuple_gt mm_local mm_remote) eqn:Ha.
  - repeat split; try discriminate; try lia; try (now apply Hbehind).
    + intros [_ Hmm]. unfold tuple_gt in Ha.
      rewrite Hmm, tuple_lt_irrefl in Ha. discriminate.
    + intros [] v; cbn [andb]; [discriminate | congruence].
  - repeat split; try lia; try (now apply Hbehind).
    + now apply tuple_lt_total.
    + intros [] v; cbn [andb]; congruence.
Qed.

Lemma get_versions_returns_witness :
  get_versions ["v0001_init"; "v0002_remove"] "11.5.2" major_minor_decimal
    true (mkVersions 2 "11.5.0")
  = Ok (mkVersions 2 "11.5.0")
  /\ get_versions ["v0001_init"; "v0002_remove"] "11.5.2" major_minor_decimal
       false (mkVersions 2 "11.5.0")
     = Ok (mkVersions 2 "11.5.0").
Proof.
  assert (Hrun : get_versions ["v0001_init"; "v0002_remove"] "11.5.2"
                   major_minor_decimal true (mkVersions 2 "11.5.0")
                 = Ok (mkVersions 2 "11.5.0")).
  { apply (get_versions_returns ["v0001_init"; "v0002_remove"] "11.5.2"
             major_minor_decimal (mkVersions 2 "11.5.0")).
    split; reflexivity. }
  split; [exact Hrun|].
  apply (get_versions_returns ["v0001_init"; "v0002_remove"] "11.5.2"
           major_minor_decimal (mkVersions 2 "11.5.0")).
  exact Hrun.
Defined.

(** *** The order of the migrations *)

Lemma string_compare_refl (a : string) : String.compare a a = Eq.
Proof.
  induction a as [|x a IH]; cbn; [reflexivity|].
  unfold Ascii.compare. now rewrite N.compare_refl.
Qed.

Lemma string_leb_trans (a b c : string) :
  String.leb a b = true -> String.leb b c = true -> String.leb a c = true.
Proof.
  unfold String.leb.
  assert (Htrans : forall a b c,
            String.compare a b <> Gt -> String.compare b c <> Gt ->
            String.compare a c <> Gt).
  { clear. induction a as [|x a IH]; intros [|y b] [|z c]; cbn; try congruence.
    unfold Ascii.compare.
    destruct (N.compare_spec (N_of_ascii x) (N_of_ascii y)) as [Hxy|Hxy|Hxy],
             (N.compare_spec (N_of_ascii y) (N_of_ascii z)) as [Hyz|Hyz|Hyz],
             (N.compare_spec (N_of_ascii x) (N_of_ascii z)) as [Hxz|Hxz|Hxz];
      try congruence; try lia.
    apply IH. }
  intros Hab Hbc.
  specialize (Htrans a b c).
  destruct (String.compare a b), (String.compare b c), (String.compare a c);
    try reflexivity; try discriminate; exfalso; apply Htrans; congruence.
Qed.

#[local] Instance string_leb_total : Total (fun a b => Is_true (String.leb a b)).
Proof.
  intros a b. destruct (String.leb_total a b) as [H|H]; rewrite H; [left|right]; exact I.
Qed.

#[local] Instance string_leb_transitive :
  Transitive (fun a b => Is_true (String.leb a b)).
Proof.
  intros a b c Hab Hbc. apply Is_true_true in Hab, Hbc. apply Is_true_true.
  now apply (string_leb_trans a b c).
Qed.

#[local] Instance string_leb_antisymm :
  AntiSymm (=) (fun a b => Is_true (String.leb a b)).
Proof.
  intros a b Hab Hba. apply Is_true_true in Hab, Hba. now apply String.leb_antisym.
Qed.

(** X8. [MIGRATIONS] does not depend on the order in which the migration
    modules are found: it lists them, each under the package name, in the
    order of their names, so two discoveries of the same modules give the
    same list and the same [SCHEMA_VERSION]. *)
Theorem MIGRATIONS_order_independent (found found' : list string) :
  found ≡ₚ found' ->
  MIGRATIONS found = MIGRATIONS found'
  /\ SCHEMA_VERSION found = SCHEMA_VERSION found'
  /\ Sorted (fun a b => Is_true (String.leb a b)) (sorted found)
  /\ MIGRATIONS found ≡ₚ (fun migration => "sqlmesh.migrations." +:+ migration) <$> found.
Proof.
  intros Hperm.
  assert (Hsorted : sorted found = sorted found').
  { unfold sorted. apply (Sorted_unique (fun a b => Is_true (String.leb a b))).
    - apply Sorted_merge_sort, _.
    - apply Sorted_merge_sort, _.
    - now rewrite !merge_sort_Permutation. }
  unfold SCHEMA_VERSION, MIGRATIONS. rewrite Hsorted. repeat split.
  - unfold sorted. apply Sorted_merge_sort, _.
  - apply fmap_Permutation. unfold sorted.
    now rewrite merge_sort_Permutation.
Qed.

Lemma MIGRATIONS_order_independent_witness :
  MIGRATIONS ["v0002_remove"; "v0001_init"] = MIGRATIONS ["v0001_init"; "v0002_remove"]
  /\ MIGRATIONS ["v0002_remove"; "v0001_init"]
     = ["sqlmesh.migrations.v0001_init"; "sqlmesh.migrations.v0002_remove"].
Proof.
  split; [|vm_compute; reflexivity].
  apply (MIGRATIONS_order_independent ["v0002_remove"; "v0001_init"]
           ["v0001_init"; "v0002_remove"]).
  apply perm_swap.
Defined.

(** *** [missing_intervals] with nothing to look at *)

Section MissingIntervalsEdges.

Context {Snapshot SnapshotId SnapshotIntervals Interval Environment : Type}.
Context `{!SnapshotModule Snapshot SnapshotId SnapshotIntervals Interval}.
Context `{!StateReader Snapshot SnapshotId SnapshotIntervals Environment}.

Lemma dict_set_nonempty {V} (k : Snapshot) (v : list V) (d : list (Snapshot * list V)) :
  v <> [] -> Forall (fun kv => kv.2 <> []) d ->
  Forall (fun kv => kv.2 <> []) (dict_set snapshot_id k v d).
Proof.
  intros Hv. induction 1 as [|[k' v'] d Hhead Htail IH]; cbn.
  - now repeat constructor.
  - destruct (decide (snapshot_id k' = snapshot_id k)); constructor; assumption.
Qed.

Lemma missing_loop_nonempty start_date end_date latest restatements
    (todo done : list Snapshot) (missing : list (Snapshot * list Interval)) :
  Forall (fun kv => kv.2 <> []) missing ->
  Forall (fun kv => kv.2 <> [])
    (missing_loop start_date end_date latest restatements done todo missing).
Proof.
  revert done missing. induction todo as [|snapshot rest IH]; intros done missing Hm;
    cbn [missing_loop]; [exact Hm|].
  apply IH.
  destruct (intervals_for _ _ _ _ _ _) as [|interval intervals] eqn:Hi; [exact Hm|].
  now apply dict_set_nonempty.
Qed.

(** X9. [missing_intervals] for the name of an environment does what it
    does for the environment of that name; for a name that the state does
    not know, for an environment whose snapshots the state does not hold,
    and for no snapshots at all, it returns the empty dictionary.  No entry
    of a returned dictionary has an empty list of intervals. *)
Theorem missing_intervals_by_name (environment : string)
    (start end_ latest : option TimeLike) (restatements : option (list string)) :
  (get_environment environment = None ->
   missing_intervals (ByName environment) start end_ latest restatements = [])
  /\ (forall env,
        get_environment environment = Some env ->
        missing_intervals (ByName environment) start end_ latest restatements
        = missing_intervals (ByEnvironment env) start end_ latest restatements)
  /\ (forall env,
        get_snapshots (env_snapshots env) = [] ->
        missing_intervals (ByEnvironment env) start end_ latest restatements = [])
  /\ missing_intervals (BySnapshots []) start end_ latest restatements = []
  /\ (forall input entry,
        entry ∈ missing_intervals input start end_ latest restatements ->
        entry.2 <> []).
Proof.
  unfold missing_intervals, setup. repeat split.
  - intros ->. reflexivity.
  - intros env ->. reflexivity.
  - intros env ->. reflexivity.
  - intros input entry.
    destruct (let '(snapshots_by_id, start0, end0) := _ in _)
      as [[[[start_date end_date] restated] hydrated]|];
      [|intros Hin; now apply elem_of_nil in Hin].
    intros Hin.
    pose proof (missing_loop_nonempty start_date end_date latest restated hydrated [] []
                  (Forall_nil_2 _)) as Hall.
    rewrite Forall_forall in Hall. now apply Hall.
Qed.

End MissingIntervalsEdges.

Lemma missing_intervals_by_name_witness :
  missing_intervals (ByName "prod") (Some (TInt 5)) (Some (TInt 9)) None (Some ["a"])
  = []
  /\ (sample_c, [(7, 9)])
     ∈ missing_intervals (BySnapshots [sample_a; sample_b; sample_c])
         (Some (TInt 5)) (Some (TInt 9)) None (Some ["a"])
  /\ (sample_c, [(7, 9)]).2 <> [].
Proof.
  assert (Hin : (sample_c, [(7, 9)])
                ∈ missing_intervals (BySnapshots [sample_a; sample_b; sample_c])
                    (Some (TInt 5)) (Some (TInt 9)) None (Some ["a"])).
  { rewrite missing_intervals_sample. repeat constructor. }
  split; [|split; [exact Hin|]].
  - exact (proj1 (missing_intervals_by_name "prod" (Some (TInt 5)) (Some (TInt 9)) None
                    (Some ["a"])) eq_refl).
  - exact (proj2 (proj2 (proj2 (proj2
             (missing_intervals_by_name "prod" (Some (TInt 5)) (Some (TInt 9)) None
                (Some ["a"])))))
             (BySnapshots [sample_a; sample_b; sample_c]) _ Hin).
Defined.

End StateSync.

(** ** sqlmesh/core/renderer.py *)

Module Renderer.

(** *** Stateful, fallible computations *)

(** A computation over a mutable state [S]: it returns or raises, and the
    state it leaves behind is kept in both cases (a Python exception does
    not undo earlier mutations). *)
Definition M (S A : Type) : Type := S -> result A * S.

#[global] Instance M_ret {S} : MRet (M S) := fun A a s => (Ok a, s).

#[global] Instance M_bind {S} : MBind (M S) := fun A B f m s =>
  match m s with
  | (Ok a, s') => f a s'
  | (Raise e, s') => (Raise e, s')
  end.

#[global] Instance M_fmap {S} : FMap (M S) := fun A B f m s =>
  match m s with
  | (Ok a, s') => (Ok (f a), s')
  | (Raise e, s') => (Raise e, s')
  end.

Definition raise {S A} (e : exn) : M S A := fun s => (Raise e, s).

(** Reading and updating the state. *)
Definition gets {S A} (f : S -> A) : M S A := fun s => (Ok (f s), s).
Definition modify {S} (f : S -> S) : M S unit := fun s => (Ok tt, f s).

(** A pure call that may raise. *)
Definition call {S A} (r : result A) : M S A := fun s => (r, s).

(** [try: m except C1: h1 except C2: h2 ...]: the first clause whose class
    matches handles the exception; what a handler raises is not handled
    again. *)
Fixpoint handle {S A} (clauses : list ((exn -> bool) * (exn -> M S A)))
    (e : exn) : M S A :=
  match clauses with
  | [] => raise e
  | (handles, handler) :: rest => if handles e then handler e else handle rest e
  end.

Definition try_except {S A} (m : M S A)
    (clauses : list ((exn -> bool) * (exn -> M S A))) : M S A := fun s =>
  match m s with
  | (Raise e, s') => handle clauses e s'
  | r => r
  end.

(** Running a computation on a component of a larger state. *)
Definition zoom {S T A} (get : T -> S) (set : S -> T -> T) (m : M S A) : M T A :=
  fun t => let '(r, s') := m (get t) in (r, set s' t).

(** [for x in l: acc = step(acc, x)] *)
Fixpoint for_each {S A B} (step : B -> A -> M S B) (l : list A) (acc : B) : M S B :=
  match l with
  | [] => mret acc
  | x :: rest => acc' ← step acc x; for_each step rest acc'
  end.

(** Exception classes named by the handlers of the module. *)
Definition is_ParsetimeAdapterCallError (e : exn) : bool :=
  match e with ParsetimeAdapterCallError _ => true | _ => false end.

Definition is_MacroEvalError (e : exn) : bool :=
  match e with MacroEvalError _ => true | _ => false end.

Definition is_SqlglotError (e : exn) : bool :=
  match e with SqlglotError _ => true | _ => false end.

(** [except Exception] *)
Definition is_Exception (e : exn) : bool := true.

(** The records of the module's [logger]. *)
Inductive log_record : Type :=
  | Warning (msg : string)
  | Error (msg : string).

(** [raise_config_error(msg, location)] of [sqlmesh.utils.errors]; the
    renderer always passes its [Path], which is truthy. *)
Definition raise_config_error {S A} (msg path : string) : M S A :=
  raise (ConfigError (msg +:+ " at '" +:+ path +:+ "'")).

(** *** Expressions *)

(** The classes of sqlglot expressions the renderer tells apart. *)
Inductive kind : Type :=
  | KSelect | KUnion | KSubquery | KParen | KTable | KColumn | KStar
  | KLiteral | KAlias | KBetween | KWith | KFrom | KWhere | KJinja | KOther.

#[global] Instance kind_eq_dec : EqDecision kind.
Proof. solve_decision. Defined.

(** A sqlglot expression: its class, its name (the table name of a table,
    the text of a literal or of a template block), its alias, and its
    [args], each child under its argument key; a list-valued argument
    repeats its key. *)
#[local] Set Warnings "-register-all".
Inductive Expression : Type :=
  | Node (k : kind) (name alias : string) (args : list (string * Expression)).

Definition node_kind (e : Expression) : kind := let 'Node k _ _ _ := e in k.
Definition node_name (e : Expression) : string := let 'Node _ n _ _ := e in n.
Definition node_alias (e : Expression) : string := let 'Node _ _ a _ := e in a.
Definition node_args (e : Expression) : list (string * Expression) :=
  let 'Node _ _ _ args := e in args.

(** [e.args.get(key)] for a single-valued argument. *)
Definition arg (key : string) (e : Expression) : option Expression :=
  snd <$> head (filter (fun kc => kc.1 = key) (node_args e)).

(** [e.args.pop(key, None)]: the expression without the argument. *)
Definition pop_arg (key : string) (e : Expression) : Expression :=
  let 'Node k n a args := e in
  Node k n a (filter (fun kc => kc.1 <> key) args).

(** [e.set(key, value)] *)
Definition set_arg (key : string) (value : Expression) (e : Expression) : Expression :=
  let 'Node k n a args := pop_arg key e in
  Node k n a (args ++ [(key, value)]).

Definition star : Expression := Node KStar "*" "" [].
Definition column (name : string) : Expression := Node KColumn name "" [].
Definition table (name alias : string) : Expression := Node KTable name alias [].

(** [exp.alias_(e, name)] *)
Definition alias_ (e : Expression) (name : string) : Expression :=
  Node KAlias "" name [("this", e)].

(** [q.subquery(alias)] *)
Definition subquery (q : Expression) (alias : string) : Expression :=
  Node KSubquery "" alias [("this", q)].

(** [this.between(low, high)] *)
Definition between (this low high : Expression) : Expression :=
  Node KBetween "" "" [("this", this); ("low", low); ("high", high)].

(** [exp.select("*")], [q.from_(e)] and [q.where(c)] *)
Definition select_star : Expression := Node KSelect "" "" [("expressions", star)].
Definition from_ (e q : Expression) : Expression :=
  set_arg "from" (Node KFrom "" "" [("this", e)]) q.
Definition where_ (c q : Expression) : Expression :=
  set_arg "where" (Node KWhere "" "" [("this", c)]) q.

(** [isinstance(e, exp.Subqueryable)]: a SELECT or a UNION. *)
Definition is_subqueryable (e : Expression) : bool :=
  match node_kind e with KSelect | KUnion => true | _ => false end.

(** [e.output_name] *)
Definition output_name (e : Expression) : string :=
  match node_kind e with
  | KColumn | KLiteral | KStar => node_name e
  | KAlias | KSubquery => node_alias e
  | _ => ""
  end.

(** [q.selects]: the projections of a SELECT; those of the left operand,
    taken out of its parentheses, for a UNION. *)
Fixpoint selects (q : Expression) : list Expression :=
  let 'Node k _ _ args := q in
  match k with
  | KSelect => (filter (fun kc => kc.1 = "expressions") args).*2
  | KUnion | KSubquery | KParen =>
    (fix first_this (l : list (string * Expression)) : list Expression :=
       match l with
       | [] => []
       | (key, child) :: rest =>
         if decide (key = "this") then selects child else first_this rest
       end) args
  | _ => []
  end.

(** The effect of [select.replace(w(select))] on every projection of
    [q.selects], the others staying where they are. *)
Fixpoint replace_selects (w : Expression -> Expression) (q : Expression) : Expression :=
  let 'Node k n a args := q in
  match k with
  | KSelect =>
    Node k n a ((fun kc => if decide (kc.1 = "expressions") then (kc.1, w kc.2) else kc)
                <$> args)
  | KUnion | KSubquery | KParen =>
    Node k n a
      ((fix first_this (l : list (string * Expression)) : list (string * Expression) :=
          match l with
          | [] => []
          | (key, child) :: rest =>
            if decide (key = "this") then (key, replace_selects w child) :: rest
            else (key, child) :: first_this rest
          end) args)
  | _ => q
  end.

(** *** The collaborators of the renderer *)

(** Free-form keyword arguments and template globals. *)
Abbreviation Kwargs := (gmap string pyval).

(** [MappingSchema]: the column types of the tables it knows. *)
Abbreviation MappingSchema := (gmap string (gmap string string)).

(** What the renderer reads of a model and of a snapshot. *)
Record Model : Type := mkModel {
  model_name : string;
  is_seed : bool;
  kind_is_external : bool;
  view_name : string
}.

Record Snapshot : Type := mkSnapshot {
  snapshot_name : string;
  snapshot_model : Model
}.

(** The template environment [build_environment] returns: the registry
    it was built from, the globals it was given, the snapshots and the
    [is_dev] flag. *)
Record JinjaEnv : Type := mkJinjaEnv {
  jinja_registry : gmap string string;
  jinja_globals : Kwargs;
  jinja_snapshots : gmap string Snapshot;
  jinja_is_dev : bool
}.

(** A [MacroEvaluator]: what it was built with and its [locals]. *)
Record MacroEvaluator : Type := mkMacroEvaluator {
  macro_dialect : string;
  macro_python_env : gmap string string;
  macro_jinja_env : JinjaEnv;
  macro_locals : Kwargs
}.

(** The arguments a nested [model.render_query] receives. *)
Record RenderArgs : Type := mkRenderArgs {
  args_start : option TimeLike;
  args_end : option TimeLike;
  args_latest : option TimeLike;
  args_snapshots : option (gmap string Snapshot);
  args_is_dev : bool;
  args_expand : gset string;
  args_kwargs : Kwargs
}.

(** The sqlglot functions the module calls.  The passes update the
    expression they are given; [qualify] and [simplify] are the ones the
    source guards with [try], so they may raise. *)
Class Sqlglot : Type := {
  parse : string -> string -> result (list (option Expression));
  qualify_tables : Expression -> Expression;
  normalize_identifiers : Expression -> string -> Expression;
  quote_identifiers : Expression -> string -> Expression;
  qualify : Expression -> string -> MappingSchema -> result Expression;
  simplify : Expression -> result Expression;
  annotate_types : Expression -> MappingSchema -> Expression;
  convert : Z -> Expression;
  sql : Expression -> string
}.

(** What the module uses of the rest of sqlmesh: [sqlmesh.utils.date]
    ([make_inclusive], [to_datetime], [date_dict]),
    [sqlmesh.utils.metaprogramming.prepare_env], the template registry
    ([jinja_render env template] is
    [env.from_string(template).render()]), the macro evaluator
    ([evaluate] updates the evaluator), [sqlmesh.core.dialect.find_tables],
    [sqlmesh.core.snapshot.to_table_mapping] and [Model.render_query]. *)
Class Sqlmesh : Type := {
  make_inclusive : TimeLike -> TimeLike -> Z * Z;
  to_datetime : TimeLike -> Z;
  date_dict : Z * Z * Z -> bool -> Kwargs;
  prepare_env : gmap string string -> Kwargs;
  jinja_render : JinjaEnv -> string -> result string;
  macro_evaluate : MacroEvaluator -> string -> result MacroEvaluator;
  macro_transform : MacroEvaluator -> Expression -> result (option Expression);
  find_tables : Expression -> string -> gset string;
  to_table_mapping : list Snapshot -> bool -> gmap string string;
  render_query : Model -> RenderArgs -> result (option Expression)
}.

(** [c.EPOCH] *)
Definition EPOCH : TimeLike := TDatetime 0.

(** The cache key: a triple of datetimes. *)
Abbreviation Dates := (Z * Z * Z)%type.

Section Render.

Context `{!Sqlglot} `{!Sqlmesh}.

(** [_dates(start, end, latest)] *)
Definition _dates (start end_ latest : option TimeLike) : Dates :=
  let '(s, e) := make_inclusive (time_or start EPOCH) (time_or end_ EPOCH) in
  (s, e, to_datetime (time_or latest EPOCH)).

(** *** [_normalize_and_quote], a generator under [@contextmanager] *)

Inductive pass : Type :=
  | QualifyTables
  | NormalizeIdentifiers
  | QuoteIdentifiers.

(** The statements of a generator function that manages one expression:
    a call of a pass on it, [yield], and [try: ... finally: ...]. *)
#[local] Set Warnings "-register-all".
Inductive gstmt : Type :=
  | GCall (p : pass)
  | GYield
  | GTryFinally (body handler : list gstmt).

(** What is left of a suspended generator, innermost first: the rest of a
    block, or the [finally] clause of an enclosing [try]. *)
Inductive frame : Type :=
  | Rest (stmts : list gstmt)
  | Finally (handler : list gstmt).

(** The managed expression together with the passes run on it so far. *)
Abbreviation Managed := (Expression * list pass)%type.

Definition run_pass (dialect : string) (p : pass) (m : Managed) : Managed :=
  let '(query, trace) := m in
  (match p with
   | QualifyTables => qualify_tables query
   | NormalizeIdentifiers => normalize_identifiers query dialect
   | QuoteIdentifiers => quote_identifiers query dialect
   end, trace ++ [p]).

(** Running a statement up to the next [yield]: the managed expression
    and, when the generator is suspended, what is left to run. *)
Fixpoint run_stmt (dialect : string) (s : gstmt) (m : Managed)
    : Managed * option (list frame) :=
  let run_block :=
    fix run_block (l : list gstmt) (m : Managed) : Managed * option (list frame) :=
      match l with
      | [] => (m, None)
      | s :: rest =>
        match run_stmt dialect s m with
        | (m', Some k) => (m', Some (k ++ [Rest rest]))
        | (m', None) => run_block rest m'
        end
      end in
  match s with
  | GCall p => (run_pass dialect p m, None)
  | GYield => (m, Some [])
  | GTryFinally body handler =>
    match run_block body m with
    | (m', Some k) => (m', Some (k ++ [Finally handler]))
    | (m', None) => run_block handler m'
    end
  end.

Fixpoint run_block (dialect : string) (l : list gstmt) (m : Managed)
    : Managed * option (list frame) :=
  match l with
  | [] => (m, None)
  | s :: rest =>
    match run_stmt dialect s m with
    | (m', Some k) => (m', Some (k ++ [Rest rest]))
    | (m', None) => run_block dialect rest m'
    end
  end.

(** [next(gen)] on a suspended generator: everything left runs.  The flag
    tells whether the generator finished; it is [false] when it yields a
    second time. *)
Fixpoint resume (dialect : string) (k : list frame) (m : Managed) : Managed * bool :=
  match k with
  | [] => (m, true)
  | (Rest stmts | Finally stmts) :: k' =>
    match run_block dialect stmts m with
    | (m', None) => resume dialect k' m'
    | (m', Some _) => (m', false)
    end
  end.

(** [gen.throw(exc)] on a suspended generator: the exception is raised at
    the [yield]; only the enclosing [finally] clauses run, and the
    exception leaves the generator. *)
Fixpoint throw (dialect : string) (k : list frame) (m : Managed) : Managed :=
  match k with
  | [] => m
  | Rest _ :: k' => throw dialect k' m
  | Finally handler :: k' => throw dialect k' (run_block dialect handler m).1
  end.

(** [with contextmanager(gen)(query) as q: body].  [__enter__] runs the
    generator to its [yield]; [__exit__] resumes it when the body finished
    (also by [return]) and throws the exception into it when the body
    raised.  The body works in place on the managed expression and on a
    state [S] of its own.  The managed expression and the passes run on it
    are returned in every case. *)
Definition with_contextmanager {S A} (dialect : string) (gen : list gstmt)
    (query : Managed) (body : M (Expression * S) A) (s : S)
    : result A * Managed * S :=
  match run_block dialect gen query with
  | (m, Some k) =>
    match body (m.1, s) with
    | (Ok a, (query', s')) =>
      match resume dialect k (query', m.2) with
      | (m', true) => (Ok a, m', s')
      | (m', false) => (Raise (OtherException "generator didn't stop"), m', s')
      end
    | (Raise e, (query', s')) => (Raise e, throw dialect k (query', m.2), s')
    end
  | (m, None) => (Raise (OtherException "generator didn't yield"), m, s)
  end.

(** The body of the generator function [_normalize_and_quote]. *)
Definition _normalize_and_quote : list gstmt :=
  [GCall QualifyTables; GCall NormalizeIdentifiers; GYield; GCall QuoteIdentifiers].

(** [with _normalize_and_quote(query, dialect) as query: body], as the
    callers use it: they read the managed expression after the block, or
    what the body returned. *)
Definition with_normalize_and_quote {S A} (query : Expression) (dialect : string)
    (body : M (Expression * S) A) : M S (A * Expression) := fun s =>
  match with_contextmanager dialect _normalize_and_quote (query, []) body s with
  | (Ok a, m, s') => (Ok (a, m.1), s')
  | (Raise e, _, s') => (Raise e, s')
  end.

(** *** The renderers *)

(** [BaseExpressionRenderer]: the fields set by [__init__]. *)
Record BaseExpressionRenderer : Type := mkBase {
  _expression : Expression;
  _dialect : string;
  _macro_definitions : list string;
  _path : string;
  _jinja_macro_registry : gmap string string;
  _python_env : gmap string string;
  _only_latest : bool
}.

(** [TimeColumn] of [sqlmesh.core.model.kind]. *)
Record TimeColumn : Type := mkTimeColumn {
  time_column_name : string;
  time_column_format : option string
}.

(** [QueryRenderer]: the base fields and its own. *)
Record QueryRenderer : Type := mkQueryRenderer {
  base : BaseExpressionRenderer;
  _model_name : option string;
  _time_column : option TimeColumn;
  _time_converter : Z -> Expression;
  schema : MappingSchema
}.

(** The mutable part of a renderer: the cache of resolved expressions, the
    cache of optimized queries, and the records the module's logger has
    received. *)
Record State : Type := mkState {
  _cache : gmap Dates (list Expression);
  _optimized_cache : gmap Dates Expression;
  log : list log_record
}.

Definition set_cache (f : gmap Dates (list Expression) -> gmap Dates (list Expression))
    (st : State) : State :=
  mkState (f (_cache st)) (_optimized_cache st) (log st).

Definition set_optimized_cache (f : gmap Dates Expression -> gmap Dates Expression)
    (st : State) : State :=
  mkState (_cache st) (f (_optimized_cache st)) (log st).

Definition set_log (l : list log_record) (st : State) : State :=
  mkState (_cache st) (_optimized_cache st) l.

(** [logger.warning(...)] and [logger.error(...)] *)
Definition logger (r : log_record) : M (list log_record) unit :=
  modify (fun l => l ++ [r]).

(** Module-level code only reaches the logger. *)
Definition logging {A} (m : M (list log_record) A) : M State A := zoom log set_log m.

Definition newline : string := String (ascii_of_nat 10) "".

(** [not s.strip()]: the string holds nothing but white space.  A Python
    string is held as its UTF-8 bytes.  The white space of [str.strip] is
    U+0009 to U+000D, U+001C to U+0020, U+0085, U+00A0, U+1680, U+2000 to
    U+200A, U+2028, U+2029, U+202F, U+205F and U+3000: the first ten are
    one byte each, U+0085 and U+00A0 are [C2 85] and [C2 A0], the others
    take three bytes. *)
Definition is_space (c : ascii) : bool :=
  let n := nat_of_ascii c in
  (Nat.leb 9 n && Nat.leb n 13) || (Nat.leb 28 n && Nat.leb n 32).

Definition is_space2 (c1 c2 : ascii) : bool :=
  let n2 := nat_of_ascii c2 in
  Nat.eqb (nat_of_ascii c1) 194 && (Nat.eqb n2 133 || Nat.eqb n2 160).

Definition is_space3 (c1 c2 c3 : ascii) : bool :=
  let n1 := nat_of_ascii c1 in
  let n2 := nat_of_ascii c2 in
  let n3 := nat_of_ascii c3 in
  (Nat.eqb n1 225 && Nat.eqb n2 154 && Nat.eqb n3 128)
  || (Nat.eqb n1 226 && Nat.eqb n2 128
      && ((Nat.leb 128 n3 && Nat.leb n3 138)
          || Nat.eqb n3 168 || Nat.eqb n3 169 || Nat.eqb n3 175))
  || (Nat.eqb n1 226 && Nat.eqb n2 129 && Nat.eqb n3 159)
  || (Nat.eqb n1 227 && Nat.eqb n2 128 && Nat.eqb n3 128).

Fixpoint is_blank (s : string) : bool :=
  match s with
  | EmptyString => true
  | String c1 rest1 =>
    if is_space c1 then is_blank rest1
    else
      match rest1 with
      | String c2 rest2 =>
        if is_space2 c1 c2 then is_blank rest2
        else
          match rest2 with
          | String c3 rest3 => is_space3 c1 c2 c3 && is_blank rest3
          | EmptyString => false
          end
      | EmptyString => false
      end
  end.

(** The template stage of [_render], the body of its [try]: [inl] is the
    early [return []] of an empty rendering (after caching it), [inr] the
    parsed expressions. *)
Definition render_jinja (self : BaseExpressionRenderer) (cache_key : Dates)
    (jinja_env : JinjaEnv) : M State (list Expression + list Expression) :=
  rendered_expression ← call (jinja_render jinja_env (node_name (_expression self)));
  if is_blank rendered_expression then
    _ ← modify (set_cache <[cache_key := []]>);
    mret (inl [])
  else
    parsed ← call (parse rendered_expression (_dialect self));
    match omap id parsed with
    | [] => raise (ConfigError ("Failed to parse an expression "
                                +:+ sql (_expression self)))
    | parsed_expressions => mret (inr parsed_expressions)
    end.

(** The [with] block of [_render]: its body is [pass]. *)
Definition normalize_and_quote {S} (expression : Expression) (dialect : string)
    : M S Expression :=
  r ← with_normalize_and_quote expression dialect (mret tt); mret r.2.

(** [BaseExpressionRenderer._render] *)
Definition _render (self : BaseExpressionRenderer)
    (start end_ latest : option TimeLike)
    (snapshots : option (gmap string Snapshot)) (is_dev : bool)
    (kwargs : Kwargs) : M State (list Expression) :=
  let dates := _dates start end_ latest in
  let cache_key := dates in
  cached ← gets (fun st => _cache st !! cache_key);
  match cached with
  | Some cached => mret cached
  | None =>
    (let render_kwargs := kwargs ∪ date_dict dates (_only_latest self) in
     let env := prepare_env (_python_env self) in
     let jinja_env :=
       mkJinjaEnv (_jinja_macro_registry self) (env ∪ render_kwargs)
                  (default ∅ snapshots) is_dev in
     stage ← (if decide (node_kind (_expression self) = KJinja) then
                try_except (render_jinja self cache_key jinja_env)
                  [(is_ParsetimeAdapterCallError, fun ex => raise ex);
                   (is_Exception, fun ex =>
                      raise (ConfigError ("Invalid expression. " +:+ exn_str ex
                                          +:+ " at '" +:+ _path self +:+ "'")))]
              else mret (inr [_expression self]));
     match stage with
     | inl empty => mret empty
     | inr expressions =>
       let macro_evaluator :=
         mkMacroEvaluator (_dialect self) (_python_env self) jinja_env ∅ in
       macro_evaluator ←
         for_each (fun evaluator definition =>
                     try_except (call (macro_evaluate evaluator definition))
                       [(is_MacroEvalError, fun ex =>
                           raise_config_error
                             ("Failed to evaluate macro '" +:+ definition
                              +:+ "'. " +:+ exn_str ex) (_path self))])
                  (_macro_definitions self) macro_evaluator;
       let macro_evaluator :=
         mkMacroEvaluator (macro_dialect macro_evaluator)
           (macro_python_env macro_evaluator) (macro_jinja_env macro_evaluator)
           (render_kwargs ∪ macro_locals macro_evaluator) in
       resolved_expressions ←
         for_each (fun resolved expression =>
                     transformed ←
                       try_except (call (macro_transform macro_evaluator expression))
                         [(is_MacroEvalError, fun ex =>
                             raise_config_error
                               ("Failed to resolve macro for expression. "
                                +:+ exn_str ex) (_path self))];
                     match transformed with
                     | Some expression =>
                       expression ← normalize_and_quote expression (_dialect self);
                       mret (resolved ++ [expression])
                     | None => mret resolved
                     end)
                  expressions [];
       _ ← modify (set_cache <[cache_key := resolved_expressions]>);
       mret resolved_expressions
     end)
  end.

(** [BaseExpressionRenderer.update_cache] *)
Definition update_cache_base (expression : Expression)
    (start end_ latest : option TimeLike) : M State unit :=
  modify (set_cache <[_dates start end_ latest := [expression]]>).

(** [QueryRenderer.update_cache] *)
Definition update_cache (expression : Expression)
    (start end_ latest : option TimeLike) (optimized : bool) : M State unit :=
  if optimized then
    modify (set_optimized_cache <[_dates start end_ latest := expression]>)
  else update_cache_base expression start end_ latest.

(** *** Table resolution *)

(** [e.transform(fun, copy=False)].  [f] answers [Some new] when it returns
    a new node in place of the one it is given and [None] when it returns
    the node itself; a node that is replaced is not visited further, the
    children of a node that is kept are transformed in order. *)
Fixpoint transform {S} (f : Expression -> M S (option Expression))
    (e : Expression) : M S Expression :=
  r ← f e;
  match r with
  | Some new => mret new
  | None =>
    let 'Node k n a args := e in
    args' ← (fix children (l : list (string * Expression))
               : M S (list (string * Expression)) :=
               match l with
               | [] => mret []
               | (key, child) :: rest =>
                 child' ← transform f child;
                 rest' ← children rest;
                 mret ((key, child') :: rest')
               end) args;
    mret (Node k n a args')
  end.

(** The children of a kept node, transformed in order. *)
Fixpoint transform_children {S} (f : Expression -> M S (option Expression))
    (l : list (string * Expression)) : M S (list (string * Expression)) :=
  match l with
  | [] => mret []
  | (key, child) :: rest =>
    child' ← transform f child;
    rest' ← transform_children f rest;
    mret ((key, child') :: rest')
  end.

(** [transform] together with the identity of what it returns: [true] when
    the root was kept (and updated in place), [false] when the root itself
    was replaced by a new node. *)
Definition transform_root {S} (f : Expression -> M S (option Expression))
    (e : Expression) : M S (Expression * bool) :=
  r ← f e;
  match r with
  | Some new => mret (new, false)
  | None =>
    args' ← transform_children f (node_args e);
    mret (Node (node_kind e) (node_name e) (node_alias e) args', true)
  end.

(** [exp.replace_tables(e, mapping, copy=False)]: the node function. *)
Definition _replace_tables (mapping : gmap string string) (node : Expression)
    : option Expression :=
  if bool_decide (node_kind node = KTable) then
    match mapping !! node_name node with
    | Some new_name =>
      if String.eqb new_name "" then None
      else Some (table new_name (node_alias node))
    | None => None
    end
  else None.

(** The names to expand: [set(expand) | {name for name in snapshots if name
    not in mapping}]. *)
Definition expand_set (snapshots : gmap string Snapshot)
    (mapping : gmap string string) (expand : gset string) : gset string :=
  expand ∪ dom (filter (fun kv => mapping !! kv.1 = None) snapshots).

(** The inner function [_expand] of [_resolve_tables]. *)
Definition _expand (snapshots : gmap string Snapshot) (expand : gset string)
    (is_dev : bool) (render_kwargs : RenderArgs) (node : Expression)
    : M (list log_record) (option Expression) :=
  if bool_decide (node_kind node = KTable) && negb (bool_decide (snapshots = ∅)) then
    let name := node_name node in
    match snapshot_model <$> snapshots !! name with
    | Some model =>
      if bool_decide (name ∈ expand) && negb (is_seed model)
         && negb (kind_is_external model) then
        nested_query ←
          call (render_query model
                  (mkRenderArgs (args_start render_kwargs) (args_end render_kwargs)
                     (args_latest render_kwargs) (Some snapshots) is_dev expand
                     (args_kwargs render_kwargs)));
        match nested_query with
        | Some nested_query =>
          mret (Some (subquery nested_query
                        (if String.eqb (node_alias node) "" then view_name model
                         else node_alias node)))
        | None =>
          _ ← logger (Warning ("Failed to expand the nested model '" +:+ name +:+ "'"));
          mret None
        end
      else mret None
    | None => mret None
    end
  else mret None.

(** The module function [_resolve_tables].  Besides the expression it
    returns, the model tells whether that is still the object it was given
    (updated in place by both traversals) or a new root. *)
Definition _resolve_tables (expression : Expression)
    (snapshots : option (gmap string Snapshot)) (expand : gset string)
    (is_dev : bool) (render_kwargs : RenderArgs)
    : M (list log_record) (Expression * bool) :=
  let snapshots := default ∅ snapshots in
  let mapping := to_table_mapping (map_to_list snapshots).*2 is_dev in
  let expand := expand_set snapshots mapping expand in
  expanded ←
    (if bool_decide (expand = ∅) then mret (expression, true)
     else transform_root (_expand snapshots expand is_dev render_kwargs) expression);
  if bool_decide (mapping = ∅) then mret expanded
  else
    replaced ← transform_root (fun node => mret (_replace_tables mapping node)) expanded.1;
    mret (replaced.1, expanded.2 && replaced.2).

(** [BaseExpressionRenderer._resolve_tables].  The body of the [with]
    block returns from inside it: the managed copy is quoted on the way
    out, and the caller receives what the module function returned, which
    is the managed copy unless the root was replaced. *)
Definition resolve_tables (self : BaseExpressionRenderer) (expression : Expression)
    (args : RenderArgs) : M State Expression :=
  if bool_decide (default ∅ (args_snapshots args) = ∅)
     && bool_decide (args_expand args = ∅)
  then mret expression
  else
    r ← logging
          (with_normalize_and_quote expression (_dialect self)
             (fun '(managed, l) =>
                match _resolve_tables managed (args_snapshots args)
                        (args_expand args) (args_is_dev args) args l with
                | (Ok (resolved, true), l') => (Ok None, (resolved, l'))
                | (Ok (resolved, false), l') => (Ok (Some resolved), (managed, l'))
                | (Raise e, l') => (Raise e, (managed, l'))
                end));
    match r with
    | (Some fresh, _) => mret fresh
    | (None, managed) => mret managed
    end.

(** *** [QueryRenderer] *)

(** The replacement the fallback of [_optimize_query] makes for one
    projection: an explicit alias, unless it has one already or its output
    name is ["*"] or empty. *)
Definition alias_select (select : Expression) : Expression :=
  if negb (bool_decide (node_kind select = KAlias))
     && negb (bool_decide (output_name select = "*"))
     && negb (bool_decide (output_name select = ""))
  then alias_ select (output_name select)
  else select.

(** The fallback of [_optimize_query]: a copy of the original query with its
    projections aliased, inside [_normalize_and_quote]. *)
Definition aliased_fallback {S} (self : QueryRenderer) (original : Expression)
    : M S Expression :=
  r ← with_normalize_and_quote original (_dialect (base self))
        (modify (fun '(query, s) => (replace_selects alias_select query, s)));
  mret r.2.

(** [QueryRenderer._optimize_query].  The [for] loop over the dependencies
    stops at the first one without a schema entry; [try] guards [qualify]
    and [simplify], [except SqlglotError] logs, and the [finally] clause
    runs whatever happened: when an exception other than a [SqlglotError]
    is on its way, it leaves the query alone and the exception goes on. *)
Definition _optimize_query (self : QueryRenderer) (query : Expression)
    : M State Expression :=
  let dialect := _dialect (base self) in
  let original := query in
  let dependencies : gset string :=
    find_tables query dialect
    ∖ (match _model_name self with Some name => {[name]} | None => ∅ end) in
  let missing :=
    head (filter (fun dependency => schema self !! dependency = None)
            (elements dependencies)) in
  _ ← match missing, _model_name self with
      | Some dependency, Some name =>
        logging (logger (Warning
          ("Query cannot be optimized due to missing schema for model '"
           +:+ dependency +:+ "'. Make sure that the model '" +:+ name
           +:+ "' can be rendered at parse time")))
      | _, _ => mret tt
      end;
  let schema : MappingSchema :=
    match missing with Some _ => ∅ | None => schema self end in
  let should_optimize :=
    negb (bool_decide (schema = ∅)) || bool_decide (dependencies = ∅) in
  attempt ←
    try_except
      (if should_optimize then
         qualified ← call (qualify query dialect schema);
         simplified ← call (simplify qualified);
         mret (simplified, false)
       else mret (query, false))
      [(is_SqlglotError, fun ex =>
          _ ← logging (logger (Error
                (exn_str ex +:+ " for '" +:+ _path (base self)
                 +:+ "', the column may not exist or is ambiguous")));
          mret (query, true))];
  let '(query, failure) := attempt in
  query ← (if failure || negb should_optimize
           then aliased_fallback self original
           else mret query);
  mret (annotate_types query schema).

(** [QueryRenderer.time_column_filter] *)
Definition time_column_filter (self : QueryRenderer) (start end_ : Z)
    : result Expression :=
  match _time_column self with
  | None =>
    Raise (SQLMeshError
      "Cannot produce time column filter because model does not have a time column.")
  | Some time_column =>
    Ok (between (column (time_column_name time_column))
          (_time_converter self start) (_time_converter self end_))
  end.

(** The incremental filter of [render]: the query, without its WITH
    clause, as the subquery [_subquery] of [SELECT * ... WHERE filter],
    the WITH clause set on the outer query. *)
Definition add_filter (query filter : Expression) : Expression :=
  let with_ := arg "with" query in
  let query := pop_arg "with" query in
  let query := where_ filter (from_ (subquery query "_subquery") select_star) in
  match with_ with
  | Some with_ => set_arg "with" with_ query
  | None => query
  end.

(** The first part of [QueryRenderer.render], up to table resolution:
    [None] is the early [return None]. *)
Definition render_resolved (self : QueryRenderer) (args : RenderArgs)
    (optimize : bool) : M State (option Expression) :=
  let cache_key := _dates (args_start args) (args_end args) (args_latest args) in
  let skip_cache :=
    negb (bool_decide (default ∅ (args_snapshots args) = ∅))
    || negb (bool_decide (args_expand args = ∅)) in
  cached ←
    (if skip_cache || negb optimize then mret None
     else gets (fun st => _optimized_cache st !! cache_key));
  query ←
    match cached with
    | Some query => mret (Some query)
    | None =>
      expressions ←
        try_except
          (Some <$> _render (base self) (args_start args) (args_end args)
                      (args_latest args) (args_snapshots args) (args_is_dev args)
                      (args_kwargs args))
          [(is_ParsetimeAdapterCallError, fun _ => mret None)];
      match expressions with
      | None => mret None
      | Some [] =>
        raise (ConfigError ("Failed to render query:" +:+ newline
                            +:+ sql (_expression (base self))))
      | Some [query] =>
        if optimize then
          query ← _optimize_query self query;
          _ ← (if skip_cache then mret tt
               else modify (set_optimized_cache <[cache_key := query]>));
          mret (Some query)
        else mret (Some query)
      | Some _ =>
        raise (ConfigError ("Too many statements in query:" +:+ newline
                            +:+ sql (_expression (base self))))
      end
    end;
  match query with
  | None => mret None
  | Some query => Some <$> resolve_tables (base self) query args
  end.

(** [QueryRenderer.render] *)
Definition render (self : QueryRenderer) (args : RenderArgs)
    (add_incremental_filter optimize : bool) : M State (option Expression) :=
  resolved ← render_resolved self args optimize;
  match resolved with
  | None => mret None
  | Some query =>
    query ←
      (if add_incremental_filter && bool_decide (is_Some (_time_column self)) then
         let dates := _dates (args_start args) (args_end args) (args_latest args) in
         if is_subqueryable query then
           filter ← call (time_column_filter self dates.1.1 dates.1.2);
           mret (add_filter query filter)
         else raise (AttributeError "subquery")
       else mret query);
    if is_subqueryable query then mret (Some query)
    else raise_config_error
           ("Query needs to be a SELECT or a UNION " +:+ sql query +:+ ".")
           (_path (base self))
  end.

(** [ExpressionRenderer.render]: the rendered expressions, each one
    resolved in turn. *)
Definition expression_render (self : BaseExpressionRenderer) (args : RenderArgs)
    : M State (list Expression) :=
  expressions ← _render self (args_start args) (args_end args) (args_latest args)
                   (args_snapshots args) (args_is_dev args) (args_kwargs args);
  for_each (fun resolved e =>
              e ← resolve_tables self e args;
              mret (resolved ++ [e]))
           expressions [].

(** *** Notions used to state the properties *)

(** The template environment [_render] builds for a call. *)
Definition jinja_env_of (self : BaseExpressionRenderer)
    (start end_ latest : option TimeLike)
    (snapshots : option (gmap string Snapshot)) (is_dev : bool)
    (kwargs : Kwargs) : JinjaEnv :=
  mkJinjaEnv (_jinja_macro_registry self)
    (prepare_env (_python_env self)
     ∪ (kwargs ∪ date_dict (_dates start end_ latest) (_only_latest self)))
    (default ∅ snapshots) is_dev.

(** The template stage fails with [e]: rendering the template raises it,
    or parsing what it rendered to does, or nothing was parsed and the
    stage raises its own error. *)
Definition template_failure (self : BaseExpressionRenderer) (env : JinjaEnv)
    (e : exn) : Prop :=
  jinja_render env (node_name (_expression self)) = Raise e
  \/ exists rendered,
       jinja_render env (node_name (_expression self)) = Ok rendered
       /\ is_blank rendered = false
       /\ (parse rendered (_dialect self) = Raise e
           \/ exists parsed,
                parse rendered (_dialect self) = Ok parsed
                /\ omap id parsed = []
                /\ e = ConfigError ("Failed to parse an expression "
                                    +:+ sql (_expression self))).

(** [render] reaches [_render], and [_render] the template stage, when the
    caches do not answer before. *)
Definition reaches_template (self : QueryRenderer) (args : RenderArgs)
    (optimize : bool) (st : State) : Prop :=
  let key := _dates (args_start args) (args_end args) (args_latest args) in
  node_kind (_expression (base self)) = KJinja
  /\ _cache st !! key = None
  /\ (default ∅ (args_snapshots args) = ∅ -> args_expand args = ∅ ->
      optimize = true -> _optimized_cache st !! key = None).

(** The fallback query: the original, qualified and normalized, its
    projections aliased, then quoted. *)
Definition fallback_of (self : QueryRenderer) (original : Expression) : Expression :=
  quote_identifiers
    (replace_selects alias_select
       (normalize_identifiers (qualify_tables original) (_dialect (base self))))
    (_dialect (base self)).

(** The dependencies of a query: the tables it refers to, the model itself
    apart. *)
Definition dependencies_of (self : QueryRenderer) (query : Expression) : gset string :=
  find_tables query (_dialect (base self))
  ∖ (match _model_name self with Some name => {[name]} | None => ∅ end).


(** A traversal whose node function has no effect. *)
Fixpoint transform_pure (g : Expression -> option Expression) (e : Expression)
    : Expression :=
  match g e with
  | Some new => new
  | None =>
    let 'Node k n a args := e in
    Node k n a
      ((fix children (l : list (string * Expression)) : list (string * Expression) :=
          match l with
          | [] => []
          | (key, child) :: rest => (key, transform_pure g child) :: children rest
          end) args)
  end.

Fixpoint transform_pure_children (g : Expression -> option Expression)
    (l : list (string * Expression)) : list (string * Expression) :=
  match l with
  | [] => []
  | (key, child) :: rest => (key, transform_pure g child) :: transform_pure_children g rest
  end.

(** The mapping of a call, the names it expands, and the model to inline
    for a name: the name is to be expanded, the snapshots hold it, and its
    model is neither a seed nor external. *)
Definition mapping_of (snapshots : option (gmap string Snapshot)) (is_dev : bool)
    : gmap string string :=
  to_table_mapping (map_to_list (default ∅ snapshots)).*2 is_dev.

Definition expanded_names (snapshots : option (gmap string Snapshot))
    (expand : gset string) (is_dev : bool) : gset string :=
  expand_set (default ∅ snapshots) (mapping_of snapshots is_dev) expand.

Definition inlinable (snapshots : option (gmap string Snapshot))
    (expand : gset string) (is_dev : bool) (name : string) : option Model :=
  match snapshot_model <$> default ∅ snapshots !! name with
  | Some model =>
    if bool_decide (name ∈ expanded_names snapshots expand is_dev)
       && negb (is_seed model) && negb (kind_is_external model)
    then Some model else None
  | None => None
  end.

(** The arguments of the nested [render_query]. *)
Definition nested_args (snapshots : option (gmap string Snapshot))
    (expand : gset string) (is_dev : bool) (render_kwargs : RenderArgs) : RenderArgs :=
  mkRenderArgs (args_start render_kwargs) (args_end render_kwargs)
    (args_latest render_kwargs) (Some (default ∅ snapshots)) is_dev
    (expanded_names snapshots expand is_dev) (args_kwargs render_kwargs).

(** The children of a node, resolved one after the other. *)
Fixpoint resolve_children (l : list (string * Expression))
    (snapshots : option (gmap string Snapshot)) (expand : gset string)
    (is_dev : bool) (render_kwargs : RenderArgs)
    : M (list log_record) (list (string * Expression)) :=
  match l with
  | [] => mret []
  | (key, child) :: rest =>
    child' ← fst <$> _resolve_tables child snapshots expand is_dev render_kwargs;
    rest' ← resolve_children rest snapshots expand is_dev render_kwargs;
    mret ((key, child') :: rest')
  end.

(** A computation that leaves the state as it finds it. *)
Definition keeps_state {S A} (m : M S A) : Prop := forall s, (m s).2 = s.

(** The end of [render], after table resolution: the incremental filter
    and the check that the result is a SELECT or a UNION.  It touches
    neither the caches nor the log. *)
Definition finish (self : QueryRenderer) (args : RenderArgs)
    (add_incremental_filter : bool) (query : Expression) : result (option Expression) :=
  let filtered :=
    if add_incremental_filter && bool_decide (is_Some (_time_column self)) then
      let dates := _dates (args_start args) (args_end args) (args_latest args) in
      if is_subqueryable query then
        match time_column_filter self dates.1.1 dates.1.2 with
        | Ok filter => Ok (add_filter query filter)
        | Raise e => Raise e
        end
      else Raise (AttributeError "subquery")
    else Ok query in
  match filtered with
  | Ok query =>
    if is_subqueryable query then Ok (Some query)
    else Raise (ConfigError (("Query needs to be a SELECT or a UNION " +:+ sql query
                              +:+ ".") +:+ " at '" +:+ _path (base self) +:+ "'"))
  | Raise e => Raise e
  end.

(** The call has neither snapshots nor names to expand. *)
Definition plain (args : RenderArgs) : Prop :=
  default ∅ (args_snapshots args) = ∅ /\ args_expand args = ∅.

(** The state with another optimized cache. *)
Definition with_optimized_cache (c : gmap Dates Expression) (st : State) : State :=
  mkState (_cache st) c (log st).

(** A computation that neither reads nor writes the optimized cache: run
    with any other optimized cache, it does the same and leaves that cache
    behind. *)
Definition ignores_optimized_cache {A} (m : M State A) : Prop :=
  forall c st,
    m (with_optimized_cache c st) = ((m st).1, with_optimized_cache c (m st).2).

End Render.

(** *** A small instance of the collaborators

    Used to run the renderer on concrete inputs.  The parser reads its
    text as the name of the table of [SELECT * FROM <text>]; [qualify]
    rejects a query that projects a column named [ambiguous]; the quote and
    annotation passes leave a mark on the root.  A template stands for
    [{{ ref('<template>') }}]: it renders to the physical table of the
    snapshot of that name when the environment has one, and to the name
    itself otherwise; two templates raise. *)

Definition mark (key value : string) (e : Expression) : Expression :=
  set_arg key (Node KOther value "" []) e.

Definition sample_sqlglot : Sqlglot := {|
  parse := fun text _ =>
    if String.eqb text "syntax error"
    then Raise (SqlglotError "Invalid expression / Unexpected token")
    else Ok [Some (from_ (table text "") select_star)];
  qualify_tables := fun e => e;
  normalize_identifiers := fun e _ => e;
  quote_identifiers := fun e _ => mark "quoted" "true" e;
  qualify := fun e _ _ =>
    if bool_decide ("ambiguous" ∈ output_name <$> selects e)
    then Raise (SqlglotError "Column 'ambiguous' is ambiguous")
    else Ok e;
  simplify := fun e => Ok e;
  annotate_types := fun e _ => mark "type" "annotated" e;
  convert := fun z => Node KLiteral (pretty z) "" [];
  sql := node_name
|}.

Fixpoint table_names (e : Expression) : list string :=
  let 'Node k n _ args := e in
  (if bool_decide (k = KTable) then [n] else [])
  ++ (fix children (l : list (string * Expression)) : list string :=
        match l with
        | [] => []
        | (_, child) :: rest => table_names child ++ children rest
        end) args.

Definition sample_ms (t : TimeLike) : Z :=
  match t with TDatetime ms | TInt ms => ms | TStr _ => 0 end.

Definition physical_name (name : string) : string := "sqlmesh__default." +:+ name.

Definition sample_sqlmesh : Sqlmesh := {|
  make_inclusive := fun start end_ => (sample_ms start, sample_ms end_);
  to_datetime := sample_ms;
  date_dict := fun _ _ => ∅;
  prepare_env := fun _ => ∅;
  jinja_render := fun env template =>
    if String.eqb template "adapter.get_relation"
    then Raise (ParsetimeAdapterCallError "adapter call at parse time")
    else if String.eqb template "undefined_variable"
    then Raise (OtherException "'undefined_variable' is undefined")
    else match jinja_snapshots env !! template with
         | Some _ => Ok (physical_name template)
         | None => Ok template
         end;
  macro_evaluate := fun evaluator _ => Ok evaluator;
  macro_transform := fun _ e => Ok (Some e);
  find_tables := fun e _ => list_to_set (table_names e);
  to_table_mapping := fun snapshots _ =>
    list_to_map
      ((fun s => (snapshot_name s, physical_name (snapshot_name s)))
       <$> filter (fun s => model_name (snapshot_model s) <> "embedded") snapshots);
  render_query := fun model _ =>
    Ok (Some (from_ (table ("raw." +:+ model_name model) "") select_star))
|}.

(** The same collaborators with a [render_query] that raises. *)
Definition raising_sqlmesh : Sqlmesh := {|
  make_inclusive := @make_inclusive sample_sqlmesh;
  to_datetime := @to_datetime sample_sqlmesh;
  date_dict := @date_dict sample_sqlmesh;
  prepare_env := @prepare_env sample_sqlmesh;
  jinja_render := @jinja_render sample_sqlmesh;
  macro_evaluate := @macro_evaluate sample_sqlmesh;
  macro_transform := @macro_transform sample_sqlmesh;
  find_tables := @find_tables sample_sqlmesh;
  to_table_mapping := @to_table_mapping sample_sqlmesh;
  render_query := fun model _ =>
    Raise (ConfigError ("Failed to render query:" +:+ model_name model))
|}.

Definition empty_state : State := mkState ∅ ∅ [].

Definition no_args : RenderArgs := mkRenderArgs None None None None false ∅ ∅.

Definition with_snapshots (snapshots : gmap string Snapshot) : RenderArgs :=
  mkRenderArgs None None None (Some snapshots) false ∅ ∅.

Definition sample_base (expression : Expression) : BaseExpressionRenderer :=
  mkBase expression "duckdb" [] "models/orders.sql" ∅ ∅ false.

Definition sample_renderer (expression : Expression) : QueryRenderer :=
  mkQueryRenderer (sample_base expression) (Some "orders")
    (Some (mkTimeColumn "ds" None)) (@convert sample_sqlglot) ∅.

Definition seed_snapshot : Snapshot :=
  mkSnapshot "items" (mkModel "items" true false "items_view").

Definition upstream_snapshot : Snapshot :=
  mkSnapshot "upstream" (mkModel "upstream" false false "upstream_view").

Definition embedded_snapshot : Snapshot :=
  mkSnapshot "embedded" (mkModel "embedded" false false "embedded_view").

(** A query whose template resolves the reference [upstream]. *)
Definition jinja_query : QueryRenderer :=
  sample_renderer (Node KJinja "upstream" "" []).

Definition orders_query : Expression :=
  from_ (table "orders" "") select_star.



Definition upstream_query : Expression :=
  Node KSelect "" ""
    [("expressions", column "a");
     ("from", Node KFrom "" "" [("this", table "upstream" "")])].


Definition both_snapshots : gmap string Snapshot :=
  {["embedded" := embedded_snapshot; "upstream" := upstream_snapshot]}.

(** *** Properties *)

(** Structural induction: the hypothesis holds for every child. *)
Lemma Expression_induction (P : Expression -> Prop) :
  (forall k name alias args,
     Forall (fun kc => P kc.2) args -> P (Node k name alias args)) ->
  forall e, P e.
Proof.
  intros Hnode. fix IH 1. intros [k name alias args]. apply Hnode.
  induction args as [|[key child] args IHargs]; constructor;
    [apply IH | exact IHargs].
Qed.

Section Properties.

Context `{!Sqlglot} `{!Sqlmesh}.

(** Blank renderings: white space of one, two and three bytes (a tab, the
    separator U+001F, a no-break space U+00A0, an ideographic space
    U+3000, a line feed) is stripped, a letter is not. *)
Example is_blank_unicode_white_space :
  is_blank (String (ascii_of_nat 9)
              (String (ascii_of_nat 31)
                 (String (ascii_of_nat 194) (String (ascii_of_nat 160)
                    (String (ascii_of_nat 227) (String (ascii_of_nat 128)
                       (String (ascii_of_nat 128) newline)))))))
  = true
  /\ is_blank " a " = false
  /\ is_blank (String (ascii_of_nat 194) (String (ascii_of_nat 161) "")) = false.
Proof. repeat split. Qed.

(** *** The scope of [_normalize_and_quote] *)

(** C2 (as amended). [_normalize_and_quote] qualifies the table references
    and normalizes the identifiers of the query on entry, and hands the
    result to the code inside the scope.  When that code finishes (falling
    through or returning), the quote pass runs on the managed query on the
    way out.  When it raises, the exception goes through unchanged and the
    quote pass does not run: the passes run are the two of the entry. *)
Theorem normalize_and_quote_scope {S A} (dialect : string) (query : Expression)
    (body : M (Expression * S) A) (s : S) :
  let entered := normalize_identifiers (qualify_tables query) dialect in
  (forall a query' s',
     body (entered, s) = (Ok a, (query', s')) ->
     with_contextmanager dialect _normalize_and_quote (query, []) body s
     = (Ok a,
        (quote_identifiers query' dialect,
         [QualifyTables; NormalizeIdentifiers; QuoteIdentifiers]),
        s'))
  /\ (forall e query' s',
        body (entered, s) = (Raise e, (query', s')) ->
        with_contextmanager dialect _normalize_and_quote (query, []) body s
        = (Raise e, (query', [QualifyTables; NormalizeIdentifiers]), s')).
Proof.
  intros entered. unfold with_contextmanager. cbn. fold entered.
  split; intros ? ? ? ->; reflexivity.
Qed.

(** Had the generator wrapped its [yield] in [try: ... finally:], the quote
    pass would run when the body raises as well. *)
Lemma try_finally_generator_quotes_on_raise {S A} (dialect : string)
    (query : Expression) (e : exn) (s : S) :
  with_contextmanager (A := A) dialect
    [GCall QualifyTables; GCall NormalizeIdentifiers;
     GTryFinally [GYield] [GCall QuoteIdentifiers]]
    (query, []) (raise e) s
  = (Raise e,
     (quote_identifiers (normalize_identifiers (qualify_tables query) dialect) dialect,
      [QualifyTables; NormalizeIdentifiers; QuoteIdentifiers]),
     s).
Proof. reflexivity. Qed.

(** The callers' view of the scope: the managed query after the block. *)
Lemma with_normalize_and_quote_ok {S A} (query : Expression) (dialect : string)
    (body : M (Expression * S) A) (s : S) a query' s' :
  body (normalize_identifiers (qualify_tables query) dialect, s)
  = (Ok a, (query', s')) ->
  with_normalize_and_quote query dialect body s
  = (Ok (a, quote_identifiers query' dialect), s').
Proof.
  intros Hbody. unfold with_normalize_and_quote, with_contextmanager. cbn.
  now rewrite Hbody.
Qed.

Lemma with_normalize_and_quote_raise {S A} (query : Expression) (dialect : string)
    (body : M (Expression * S) A) (s : S) e query' s' :
  body (normalize_identifiers (qualify_tables query) dialect, s)
  = (Raise e, (query', s')) ->
  with_normalize_and_quote query dialect body s = (Raise e, s').
Proof.
  intros Hbody. unfold with_normalize_and_quote, with_contextmanager. cbn.
  now rewrite Hbody.
Qed.

Lemma normalize_and_quote_eq {S} (expression : Expression) (dialect : string) (s : S) :
  normalize_and_quote expression dialect s
  = (Ok (quote_identifiers
           (normalize_identifiers (qualify_tables expression) dialect) dialect), s).
Proof. reflexivity. Qed.

(** *** Failures of the template stage *)

(** Steps of a computation. *)
Lemma bind_ok {S A B} (m : M S A) (f : A -> M S B) s a s' :
  m s = (Ok a, s') -> (m ≫= f) s = f a s'.
Proof. intros Hm. unfold mbind, M_bind. now rewrite Hm. Qed.

Lemma bind_raise {S A B} (m : M S A) (f : A -> M S B) s e s' :
  m s = (Raise e, s') -> (m ≫= f) s = (Raise e, s').
Proof. intros Hm. unfold mbind, M_bind. now rewrite Hm. Qed.

Lemma fmap_ok {S A B} (m : M S A) (f : A -> B) s a s' :
  m s = (Ok a, s') -> (f <$> m) s = (Ok (f a), s').
Proof. intros Hm. unfold fmap, M_fmap. now rewrite Hm. Qed.

Lemma fmap_raise {S A B} (m : M S A) (f : A -> B) s e s' :
  m s = (Raise e, s') -> (f <$> m) s = (Raise e, s').
Proof. intros Hm. unfold fmap, M_fmap. now rewrite Hm. Qed.

Lemma try_except_ok {S A} (m : M S A) clauses s a s' :
  m s = (Ok a, s') -> try_except m clauses s = (Ok a, s').
Proof. intros Hm. unfold try_except. now rewrite Hm. Qed.

Lemma try_except_raise {S A} (m : M S A) clauses s e s' :
  m s = (Raise e, s') -> try_except m clauses s = handle clauses e s'.
Proof. intros Hm. unfold try_except. now rewrite Hm. Qed.

Lemma render_jinja_failure (self : BaseExpressionRenderer) key env e st :
  template_failure self env e ->
  render_jinja self key env st = (Raise e, st).
Proof.
  unfold render_jinja.
  intros [Hr | (rendered & Hr & Hblank & [Hp | (parsed & Hp & Hnone & ->)])].
  - now apply bind_raise; unfold call; rewrite Hr.
  - erewrite bind_ok by (unfold call; now rewrite Hr). rewrite Hblank.
    now apply bind_raise; unfold call; rewrite Hp.
  - erewrite bind_ok by (unfold call; now rewrite Hr). rewrite Hblank.
    erewrite bind_ok by (unfold call; now rewrite Hp). now rewrite Hnone.
Qed.

Lemma _render_template_failure (self : BaseExpressionRenderer)
    start end_ latest snapshots is_dev kwargs st e :
  node_kind (_expression self) = KJinja ->
  _cache st !! _dates start end_ latest = None ->
  template_failure self (jinja_env_of self start end_ latest snapshots is_dev kwargs) e ->
  _render self start end_ latest snapshots is_dev kwargs st
  = (Raise (if is_ParsetimeAdapterCallError e then e
            else ConfigError ("Invalid expression. " +:+ exn_str e
                              +:+ " at '" +:+ _path self +:+ "'")), st).
Proof.
  intros Hkind Hcache Hfail. unfold _render.
  erewrite bind_ok by (unfold gets; now rewrite Hcache).
  apply bind_raise. rewrite decide_True by exact Hkind.
  erewrite try_except_raise by (apply render_jinja_failure, Hfail).
  cbn. destruct (is_ParsetimeAdapterCallError e); reflexivity.
Qed.

(** The optimized cache does not answer a call that skips it, that does
    not optimize, or whose key it does not hold. *)
Lemma optimized_cache_miss (args : RenderArgs) (optimize : bool) (st : State) :
  let key := _dates (args_start args) (args_end args) (args_latest args) in
  let skip_cache :=
    negb (bool_decide (default ∅ (args_snapshots args) = ∅))
    || negb (bool_decide (args_expand args = ∅)) in
  (default ∅ (args_snapshots args) = ∅ -> args_expand args = ∅ ->
   optimize = true -> _optimized_cache st !! key = None) ->
  (if skip_cache || negb optimize then mret None
   else gets (fun st => _optimized_cache st !! key)) st = (Ok None, st).
Proof.
  intros key skip_cache Hopt.
  destruct (skip_cache || negb optimize) eqn:Hs; [reflexivity|].
  apply orb_false_elim in Hs as [Hs Ho].
  apply orb_false_elim in Hs as [Hs He].
  apply negb_false_iff, bool_decide_eq_true in Hs, He.
  apply negb_false_iff in Ho.
  unfold gets. now rewrite Hopt.
Qed.

(** C7. When rendering the template raises a [ParsetimeAdapterCallError],
    [_render] raises that very exception, not a [ConfigError], and
    [QueryRenderer.render] returns [None] instead of raising.  Any other
    exception raised while rendering the template or parsing what it
    rendered to leaves [_render] as a [ConfigError] whose message ends with
    the path of the model, and [QueryRenderer.render] raises that
    [ConfigError]: it is not swallowed. *)
Theorem parsetime_adapter_call_skips_rendering (self : QueryRenderer)
    (args : RenderArgs) (add_incremental_filter optimize : bool) (st : State)
    (e : exn) :
  let env := jinja_env_of (base self) (args_start args) (args_end args)
               (args_latest args) (args_snapshots args) (args_is_dev args)
               (args_kwargs args) in
  let run_render := _render (base self) (args_start args) (args_end args)
               (args_latest args) (args_snapshots args) (args_is_dev args)
               (args_kwargs args) st in
  reaches_template self args optimize st ->
  template_failure (base self) env e ->
  (is_ParsetimeAdapterCallError e = true ->
     run_render = (Raise e, st)
     /\ render self args add_incremental_filter optimize st = (Ok None, st))
  /\ (is_ParsetimeAdapterCallError e = false ->
        run_render
        = (Raise (ConfigError ("Invalid expression. " +:+ exn_str e +:+ " at '"
                               +:+ _path (base self) +:+ "'")), st)
        /\ render self args add_incremental_filter optimize st
           = (Raise (ConfigError ("Invalid expression. " +:+ exn_str e +:+ " at '"
                                  +:+ _path (base self) +:+ "'")), st)).
Proof.
  intros env run_render (Hkind & Hcache & Hopt) Hfail.
  pose proof (_render_template_failure (base self) _ _ _ _ _ _ st e
                Hkind Hcache Hfail) as Hrender.
  split; intros He; rewrite He in Hrender; (split; [exact Hrender|]).
  - unfold render.
    rewrite (bind_ok _ _ st None st); [reflexivity|].
    unfold render_resolved.
    rewrite (bind_ok _ _ _ _ _ (optimized_cache_miss args optimize st Hopt)).
    rewrite (bind_ok _ _ st None st); [reflexivity|].
    rewrite (bind_ok _ _ st None st); [reflexivity|].
    erewrite try_except_raise by (apply fmap_raise, Hrender).
    cbn. now rewrite He.
  - unfold render. apply bind_raise.
    unfold render_resolved.
    rewrite (bind_ok _ _ _ _ _ (optimized_cache_miss args optimize st Hopt)).
    apply bind_raise. apply bind_raise.
    erewrite try_except_raise by (apply fmap_raise, Hrender).
    reflexivity.
Qed.

(** *** The incremental filter *)



(** *** Optimization and its fallback *)




Lemma aliased_fallback_eq {S} (self : QueryRenderer) (original : Expression) (s : S) :
  aliased_fallback self original s = (Ok (fallback_of self original), s).
Proof. reflexivity. Qed.


Lemma no_missing_dependency (self : QueryRenderer) (query : Expression) :
  (forall dependency,
     dependency ∈ dependencies_of self query -> is_Some (schema self !! dependency)) ->
  head (filter (fun dependency => schema self !! dependency = None)
          (elements (dependencies_of self query))) = None
  /\ negb (bool_decide (schema self = ∅))
     || bool_decide (dependencies_of self query = ∅) = true.
Proof.
  intros Hall. split.
  - apply head_None.
    destruct (filter _ (elements (dependencies_of self query))) as [|d0 rest] eqn:Hf;
      [reflexivity|].
    assert (Hd0 : d0 ∈ filter (fun dependency => schema self !! dependency = None)
                      (elements (dependencies_of self query))).
    { rewrite Hf. now left. }
    apply list_elem_of_filter in Hd0 as [Hn Hel].
    apply elem_of_elements, Hall in Hel. rewrite Hn in Hel. now destruct Hel.
  - destruct (decide (dependencies_of self query = ∅)) as [Hempty|Hne].
    + rewrite (bool_decide_eq_true_2 _ Hempty). apply orb_true_r.
    + apply set_choose_L in Hne as [d Hd]. apply Hall in Hd as [cols Hcols].
      rewrite bool_decide_eq_false_2; [reflexivity|].
      intros Hs. rewrite Hs in Hcols. now rewrite lookup_empty in Hcols.
Qed.


(** *** Table resolution, reference by reference *)

Lemma transform_pure_unfold g e :
  transform_pure g e
  = match g e with
    | Some new => new
    | None => Node (node_kind e) (node_name e) (node_alias e)
                (transform_pure_children g (node_args e))
    end.
Proof.
  destruct e as [k n a args]. cbn. destruct (g (Node k n a args)); [reflexivity|].
  f_equal. induction args as [|[key child] args IH]; [reflexivity|].
  cbn. now rewrite IH.
Qed.

Lemma transform_unfold {S} (f : Expression -> M S (option Expression)) e s :
  transform f e s
  = (r ← f e;
     match r with
     | Some new => mret new
     | None =>
       args' ← transform_children f (node_args e);
       mret (Node (node_kind e) (node_name e) (node_alias e) args')
     end) s.
Proof.
  destruct e as [k n a args]. cbn [transform node_kind node_name node_alias node_args].
  assert (Hchildren : forall l s0,
    (fix children (l : list (string * Expression))
       : M S (list (string * Expression)) :=
       match l with
       | [] => mret []
       | (key, child) :: rest =>
         child' ← transform f child;
         rest' ← children rest;
         mret ((key, child') :: rest')
       end) l s0 = transform_children f l s0).
  { induction l as [|[key child] l IH]; intros s0; [reflexivity|].
    cbn [transform_children]. unfold mbind, M_bind in *.
    destruct (transform f child s0) as [[child'|ex] s2]; [|reflexivity].
    now rewrite IH. }
  unfold mbind, M_bind in *.
  destruct (f (Node k n a args) s) as [[[new|]|ex] s1]; try reflexivity.
  now rewrite Hchildren.
Qed.

Lemma transform_root_fst {S} (f : Expression -> M S (option Expression)) e s :
  (fst <$> transform_root f e) s = transform f e s.
Proof.
  rewrite transform_unfold. unfold transform_root, fmap, M_fmap.
  unfold mbind at 1 3. unfold M_bind at 1 3.
  destruct (f e s) as [[[new|]|ex] s1]; try reflexivity.
  unfold mbind, M_bind.
  destruct (transform_children f (node_args e) s1) as [[args'|ex] s2]; reflexivity.
Qed.

(** A node function without effect gives a traversal without effect. *)
Lemma transform_mret {S} (g : Expression -> option Expression) e (s : S) :
  transform (fun node => mret (g node)) e s = (Ok (transform_pure g e), s).
Proof.
  revert s. induction e as [k n a args IH] using Expression_induction. intros s.
  rewrite transform_unfold, transform_pure_unfold.
  unfold mbind at 1. unfold M_bind at 1. cbn [mret M_ret].
  destruct (g (Node k n a args)); [reflexivity|].
  cbn [node_args node_kind node_name node_alias].
  assert (Hchildren : transform_children (fun node => mret (g node)) args s
                      = (Ok (transform_pure_children g args), s)).
  { clear -IH. revert s. induction args as [|[key child] args IHargs]; intros s;
      [reflexivity|].
    apply Forall_cons in IH as [Hchild IH]. cbn [transform_children].
    rewrite (bind_ok _ _ _ _ _ (Hchild s)).
    rewrite (bind_ok _ _ _ _ _ (IHargs IH s)). reflexivity. }
  now rewrite (bind_ok _ _ _ _ _ Hchildren).
Qed.

Lemma transform_pure_none (g : Expression -> option Expression) e :
  (forall node, g node = None) -> transform_pure g e = e.
Proof.
  intros Hnone. induction e as [k n a args IH] using Expression_induction.
  rewrite transform_pure_unfold, Hnone. cbn. f_equal.
  induction args as [|[key child] args IHargs]; [reflexivity|].
  apply Forall_cons in IH as [Hchild IH]. cbn in *. now rewrite Hchild, IHargs.
Qed.

Lemma transform_keep {S} (f : Expression -> M S (option Expression)) e s :
  (forall node s0, f node s0 = (Ok None, s0)) -> transform f e s = (Ok e, s).
Proof.
  intros Hkeep. revert s.
  induction e as [k n a args IH] using Expression_induction. intros s.
  rewrite transform_unfold. rewrite (bind_ok _ _ _ _ _ (Hkeep _ s)).
  cbn [node_args node_kind node_name node_alias].
  assert (Hchildren : transform_children f args s = (Ok args, s)).
  { clear -IH. revert s. induction args as [|[key child] args IHargs]; intros s;
      [reflexivity|].
    apply Forall_cons in IH as [Hchild IH]. cbn [transform_children].
    rewrite (bind_ok _ _ _ _ _ (Hchild s)).
    rewrite (bind_ok _ _ _ _ _ (IHargs IH s)). reflexivity. }
  now rewrite (bind_ok _ _ _ _ _ Hchildren).
Qed.

Section Resolution.

Variable snapshots : option (gmap string Snapshot).
Variable expand : gset string.
Variable is_dev : bool.
Variable render_kwargs : RenderArgs.

Let f := _expand (default ∅ snapshots) (expanded_names snapshots expand is_dev)
           is_dev render_kwargs.
Let g := _replace_tables (mapping_of snapshots is_dev).

(** [_expand] only looks at tables. *)
Lemma _expand_not_table node l : node_kind node <> KTable -> f node l = (Ok None, l).
Proof.
  intros Hk. unfold f, _expand. now rewrite bool_decide_eq_false_2 by exact Hk.
Qed.

Lemma _replace_tables_not_table node : node_kind node <> KTable -> g node = None.
Proof.
  intros Hk. unfold g, _replace_tables. now rewrite bool_decide_eq_false_2 by exact Hk.
Qed.

Lemma _expand_nothing_to_expand node l :
  expanded_names snapshots expand is_dev = ∅ -> f node l = (Ok None, l).
Proof.
  intros Hempty. unfold f, _expand. rewrite Hempty.
  destruct (bool_decide (node_kind node = KTable) && _); [|reflexivity].
  destruct (snapshot_model <$> _) as [model|]; [|reflexivity].
  rewrite bool_decide_eq_false_2 by apply not_elem_of_empty. reflexivity.
Qed.

Lemma _replace_tables_empty node : mapping_of snapshots is_dev = ∅ -> g node = None.
Proof.
  intros Hempty. unfold g, _replace_tables. rewrite Hempty, lookup_empty.
  now destruct (bool_decide _).
Qed.

(** [_expand] on a reference: the three outcomes. *)
Lemma _expand_inlined name alias model query l :
  inlinable snapshots expand is_dev name = Some model ->
  render_query model (nested_args snapshots expand is_dev render_kwargs)
  = Ok (Some query) ->
  f (table name alias) l
  = (Ok (Some (subquery query
                 (if String.eqb alias "" then view_name model else alias))), l).
Proof.
  unfold inlinable. intros Hin Hq. unfold f, _expand. cbn [node_kind node_name table].
  rewrite bool_decide_eq_true_2 by reflexivity.
  destruct (snapshot_model <$> default ∅ snapshots !! name) as [model'|] eqn:Hm;
    [|discriminate].
  assert (Hne : default ∅ snapshots <> ∅).
  { intros Hempty. rewrite Hempty, lookup_empty in Hm. discriminate. }
  rewrite (bool_decide_eq_false_2 _ Hne). cbn [negb andb].
  destruct (bool_decide _ && _ && _); [|discriminate]. injection Hin as ->.
  unfold nested_args in Hq.
  erewrite bind_ok by (unfold call; now rewrite Hq). reflexivity.
Qed.

Lemma _expand_failed name alias model l :
  inlinable snapshots expand is_dev name = Some model ->
  render_query model (nested_args snapshots expand is_dev render_kwargs) = Ok None ->
  f (table name alias) l
  = (Ok None,
     l ++ [Warning ("Failed to expand the nested model '" +:+ name +:+ "'")]).
Proof.
  unfold inlinable. intros Hin Hq. unfold f, _expand. cbn [node_kind node_name table].
  rewrite bool_decide_eq_true_2 by reflexivity.
  destruct (snapshot_model <$> default ∅ snapshots !! name) as [model'|] eqn:Hm;
    [|discriminate].
  assert (Hne : default ∅ snapshots <> ∅).
  { intros Hempty. rewrite Hempty, lookup_empty in Hm. discriminate. }
  rewrite (bool_decide_eq_false_2 _ Hne). cbn [negb andb].
  destruct (bool_decide _ && _ && _); [|discriminate]. injection Hin as ->.
  unfold nested_args in Hq.
  erewrite bind_ok by (unfold call; now rewrite Hq). reflexivity.
Qed.

Lemma _expand_kept name alias l :
  inlinable snapshots expand is_dev name = None ->
  f (table name alias) l = (Ok None, l).
Proof.
  unfold inlinable. intros Hin. unfold f, _expand. cbn [node_kind node_name table].
  destruct (bool_decide (KTable = KTable) && _); [|reflexivity].
  destruct (snapshot_model <$> default ∅ snapshots !! name) as [model'|];
    [|reflexivity].
  now destruct (bool_decide _ && _ && _).
Qed.

(** The module function as two traversals, the second without effect. *)
Lemma _resolve_tables_traversals e l :
  (fst <$> _resolve_tables e snapshots expand is_dev render_kwargs) l
  = (transform_pure g <$> transform f e) l.
Proof.
  unfold _resolve_tables. fold (mapping_of snapshots is_dev).
  fold (expanded_names snapshots expand is_dev). fold f.
  assert (Hexpanded :
    (fst <$> (if bool_decide (expanded_names snapshots expand is_dev = ∅)
              then mret (e, true) else transform_root f e)) l = transform f e l).
  { case_bool_decide as Hempty.
    - rewrite transform_keep; [reflexivity|].
      intros node s0. now apply _expand_nothing_to_expand.
    - apply transform_root_fst. }
  unfold fmap, M_fmap in *. unfold mbind, M_bind.
  destruct ((if bool_decide (expanded_names snapshots expand is_dev = ∅)
             then mret (e, true) else transform_root f e) l)
    as [[[e1 kept]|ex] l1]; rewrite <- Hexpanded; [|reflexivity].
  cbn [fst]. case_bool_decide as Hmapping.
  - cbn. rewrite transform_pure_none; [reflexivity|].
    intros node. now apply _replace_tables_empty.
  - pose proof (transform_root_fst (fun node => mret (g node)) e1 l1) as Hroot.
    rewrite transform_mret in Hroot. unfold fmap, M_fmap in Hroot.
    fold g.
    destruct (transform_root (fun node => mret (g node)) e1 l1)
      as [[[e2 kept2]|ex] l2]; cbn in *; congruence.
Qed.

Lemma resolve_children_traversals args l :
  resolve_children args snapshots expand is_dev render_kwargs l
  = (transform_pure_children g <$> transform_children f args) l.
Proof.
  revert l. induction args as [|[key child] args IH]; intros l; [reflexivity|].
  cbn [resolve_children transform_children].
  pose proof (_resolve_tables_traversals child l) as Hchild.
  unfold fmap, M_fmap, mbind, M_bind in *. rewrite Hchild.
  destruct (transform f child l) as [[child'|ex] l1]; [|reflexivity].
  rewrite IH. destruct (transform_children f args l1) as [[args'|ex] l2]; reflexivity.
Qed.

End Resolution.

Lemma transform_children_mret {S} (g : Expression -> option Expression) args (s : S) :
  transform_children (fun node => mret (g node)) args s
  = (Ok (transform_pure_children g args), s).
Proof.
  revert s. induction args as [|[key child] args IH]; intros s; [reflexivity|].
  cbn [transform_children].
  rewrite (bind_ok _ _ _ _ _ (transform_mret g child s)).
  rewrite (bind_ok _ _ _ _ _ (IH s)). reflexivity.
Qed.

Lemma transform_root_mret {S} (g : Expression -> option Expression) e (s : S) :
  transform_root (fun node => mret (g node)) e s
  = (Ok (transform_pure g e, match g e with Some _ => false | None => true end), s).
Proof.
  unfold transform_root. rewrite transform_pure_unfold.
  unfold mbind at 1. unfold M_bind at 1. cbn [mret M_ret].
  destruct (g e); [reflexivity|].
  now rewrite (bind_ok _ _ _ _ _ (transform_children_mret g (node_args e) s)).
Qed.

Lemma elem_of_expanded_names snapshots expand is_dev name :
  name ∈ expanded_names snapshots expand is_dev
  <-> name ∈ expand
      \/ (is_Some (default ∅ snapshots !! name)
          /\ mapping_of snapshots is_dev !! name = None).
Proof.
  unfold expanded_names, expand_set. rewrite elem_of_union, elem_of_dom.
  apply or_iff_compat_l. split.
  - intros [snapshot Hs]. apply map_lookup_filter_Some in Hs as [Hs Hm].
    split; [now exists snapshot | exact Hm].
  - intros [[snapshot Hs] Hm]. exists snapshot.
    apply map_lookup_filter_Some. now split.
Qed.

(** C5 (as amended). Table resolution is applied to the optimized query.
    In it, a table reference is replaced by the rendered query of its model
    as a subquery, under the alias of the reference or else the view name
    of the model, when its name is in [expand] or is in [snapshots] without
    a physical table, [snapshots] holds a model for it that is neither a
    seed nor external, and the nested rendering returns a query; the
    physical names of the mapping are then put inside that subquery as
    well.  Any other reference takes its physical table name when the
    mapping has one and stays as it is otherwise, a nested rendering that
    returns nothing being logged.  Resolution reaches the references at
    every depth: a node that is not a table has its children resolved in
    order.  A call with neither snapshots nor expand returns the
    expression as it is. *)
Theorem table_resolution (snapshots : option (gmap string Snapshot))
    (expand : gset string) (is_dev : bool) (render_kwargs : RenderArgs)
    (l : list log_record) :
  let mapping := mapping_of snapshots is_dev in
  let resolve e := fst <$> _resolve_tables e snapshots expand is_dev render_kwargs in
  let physical_table name alias :=
    match mapping !! name with
    | Some new_name => if String.eqb new_name "" then table name alias
                       else table new_name alias
    | None => table name alias
    end in
  (forall name,
     name ∈ expanded_names snapshots expand is_dev
     <-> name ∈ expand
         \/ (is_Some (default ∅ snapshots !! name) /\ mapping !! name = None))
  /\ (forall name alias model query,
        inlinable snapshots expand is_dev name = Some model ->
        render_query model (nested_args snapshots expand is_dev render_kwargs)
        = Ok (Some query) ->
        resolve (table name alias) l
        = (Ok (transform_pure (_replace_tables mapping)
                 (subquery query
                    (if String.eqb alias "" then view_name model else alias))), l))
  /\ (forall name alias,
        inlinable snapshots expand is_dev name = None ->
        resolve (table name alias) l = (Ok (physical_table name alias), l))
  /\ (forall name alias model,
        inlinable snapshots expand is_dev name = Some model ->
        render_query model (nested_args snapshots expand is_dev render_kwargs)
        = Ok None ->
        resolve (table name alias) l
        = (Ok (physical_table name alias),
           l ++ [Warning ("Failed to expand the nested model '" +:+ name +:+ "'")]))
  /\ (forall k n a args,
        k <> KTable ->
        resolve (Node k n a args) l
        = (Node k n a
           <$> resolve_children args snapshots expand is_dev render_kwargs) l)
  /\ (forall self e args st,
        default ∅ (args_snapshots args) = ∅ -> args_expand args = ∅ ->
        resolve_tables self e args st = (Ok e, st))
  /\ (forall self args st st1 st2 query optimized,
        let key := _dates (args_start args) (args_end args) (args_latest args) in
        let skip_cache :=
          negb (bool_decide (default ∅ (args_snapshots args) = ∅))
          || negb (bool_decide (args_expand args = ∅)) in
        (skip_cache = false -> _optimized_cache st !! key = None) ->
        _render (base self) (args_start args) (args_end args) (args_latest args)
          (args_snapshots args) (args_is_dev args) (args_kwargs args) st
        = (Ok [query], st1) ->
        _optimize_query self query st1 = (Ok optimized, st2) ->
        render_resolved self args true st
        = (Some <$> resolve_tables (base self) optimized args)
            (if skip_cache then st2
             else set_optimized_cache <[key := optimized]> st2)).
Proof.
  intros mapping resolve physical_table.
  assert (Hphysical : forall name alias,
    transform_pure (_replace_tables mapping) (table name alias)
    = physical_table name alias).
  { intros name alias. rewrite transform_pure_unfold. unfold _replace_tables.
    cbn [node_kind node_name node_alias node_args table].
    rewrite bool_decide_eq_true_2 by reflexivity. subst physical_table. cbn beta.
    destruct (mapping !! name) as [new_name|]; [|reflexivity].
    now destruct (String.eqb new_name ""). }
  split; [intros name; apply elem_of_expanded_names|].
  split; [|split; [|split; [|split; [|split]]]].
  - intros name alias model query Hin Hq. subst resolve. cbn beta.
    rewrite _resolve_tables_traversals. unfold fmap, M_fmap.
    rewrite transform_unfold.
    rewrite (bind_ok _ _ _ _ _ (_expand_inlined _ _ _ _ _ alias _ _ l Hin Hq)).
    reflexivity.
  - intros name alias Hin. subst resolve. cbn beta.
    rewrite _resolve_tables_traversals. unfold fmap, M_fmap.
    rewrite transform_unfold.
    rewrite (bind_ok _ _ _ _ _ (_expand_kept _ _ _ _ _ alias l Hin)).
    cbn. fold mapping. now rewrite <- Hphysical.
  - intros name alias model Hin Hq. subst resolve. cbn beta.
    rewrite _resolve_tables_traversals. unfold fmap, M_fmap.
    rewrite transform_unfold.
    rewrite (bind_ok _ _ _ _ _ (_expand_failed _ _ _ _ _ alias _ l Hin Hq)).
    cbn. fold mapping. now rewrite <- Hphysical.
  - intros k n a args Hk. subst resolve. cbn beta.
    rewrite _resolve_tables_traversals.
    pose proof (resolve_children_traversals snapshots expand is_dev render_kwargs
                  args l) as Hchildren.
    unfold fmap, M_fmap in *. rewrite Hchildren. rewrite transform_unfold.
    rewrite (bind_ok _ _ _ _ _
               (_expand_not_table snapshots expand is_dev render_kwargs
                  (Node k n a args) l Hk)).
    cbn [node_args node_kind node_name node_alias].
    unfold mbind, M_bind.
    destruct (transform_children _ args l) as [[args'|ex] l1]; [|reflexivity].
    cbn [mret M_ret]. rewrite transform_pure_unfold.
    rewrite _replace_tables_not_table by exact Hk. reflexivity.
  - intros self e args st Hs He. unfold resolve_tables.
    now rewrite !bool_decide_eq_true_2 by assumption.
  - intros self args st st1 st2 query optimized key skip_cache Hmiss Hrender Hopt.
    unfold render_resolved. fold key. fold skip_cache. cbn [negb orb].
    rewrite orb_false_r.
    assert (Hcached :
      (if skip_cache then mret None
       else gets (fun st => _optimized_cache st !! key)) st = (Ok None, st)).
    { destruct skip_cache; [reflexivity|]. unfold gets. now rewrite Hmiss. }
    rewrite (bind_ok _ _ _ _ _ Hcached).
    rewrite (bind_ok _ _ st (Some optimized)
               (if skip_cache then st2
                else set_optimized_cache <[key := optimized]> st2));
      [reflexivity|].
    rewrite (bind_ok _ _ st (Some [query]) st1).
    + rewrite (bind_ok _ _ _ _ _ Hopt). now destruct skip_cache.
    + apply try_except_ok. now apply fmap_ok.
Qed.

(** *** The caches *)

Lemma ignores_ret {A} (a : A) : ignores_optimized_cache (mret a).
Proof. intros c st. reflexivity. Qed.

Lemma ignores_raise {A} e : ignores_optimized_cache (raise (A := A) e).
Proof. intros c st. reflexivity. Qed.

Lemma ignores_call {A} (r : result A) : ignores_optimized_cache (call r).
Proof. intros c st. reflexivity. Qed.

Lemma ignores_bind {A B} (m : M State A) (k : A -> M State B) :
  ignores_optimized_cache m -> (forall a, ignores_optimized_cache (k a)) ->
  ignores_optimized_cache (m ≫= k).
Proof.
  intros Hm Hk c st. unfold mbind, M_bind. rewrite Hm.
  destruct (m st) as [[a|e] st1]; cbn [fst snd]; [apply Hk | reflexivity].
Qed.

Lemma ignores_fmap {A B} (f : A -> B) (m : M State A) :
  ignores_optimized_cache m -> ignores_optimized_cache (f <$> m).
Proof.
  intros Hm c st. unfold fmap, M_fmap. rewrite Hm.
  destruct (m st) as [[a|e] st1]; reflexivity.
Qed.

Lemma ignores_handle {A} (clauses : list ((exn -> bool) * (exn -> M State A))) e :
  Forall (fun clause => forall e, ignores_optimized_cache (clause.2 e)) clauses ->
  ignores_optimized_cache (handle clauses e).
Proof.
  induction 1 as [|[handles handler] clauses Hhead _ IH]; cbn [handle].
  - apply ignores_raise.
  - destruct (handles e); [apply Hhead | exact IH].
Qed.

Lemma ignores_try_except {A} (m : M State A) clauses :
  ignores_optimized_cache m ->
  Forall (fun clause => forall e, ignores_optimized_cache (clause.2 e)) clauses ->
  ignores_optimized_cache (try_except m clauses).
Proof.
  intros Hm Hclauses c st. unfold try_except. rewrite Hm.
  destruct (m st) as [[a|e] st1]; cbn [fst snd]; [reflexivity|].
  now apply ignores_handle.
Qed.

Lemma ignores_for_each {A B} (step : B -> A -> M State B) l acc :
  (forall acc x, ignores_optimized_cache (step acc x)) ->
  ignores_optimized_cache (for_each step l acc).
Proof.
  intros Hstep. revert acc. induction l as [|x l IH]; intros acc; cbn [for_each].
  - apply ignores_ret.
  - apply ignores_bind; [apply Hstep | exact IH].
Qed.

Lemma ignores_logging {A} (m : M (list log_record) A) :
  ignores_optimized_cache (logging m).
Proof.
  intros c st. unfold logging, zoom. cbn. now destruct (m (log st)).
Qed.

Lemma ignores_gets_cache {A} (f : gmap Dates (list Expression) -> A) :
  ignores_optimized_cache (gets (fun st => f (_cache st))).
Proof. intros c st. reflexivity. Qed.

Lemma ignores_set_cache f : ignores_optimized_cache (modify (set_cache f)).
Proof. intros c st. reflexivity. Qed.

Lemma ignores_pure {A} (m : M State A) a :
  (forall st, m st = (Ok a, st)) -> ignores_optimized_cache m.
Proof. intros Hm c st. now rewrite !Hm. Qed.

(** Closing a goal of the form [ignores_optimized_cache m] by the structure
    of [m]. *)
Ltac ignores :=
  repeat first
    [ apply ignores_ret
    | apply ignores_raise
    | apply ignores_call
    | apply ignores_logging
    | apply ignores_set_cache
    | apply (ignores_gets_cache (fun cache => cache !! _))
    | apply ignores_fmap
    | apply ignores_for_each; intros ? ?
    | apply ignores_try_except; [|repeat constructor; intros ?]
    | apply ignores_bind; [|intros ?]
    | match goal with
      | |- ignores_optimized_cache (match ?x with _ => _ end) => destruct x
      end ].

Lemma ignores_normalize_and_quote expression dialect :
  ignores_optimized_cache (normalize_and_quote expression dialect).
Proof. eapply ignores_pure. intros st. apply normalize_and_quote_eq. Qed.

Lemma ignores_aliased_fallback self original :
  ignores_optimized_cache (aliased_fallback self original).
Proof. eapply ignores_pure. intros st. apply aliased_fallback_eq. Qed.

Lemma ignores_render_jinja self key env :
  ignores_optimized_cache (render_jinja self key env).
Proof. unfold render_jinja. ignores. Qed.

Lemma ignores__render self start end_ latest snapshots is_dev kwargs :
  ignores_optimized_cache (_render self start end_ latest snapshots is_dev kwargs).
Proof.
  unfold _render. unfold raise_config_error.
  pose proof ignores_render_jinja. pose proof ignores_normalize_and_quote.
  ignores; auto.
Qed.

Lemma ignores__optimize_query self query :
  ignores_optimized_cache (_optimize_query self query).
Proof.
  unfold _optimize_query. pose proof ignores_aliased_fallback. ignores; auto.
Qed.

Lemma ignores_resolve_tables self expression args :
  ignores_optimized_cache (resolve_tables self expression args).
Proof. unfold resolve_tables. ignores. Qed.

(** X1. A call of [render] with snapshots or with names to expand neither
    reads nor writes the optimized cache: whatever that cache holds, the
    call returns the same, leaves the same resolved-expression cache and
    log, and leaves the optimized cache as it found it. *)
Theorem render_with_snapshots_skips_optimized_cache (self : QueryRenderer)
    (args : RenderArgs) (add_incremental_filter optimize : bool) :
  default ∅ (args_snapshots args) <> ∅ \/ args_expand args <> ∅ ->
  ignores_optimized_cache (render self args add_incremental_filter optimize)
  /\ forall st,
       _optimized_cache (render self args add_incremental_filter optimize st).2
       = _optimized_cache st.
Proof.
  intros Hskip.
  assert (Hskip' : negb (bool_decide (default ∅ (args_snapshots args) = ∅))
                   || negb (bool_decide (args_expand args = ∅)) = true).
  { destruct Hskip as [Hs | He].
    - now rewrite (bool_decide_eq_false_2 _ Hs).
    - rewrite (bool_decide_eq_false_2 _ He). apply orb_true_r. }
  assert (Hignores :
    ignores_optimized_cache (render self args add_incremental_filter optimize)).
  { unfold render, render_resolved, raise_config_error. rewrite Hskip'.
    cbn [orb].
    pose proof ignores__render. pose proof ignores__optimize_query.
    pose proof ignores_resolve_tables.
    ignores; auto. }
  split; [exact Hignores|].
  intros st. specialize (Hignores (_optimized_cache st) st).
  replace (with_optimized_cache (_optimized_cache st) st) with st in Hignores
    by now destruct st.
  apply (f_equal snd) in Hignores. cbn [snd] in Hignores.
  rewrite Hignores at 1. reflexivity.
Qed.

(** The resolved-expression cache is consulted by every call that reaches
    [_render], with or without snapshots: an entry under the key of the
    call is returned as it is. *)
Lemma _render_cached self start end_ latest snapshots is_dev kwargs st cached :
  _cache st !! _dates start end_ latest = Some cached ->
  _render self start end_ latest snapshots is_dev kwargs st = (Ok cached, st).
Proof.
  intros Hcached. unfold _render.
  erewrite bind_ok by (unfold gets; now rewrite Hcached). reflexivity.
Qed.

(** *** What a call leaves in the caches *)

Lemma bind_unfold {S A B} (m : M S A) (f : A -> M S B) s :
  (m ≫= f) s
  = match m s with
    | (Ok a, s') => f a s'
    | (Raise e, s') => (Raise e, s')
    end.
Proof. reflexivity. Qed.

Lemma keeps_ret {S A} (a : A) : keeps_state (S := S) (mret a).
Proof. intros s. reflexivity. Qed.

Lemma keeps_raise {S A} e : keeps_state (S := S) (raise (A := A) e).
Proof. intros s. reflexivity. Qed.

Lemma keeps_call {S A} (r : result A) : keeps_state (S := S) (call r).
Proof. intros s. reflexivity. Qed.

Lemma keeps_gets {S A} (f : S -> A) : keeps_state (gets f).
Proof. intros s. reflexivity. Qed.

Lemma keeps_bind {S A B} (m : M S A) (k : A -> M S B) :
  keeps_state m -> (forall a, keeps_state (k a)) -> keeps_state (m ≫= k).
Proof.
  intros Hm Hk s. rewrite bind_unfold. specialize (Hm s).
  destruct (m s) as [[a|e] s1]; cbn in Hm; subst s1; [apply Hk | reflexivity].
Qed.

Lemma keeps_handle {S A} (clauses : list ((exn -> bool) * (exn -> M S A))) e :
  Forall (fun clause => forall e, keeps_state (clause.2 e)) clauses ->
  keeps_state (handle clauses e).
Proof.
  induction 1 as [|[handles handler] clauses Hhead _ IH]; cbn [handle].
  - apply keeps_raise.
  - destruct (handles e); [apply Hhead | exact IH].
Qed.

Lemma keeps_try_except {S A} (m : M S A) clauses :
  keeps_state m ->
  Forall (fun clause => forall e, keeps_state (clause.2 e)) clauses ->
  keeps_state (try_except m clauses).
Proof.
  intros Hm Hclauses s. unfold try_except. specialize (Hm s).
  destruct (m s) as [[a|e] s1]; cbn in Hm; subst s1; [reflexivity|].
  now apply keeps_handle.
Qed.

Lemma keeps_for_each {S A B} (step : B -> A -> M S B) l acc :
  (forall acc x, keeps_state (step acc x)) -> keeps_state (for_each step l acc).
Proof.
  intros Hstep. revert acc. induction l as [|x l IH]; intros acc; cbn [for_each].
  - apply keeps_ret.
  - apply keeps_bind; [apply Hstep | exact IH].
Qed.

Lemma keeps_normalize_and_quote {S} expression dialect :
  keeps_state (S := S) (normalize_and_quote expression dialect).
Proof. intros s. now rewrite normalize_and_quote_eq. Qed.

(** Closing a goal of the form [keeps_state m] by the structure of [m]. *)
Ltac keeps :=
  repeat first
    [ apply keeps_ret
    | apply keeps_raise
    | apply keeps_call
    | apply keeps_gets
    | apply keeps_normalize_and_quote
    | apply keeps_for_each; intros ? ?
    | apply keeps_try_except; [|repeat constructor; intros ?]
    | apply keeps_bind; [|intros ?]
    | match goal with
      | |- keeps_state (match ?x with _ => _ end) => destruct x
      end ].

(** A computation that keeps the state, run. *)
Lemma keeps_state_run {S A} (m : M S A) s :
  keeps_state m -> m s = ((m s).1, s).
Proof. intros Hm. specialize (Hm s). destruct (m s) as [r s1]. cbn in *. now subst. Qed.

(** The template stage either raises, or caches and returns the empty
    rendering, or returns what it parsed. *)
Lemma render_jinja_effect (self : BaseExpressionRenderer) key env st :
  (exists e, render_jinja self key env st = (Raise e, st))
  \/ render_jinja self key env st = (Ok (inl []), set_cache <[key := []]> st)
  \/ (exists parsed, render_jinja self key env st = (Ok (inr parsed), st)).
Proof.
  remember (render_jinja self key env st) as run eqn:Hrun.
  unfold render_jinja in Hrun. rewrite bind_unfold in Hrun.
  unfold call in Hrun. cbn beta in Hrun.
  destruct (jinja_render env (node_name (_expression self))) as [rendered|e];
    [|left; now exists e].
  destruct (is_blank rendered); [right; left; exact Hrun|].
  rewrite bind_unfold in Hrun.
  destruct (parse rendered (_dialect self)) as [parsed|e]; [|left; now exists e].
  destruct (omap id parsed) as [|x l]; [left; eexists; exact Hrun|].
  right; right. eexists. exact Hrun.
Qed.

(** What a call of [_render] does to the renderer: an entry under the key
    of the call is returned and nothing changes; without one, the call
    either raises and changes nothing, or stores what it returns under
    the key. *)
Lemma _render_effect self start end_ latest snapshots is_dev kwargs st :
  let key := _dates start end_ latest in
  let run := _render self start end_ latest snapshots is_dev kwargs st in
  match _cache st !! key with
  | Some cached => run = (Ok cached, st)
  | None =>
    (exists e, run = (Raise e, st))
    \/ (exists expressions,
          run = (Ok expressions, set_cache <[key := expressions]> st))
  end.
Proof.
  cbn zeta. destruct (_cache st !! _dates start end_ latest) as [cached|] eqn:Hcache.
  { now apply _render_cached. }
  remember (_render self start end_ latest snapshots is_dev kwargs st) as run eqn:Hrun.
  unfold _render in Hrun. rewrite bind_unfold in Hrun. unfold gets at 1 in Hrun.
  rewrite Hcache in Hrun. rewrite bind_unfold in Hrun.
  match type of Hrun with
  | context [match ?stage st with _ => _ end] =>
    assert (Hstage : (exists e, stage st = (Raise e, st))
                     \/ stage st
                        = (Ok (inl []), set_cache <[_dates start end_ latest := []]> st)
                     \/ (exists parsed, stage st = (Ok (inr parsed), st)))
  end.
  { case_decide as Hkind; [|right; right; now eexists].
    unfold try_except.
    destruct (render_jinja_effect self (_dates start end_ latest)
                (mkJinjaEnv (_jinja_macro_registry self)
                   (prepare_env (_python_env self)
                    ∪ (kwargs ∪ date_dict (_dates start end_ latest) (_only_latest self)))
                   (default ∅ snapshots) is_dev) st)
      as [[e ->] | [-> | [parsed ->]]].
    - left. cbn. destruct (is_ParsetimeAdapterCallError e); eexists; reflexivity.
    - right; left. reflexivity.
    - right; right. now eexists. }
  destruct Hstage as [[e Hs] | [Hs | [parsed Hs]]]; rewrite Hs in Hrun.
  - left. now exists e.
  - right. now exists [].
  - rewrite bind_unfold in Hrun.
    match type of Hrun with
    | context [match ?m st with _ => _ end] =>
      assert (Hm : keeps_state m) by (unfold raise_config_error; keeps);
      rewrite (keeps_state_run m st Hm) in Hrun; destruct (m st).1 as [evaluator|e];
      [|left; now exists e]
    end.
    rewrite bind_unfold in Hrun.
    match type of Hrun with
    | context [match ?m st with _ => _ end] =>
      assert (Hm' : keeps_state m) by (unfold raise_config_error; keeps);
      rewrite (keeps_state_run m st Hm') in Hrun; destruct (m st).1 as [resolved|e];
      [|left; now exists e]
    end.
    right. now exists resolved.
Qed.

(** X10. A call of [_render] that returns has its result under the date
    key of the call in the cache of resolved expressions, and every later
    call for the same dates, whatever its snapshots, [is_dev] flag and
    keyword arguments, returns that result and changes nothing. *)
Theorem _render_memoized self start end_ latest snapshots is_dev kwargs st
    expressions st' :
  _render self start end_ latest snapshots is_dev kwargs st = (Ok expressions, st') ->
  _cache st' !! _dates start end_ latest = Some expressions
  /\ forall snapshots' is_dev' kwargs',
       _render self start end_ latest snapshots' is_dev' kwargs' st'
       = (Ok expressions, st').
Proof.
  intros Hrun.
  assert (Hcached : _cache st' !! _dates start end_ latest = Some expressions).
  { pose proof (_render_effect self start end_ latest snapshots is_dev kwargs st)
      as Heffect. cbn zeta in Heffect.
    destruct (_cache st !! _dates start end_ latest) as [cached|] eqn:Hcache.
    - rewrite Hrun in Heffect. injection Heffect as -> ->. exact Hcache.
    - destruct Heffect as [[e He] | [found Hfound]]; rewrite Hrun in *.
      + discriminate.
      + injection Hfound as -> ->. cbn. apply lookup_insert_eq. }
  split; [exact Hcached|].
  intros snapshots' is_dev' kwargs'. now apply _render_cached.
Qed.

(** X11. A call of [_render] writes nothing but the entry of its own date
    key in the cache of resolved expressions: the optimized cache, the log
    and every other entry are as before.  A call that raises, and a call
    that finds its key in the cache, change nothing at all. *)
Theorem _render_writes_its_key_only self start end_ latest snapshots is_dev kwargs
    st r st' :
  _render self start end_ latest snapshots is_dev kwargs st = (r, st') ->
  _optimized_cache st' = _optimized_cache st
  /\ log st' = log st
  /\ (forall key, key <> _dates start end_ latest ->
      _cache st' !! key = _cache st !! key)
  /\ (is_raise r = true \/ is_Some (_cache st !! _dates start end_ latest) ->
      st' = st).
Proof.
  intros Hrun.
  pose proof (_render_effect self start end_ latest snapshots is_dev kwargs st)
    as Heffect. cbn zeta in Heffect. rewrite Hrun in Heffect.
  destruct (_cache st !! _dates start end_ latest) as [cached|] eqn:Hcache.
  - injection Heffect as -> ->. now repeat split.
  - destruct Heffect as [[e He] | [found Hfound]].
    + injection He as -> ->. now repeat split.
    + injection Hfound as -> ->. cbn. repeat split.
      * intros key Hkey. now apply lookup_insert_ne.
      * intros [Hr | [x Hx]]; discriminate.
Qed.

(** [render] is table resolution followed by [finish]. *)
Lemma render_finish self args add_incremental_filter optimize st :
  render self args add_incremental_filter optimize st
  = match render_resolved self args optimize st with
    | (Ok (Some query), st') => (finish self args add_incremental_filter query, st')
    | (Ok None, st') => (Ok None, st')
    | (Raise e, st') => (Raise e, st')
    end.
Proof.
  unfold render. rewrite bind_unfold.
  destruct (render_resolved self args optimize st) as [[[query|]|e] st'];
    try reflexivity.
  unfold finish, raise_config_error, raise.
  unfold mbind, M_bind, call, mret, M_ret.
  destruct (add_incremental_filter && bool_decide (is_Some (_time_column self))).
  - destruct (is_subqueryable query); [|reflexivity].
    destruct (time_column_filter self _ _) as [filter|e]; [|reflexivity].
    now destruct (is_subqueryable (add_filter query filter)).
  - now destruct (is_subqueryable query).
Qed.

Lemma resolve_tables_plain self e args st :
  plain args -> resolve_tables self e args st = (Ok e, st).
Proof.
  intros [Hs He]. unfold resolve_tables.
  now rewrite !bool_decide_eq_true_2 by assumption.
Qed.

Lemma plain_skip_cache args :
  plain args ->
  negb (bool_decide (default ∅ (args_snapshots args) = ∅))
  || negb (bool_decide (args_expand args = ∅)) = false.
Proof. intros [Hs He]. now rewrite !bool_decide_eq_true_2 by assumption. Qed.

(** The optimized cache answers a plain call that optimizes. *)
Lemma render_resolved_hit self args st query :
  plain args ->
  _optimized_cache st !! _dates (args_start args) (args_end args) (args_latest args)
  = Some query ->
  render_resolved self args true st = (Ok (Some query), st).
Proof.
  intros Hplain Hhit. unfold render_resolved.
  rewrite (plain_skip_cache args Hplain). cbn [negb orb].
  rewrite (bind_ok _ _ st (Some query) st) by (unfold gets; now rewrite Hhit).
  rewrite (bind_ok _ _ st (Some query) st) by reflexivity.
  apply fmap_ok. now apply resolve_tables_plain.
Qed.

(** A plain call that optimizes and returns a query leaves it in the
    optimized cache. *)
Lemma render_resolved_caches self args st query st' :
  plain args ->
  render_resolved self args true st = (Ok (Some query), st') ->
  _optimized_cache st' !! _dates (args_start args) (args_end args) (args_latest args)
  = Some query.
Proof.
  intros Hplain Hrun.
  destruct (_optimized_cache st
            !! _dates (args_start args) (args_end args) (args_latest args))
    as [cached|] eqn:Hcache.
  { rewrite (render_resolved_hit self args st cached Hplain Hcache) in Hrun.
    injection Hrun as -> ->. exact Hcache. }
  unfold render_resolved in Hrun.
  rewrite (plain_skip_cache args Hplain) in Hrun. cbn [negb orb] in Hrun.
  rewrite (bind_ok _ _ st None st) in Hrun by (unfold gets; now rewrite Hcache).
  rewrite bind_unfold in Hrun. rewrite bind_unfold in Hrun.
  destruct (try_except _ _ st) as [[[[|first [|second rest]]|]|e] st1];
    try discriminate.
  rewrite bind_unfold in Hrun.
  destruct (_optimize_query self first st1) as [[optimized|e] st2]; [|discriminate].
  unfold mbind, M_bind, modify, mret, M_ret, fmap, M_fmap in Hrun.
  rewrite (resolve_tables_plain _ _ _ _ Hplain) in Hrun.
  injection Hrun as <- <-. cbn. apply lookup_insert_eq.
Qed.

(** X12. In a plain call, one with neither snapshots nor names to expand,
    that optimizes, a query held by the optimized cache under the date key
    is what [render] works from: nothing is rendered or optimized again,
    whatever the expression of the renderer and its other cache hold, and
    the state is left as it is.  The query is returned as it is when it is
    a SELECT or a UNION and no filter is asked for. *)
Theorem render_optimized_cache_hit self args add_incremental_filter st query :
  plain args ->
  _optimized_cache st !! _dates (args_start args) (args_end args) (args_latest args)
  = Some query ->
  render self args add_incremental_filter true st
  = (finish self args add_incremental_filter query, st)
  /\ (is_subqueryable query = true ->
      render self args false true st = (Ok (Some query), st)).
Proof.
  intros Hplain Hhit. split.
  - rewrite render_finish. now rewrite (render_resolved_hit self args st query).
  - intros Hsub. rewrite render_finish.
    rewrite (render_resolved_hit self args st query) by assumption.
    unfold finish. cbn. now rewrite Hsub.
Qed.

(** X13. A plain call of [render] that optimizes and returns a query is
    memoized: the same call on the state it leaves returns the same query
    and changes nothing, so what the first call logged is not logged
    again. *)
Theorem render_memoized self args add_incremental_filter st query st' :
  plain args ->
  render self args add_incremental_filter true st = (Ok (Some query), st') ->
  render self args add_incremental_filter true st' = (Ok (Some query), st').
Proof.
  intros Hplain Hrun. rewrite render_finish in Hrun.
  destruct (render_resolved self args true st) as [[[resolved|]|e] st1] eqn:Hresolved;
    try discriminate.
  injection Hrun as Hfinish ->.
  pose proof (render_resolved_caches self args st resolved st' Hplain Hresolved)
    as Hcached.
  rewrite render_finish.
  rewrite (render_resolved_hit self args st' resolved Hplain Hcached).
  now rewrite Hfinish.
Qed.

(** X14. A call of [render] that does not optimize neither reads nor
    writes the optimized cache: whatever that cache holds, the call
    returns the same and leaves the cache as it found it. *)
Theorem render_unoptimized_skips_optimized_cache self args add_incremental_filter :
  ignores_optimized_cache (render self args add_incremental_filter false)
  /\ forall st,
       _optimized_cache (render self args add_incremental_filter false st).2
       = _optimized_cache st.
Proof.
  assert (Hignores :
    ignores_optimized_cache (render self args add_incremental_filter false)).
  { unfold render, render_resolved, raise_config_error.
    rewrite orb_true_r.
    pose proof ignores__render. pose proof ignores_resolve_tables.
    ignores; auto. }
  split; [exact Hignores|].
  intros st. specialize (Hignores (_optimized_cache st) st).
  replace (with_optimized_cache (_optimized_cache st) st) with st in Hignores
    by now destruct st.
  apply (f_equal snd) in Hignores. cbn [snd] in Hignores.
  rewrite Hignores at 1. reflexivity.
Qed.

(** X15. Whatever [render] returns is a SELECT or a UNION.  A resolved
    query of another class raises: a [ConfigError] that names the path of
    the model, or, when the incremental filter is to be added to it, an
    [AttributeError], the query having no [subquery] method. *)
Theorem render_returns_select_or_union self args add_incremental_filter optimize st :
  (forall query st',
     render self args add_incremental_filter optimize st = (Ok (Some query), st') ->
     is_subqueryable query = true)
  /\ (forall resolved st',
        render_resolved self args optimize st = (Ok (Some resolved), st') ->
        is_subqueryable resolved = false ->
        exists e,
          render self args add_incremental_filter optimize st = (Raise e, st')
          /\ if add_incremental_filter && bool_decide (is_Some (_time_column self))
             then exists msg, e = AttributeError msg
             else e = ConfigError
                        (("Query needs to be a SELECT or a UNION " +:+ sql resolved
                          +:+ ".") +:+ " at '" +:+ _path (base self) +:+ "'")).
Proof.
  split.
  - intros query st' Hrun. rewrite render_finish in Hrun.
    destruct (render_resolved self args optimize st) as [[[resolved|]|e] st1];
      try discriminate.
    injection Hrun as Hfinish _. unfold finish in Hfinish.
    destruct (add_incremental_filter && bool_decide (is_Some (_time_column self))).
    + destruct (is_subqueryable resolved); [|discriminate].
      destruct (time_column_filter self _ _) as [filter|e]; [|discriminate].
      destruct (is_subqueryable (add_filter resolved filter)) eqn:Hsub;
        [|discriminate].
      now injection Hfinish as <-.
    + destruct (is_subqueryable resolved) eqn:Hsub; [|discriminate].
      now injection Hfinish as <-.
  - intros resolved st' Hresolved Hsub. rewrite render_finish, Hresolved.
    unfold finish.
    destruct (add_incremental_filter && bool_decide (is_Some (_time_column self)));
      cbv beta iota zeta; rewrite Hsub; eexists; (split; [reflexivity|]);
      [now eexists | reflexivity].
Qed.

(** X16. The number of statements.  When the optimized cache does not
    answer and [_render] returns no expression, [render] raises the
    [ConfigError] that the query failed to render; when it returns more
    than one, the [ConfigError] that the query has too many statements.
    Either way the state is the one [_render] left. *)
Theorem render_statement_count self args add_incremental_filter optimize st
    expressions st1 :
  (default ∅ (args_snapshots args) = ∅ -> args_expand args = ∅ -> optimize = true ->
   _optimized_cache st !! _dates (args_start args) (args_end args) (args_latest args)
   = None) ->
  _render (base self) (args_start args) (args_end args) (args_latest args)
    (args_snapshots args) (args_is_dev args) (args_kwargs args) st
  = (Ok expressions, st1) ->
  (expressions = [] ->
   render self args add_incremental_filter optimize st
   = (Raise (ConfigError ("Failed to render query:" +:+ newline
                          +:+ sql (_expression (base self)))), st1))
  /\ ((2 <= length expressions)%nat ->
      render self args add_incremental_filter optimize st
      = (Raise (ConfigError ("Too many statements in query:" +:+ newline
                             +:+ sql (_expression (base self)))), st1)).
Proof.
  intros Hmiss Hrender.
  assert (Hexpressions :
    try_except
      (Some <$> _render (base self) (args_start args) (args_end args)
                  (args_latest args) (args_snapshots args) (args_is_dev args)
                  (args_kwargs args))
      [(is_ParsetimeAdapterCallError, fun _ : exn => mret None)] st
    = (Ok (Some expressions), st1)).
  { apply try_except_ok. now apply fmap_ok. }
  split.
  - intros ->. rewrite render_finish. unfold render_resolved.
    rewrite (bind_ok _ _ _ _ _ (optimized_cache_miss args optimize st Hmiss)).
    rewrite (bind_raise _ _ st
               (ConfigError ("Failed to render query:" +:+ newline
                             +:+ sql (_expression (base self)))) st1);
      [reflexivity|].
    now rewrite (bind_ok _ _ _ _ _ Hexpressions).
  - intros Hlen. destruct expressions as [|first [|second rest]]; cbn in Hlen; try lia.
    rewrite render_finish. unfold render_resolved.
    rewrite (bind_ok _ _ _ _ _ (optimized_cache_miss args optimize st Hmiss)).
    rewrite (bind_raise _ _ st
               (ConfigError ("Too many statements in query:" +:+ newline
                             +:+ sql (_expression (base self)))) st1);
      [reflexivity|].
    now rewrite (bind_ok _ _ _ _ _ Hexpressions).
Qed.

(** X17. [update_cache] and the calls that read the caches.  After
    [update_cache(expression, optimized=True)] a plain call of [render]
    for the same dates that optimizes works from [expression] without
    rendering or optimizing; after [update_cache(expression)] every call
    of [_render] for the same dates returns [[expression]].  Each of the
    two writes one cache and leaves the other alone, so that an entry of
    the optimized cache is still what [render] works from after the cache
    of resolved expressions was updated. *)
Theorem update_cache_round_trip self args expression start end_ latest
    add_incremental_filter st :
  plain args ->
  _dates start end_ latest
  = _dates (args_start args) (args_end args) (args_latest args) ->
  let st_optimized := (update_cache expression start end_ latest true st).2 in
  let st_resolved := (update_cache expression start end_ latest false st).2 in
  render self args add_incremental_filter true st_optimized
  = (finish self args add_incremental_filter expression, st_optimized)
  /\ (forall snapshots is_dev kwargs,
        _render (base self) (args_start args) (args_end args) (args_latest args)
          snapshots is_dev kwargs st_resolved
        = (Ok [expression], st_resolved))
  /\ _cache st_optimized = _cache st
  /\ _optimized_cache st_resolved = _optimized_cache st
  /\ (forall cached,
        _optimized_cache st !! _dates start end_ latest = Some cached ->
        render self args add_incremental_filter true st_resolved
        = (finish self args add_incremental_filter cached, st_resolved)).
Proof.
  intros Hplain Hdates. cbn zeta.
  unfold update_cache, update_cache_base, modify. cbn [snd]. rewrite Hdates.
  split; [|split; [|split; [|split]]]; try reflexivity.
  - rewrite render_finish.
    rewrite (render_resolved_hit self args _ expression Hplain);
      [reflexivity | apply lookup_insert_eq].
  - intros snapshots is_dev kwargs. apply _render_cached. apply lookup_insert_eq.
  - intros cached Hcached. rewrite render_finish.
    now rewrite (render_resolved_hit self args _ cached Hplain).
Qed.

(** *** [_optimize_query] *)

(** X18. When every dependency of the query has a schema entry, in
    particular when it has no dependency but the model itself, and
    [qualify] and [simplify] return, [_optimize_query] returns the
    simplified query after [annotate_types] with the schema of the
    renderer; it logs nothing and leaves the caches alone. *)
Theorem optimize_query_success self query st qualified simplified :
  (forall dependency,
     dependency ∈ dependencies_of self query -> is_Some (schema self !! dependency)) ->
  qualify query (_dialect (base self)) (schema self) = Ok qualified ->
  simplify qualified = Ok simplified ->
  _optimize_query self query st = (Ok (annotate_types simplified (schema self)), st).
Proof.
  intros Hall Hqualify Hsimplify.
  destruct (no_missing_dependency self query Hall) as [Hhead Hshould].
  unfold _optimize_query. fold (dependencies_of self query). rewrite Hhead.
  rewrite (bind_ok _ _ st tt st) by reflexivity. rewrite Hshould.
  rewrite (bind_ok _ _ st (simplified, false) st); [reflexivity|].
  apply try_except_ok.
  rewrite (bind_ok _ _ st qualified st) by (unfold call; now rewrite Hqualify).
  rewrite (bind_ok _ _ st simplified st) by (unfold call; now rewrite Hsimplify).
  reflexivity.
Qed.

(** X19. [_optimize_query] writes nothing but log records: both caches
    are as before and the log is extended.  A [SqlglotError] of [qualify]
    or of [simplify] does not leave it: with the other calls returning, an
    exception that leaves it was raised by one of these two and is of
    another class, and it leaves unchanged. *)
Theorem optimize_query_effects self query st r st' :
  _optimize_query self query st = (r, st') ->
  (_cache st' = _cache st /\ _optimized_cache st' = _optimized_cache st
   /\ exists records, log st' = log st ++ records)
  /\ forall e,
       r = Raise e ->
       is_SqlglotError e = false
       /\ exists schema',
            qualify query (_dialect (base self)) schema' = Raise e
            \/ exists qualified,
                 qualify query (_dialect (base self)) schema' = Ok qualified
                 /\ simplify qualified = Raise e.
Proof.
  unfold _optimize_query. fold (dependencies_of self query).
  set (missing := head (filter _ (elements (dependencies_of self query)))).
  set (schema' := match missing with Some _ => ∅ | None => schema self end).
  set (should_optimize := negb (bool_decide (schema' = ∅)) || _).
  rewrite bind_unfold.
  set (warned := match missing, _model_name self with
                 | Some dependency, Some name => _
                 | _, _ => mret tt
                 end).
  assert (Hwarned : exists records, warned st = (Ok tt, set_log (log st ++ records) st)).
  { subst warned. destruct missing as [dependency|], (_model_name self) as [name|];
      try (exists []; rewrite app_nil_r; now destruct st).
    eexists [_]. reflexivity. }
  destruct Hwarned as (records & ->).
  set (st1 := set_log (log st ++ records) st).
  rewrite bind_unfold. unfold try_except.
  assert (Hst1 : _cache st1 = _cache st /\ _optimized_cache st1 = _optimized_cache st
                 /\ exists records, log st1 = log st ++ records).
  { repeat split. now exists records. }
  assert (Hlogged : forall record,
            _cache (set_log (log st1 ++ [record]) st1) = _cache st
            /\ _optimized_cache (set_log (log st1 ++ [record]) st1) = _optimized_cache st
            /\ exists records, log (set_log (log st1 ++ [record]) st1) = log st ++ records).
  { intros record. repeat split. exists (records ++ [record]). cbn. symmetry. apply app_assoc. }
  destruct should_optimize.
  - rewrite bind_unfold. unfold call at 1.
    destruct (qualify query (_dialect (base self)) schema') as [qualified|e] eqn:Hq.
    + rewrite bind_unfold. unfold call at 1.
      destruct (simplify qualified) as [simplified|e] eqn:Hs.
      * intros [= <- <-]. split; [exact Hst1 | discriminate].
      * cbn [handle]. destruct (is_SqlglotError e) eqn:He.
        -- intros [= <- <-]. split; [apply Hlogged | discriminate].
        -- intros [= <- <-]. split; [exact Hst1|].
           intros e' [= <-]. split; [exact He|]. exists schema'. right. eauto.
    + cbn [handle]. destruct (is_SqlglotError e) eqn:He.
      * intros [= <- <-]. split; [apply Hlogged | discriminate].
      * intros [= <- <-]. split; [exact Hst1|].
        intros e' [= <-]. split; [exact He|]. exists schema'. now left.
  - intros [= <- <-]. split; [exact Hst1 | discriminate].
Qed.

(** *** [ExpressionRenderer.render] *)

(** Table resolution only reaches the log. *)
Lemma resolve_tables_log self e args st :
  exists records, (resolve_tables self e args st).2 = set_log records st.
Proof.
  unfold resolve_tables.
  destruct (bool_decide _ && bool_decide _);
    [exists (log st); now destruct st|].
  rewrite bind_unfold. unfold logging, zoom.
  destruct (with_normalize_and_quote _ _ _ (log st)) as [[[[fresh|] managed]|ex] l];
    now exists l.
Qed.

Lemma set_log_set_log records records' st :
  set_log records (set_log records' st) = set_log records st.
Proof. reflexivity. Qed.

Lemma for_each_resolve_log self args (l : list Expression) acc st :
  exists records,
    (for_each (fun resolved e =>
                 e ← resolve_tables self e args; mret (resolved ++ [e])) l acc st).2
    = set_log records st.
Proof.
  revert acc st. induction l as [|x l IH]; intros acc st; cbn [for_each].
  - exists (log st). now destruct st.
  - rewrite bind_unfold. rewrite bind_unfold.
    destruct (resolve_tables_log self x args st) as (records & Hlog).
    destruct (resolve_tables self x args st) as [[x'|ex] st1]; cbn [snd] in Hlog;
      subst st1; [|now exists records].
    cbn [mret M_ret].
    destruct (IH (acc ++ [x']) (set_log records st)) as (records' & ->).
    now exists records'.
Qed.

Lemma for_each_resolve_length self args (l : list Expression) acc st resolved st' :
  for_each (fun resolved e =>
              e ← resolve_tables self e args; mret (resolved ++ [e])) l acc st
  = (Ok resolved, st') ->
  length resolved = (length acc + length l)%nat.
Proof.
  revert acc st. induction l as [|x l IH]; intros acc st; cbn [for_each].
  - intros [= <- _]. cbn. lia.
  - rewrite bind_unfold. rewrite bind_unfold.
    destruct (resolve_tables self x args st) as [[x'|ex] st1]; [|discriminate].
    cbn [mret M_ret]. intros Hrest. apply IH in Hrest.
    rewrite length_app in Hrest. cbn in *. lia.
Qed.

Lemma for_each_resolve_plain self args (l : list Expression) acc st :
  plain args ->
  for_each (fun resolved e =>
              e ← resolve_tables self e args; mret (resolved ++ [e])) l acc st
  = (Ok (acc ++ l), st).
Proof.
  intros Hplain. revert acc. induction l as [|x l IH]; intros acc; cbn [for_each].
  - now rewrite app_nil_r.
  - rewrite (bind_ok _ _ st (acc ++ [x]) st).
    + rewrite IH. now rewrite <- app_assoc.
    + now rewrite (bind_ok _ _ _ _ _ (resolve_tables_plain self x args st Hplain)).
Qed.

(** X20. [ExpressionRenderer.render] returns one resolved expression for
    each expression [_render] returns, and what [_render] returns when the
    call has neither snapshots nor names to expand.  Resolution is not
    cached: both caches are as [_render] left them. *)
Theorem expression_render_resolves self args st :
  let rendered :=
    _render self (args_start args) (args_end args) (args_latest args)
      (args_snapshots args) (args_is_dev args) (args_kwargs args) st in
  (plain args -> expression_render self args st = rendered)
  /\ (forall resolved st',
        expression_render self args st = (Ok resolved, st') ->
        exists expressions,
          rendered.1 = Ok expressions /\ length resolved = length expressions)
  /\ _cache (expression_render self args st).2 = _cache rendered.2
  /\ _optimized_cache (expression_render self args st).2 = _optimized_cache rendered.2.
Proof.
  cbn zeta. unfold expression_render. rewrite bind_unfold.
  destruct (_render self _ _ _ _ _ _ st) as [[expressions|ex] st1].
  - split; [|split].
    + intros Hplain. now apply for_each_resolve_plain.
    + intros resolved st' Hrun. exists expressions. split; [reflexivity|].
      now apply for_each_resolve_length in Hrun.
    + destruct (for_each_resolve_log self args expressions [] st1) as (records & ->).
      now split.
  - repeat split. intros resolved st' [=].
Qed.

(** *** What table resolution raises *)

Lemma transform_raises {S} (f : Expression -> M S (option Expression))
    (P : exn -> Prop) :
  (forall node s ex s', f node s = (Raise ex, s') -> P ex) ->
  forall e s ex s', transform f e s = (Raise ex, s') -> P ex.
Proof.
  intros Hf. induction e as [k n a args IH] using Expression_induction.
  intros s ex s'. rewrite transform_unfold, bind_unfold.
  destruct (f (Node k n a args) s) as [[[new|]|ex0] s1] eqn:Hnode.
  - discriminate.
  - cbn [node_args node_kind node_name node_alias]. rewrite bind_unfold.
    assert (Hchildren : forall s0 ex0 s2,
              transform_children f args s0 = (Raise ex0, s2) -> P ex0).
    { clear -IH. induction args as [|[key child] args IHargs]; intros s0 ex0 s2;
        cbn [transform_children]; [discriminate|].
      apply Forall_cons in IH as [Hchild IH].
      rewrite bind_unfold.
      destruct (transform f child s0) as [[child'|ex1] s3] eqn:Hc.
      - rewrite bind_unfold.
        destruct (transform_children f args s3) as [[args'|ex1] s4] eqn:Hrest;
          [discriminate|].
        intros [= <- _]. now apply (IHargs IH s3 ex1 s4).
      - intros [= <- _]. now apply (Hchild s0 ex1 s3). }
    destruct (transform_children f args s1) as [[args'|ex0] s2] eqn:Hargs;
      [discriminate|].
    intros [= <- _]. now apply (Hchildren s1 ex0 s2).
  - intros [= <- _]. now apply (Hf _ _ _ _ Hnode).
Qed.

Lemma transform_root_raises {S} (f : Expression -> M S (option Expression))
    (P : exn -> Prop) :
  (forall node s ex s', f node s = (Raise ex, s') -> P ex) ->
  forall e s ex s', transform_root f e s = (Raise ex, s') -> P ex.
Proof.
  intros Hf e s ex s' Hrun. apply (transform_raises f P Hf e s ex s').
  rewrite <- transform_root_fst. now apply fmap_raise.
Qed.

Lemma _expand_raises snapshots expand is_dev render_kwargs node l ex l' :
  _expand snapshots expand is_dev render_kwargs node l = (Raise ex, l') ->
  exists model args, render_query model args = Raise ex.
Proof.
  unfold _expand. destruct (bool_decide _ && negb _); [|discriminate].
  destruct (snapshot_model <$> snapshots !! node_name node) as [model|];
    [|discriminate].
  destruct (bool_decide _ && negb _ && negb _); [|discriminate].
  rewrite bind_unfold. unfold call at 1.
  destruct (render_query model _) as [[nested|]|ex0] eqn:Hq; try discriminate.
  intros [= <- _]. eauto.
Qed.

(** X21. Table resolution neither raises nor wraps: with the sqlglot
    passes and the table mapping returning, an exception that leaves
    [_resolve_tables], or the method of the renderer, is the one that the
    [render_query] of a model being inlined raised, as it was raised. *)
Theorem resolve_tables_raises_what_render_query_raises :
  (forall expression snapshots expand is_dev render_kwargs l ex l',
     _resolve_tables expression snapshots expand is_dev render_kwargs l = (Raise ex, l') ->
     exists model args, render_query model args = Raise ex)
  /\ (forall self expression args st ex st',
        resolve_tables self expression args st = (Raise ex, st') ->
        exists model nested, render_query model nested = Raise ex).
Proof.
  assert (Hmodule : forall expression snapshots expand is_dev render_kwargs l ex l',
    _resolve_tables expression snapshots expand is_dev render_kwargs l = (Raise ex, l') ->
    exists model args, render_query model args = Raise ex).
  { intros expression snapshots expand is_dev render_kwargs l ex l'.
    unfold _resolve_tables. rewrite bind_unfold.
    destruct (bool_decide (expand_set _ _ _ = ∅)).
    - cbn [mret M_ret]. destruct (bool_decide _); [discriminate|].
      rewrite bind_unfold. rewrite transform_root_mret. discriminate.
    - destruct (transform_root _ expression l) as [[expanded|ex0] l1] eqn:Hexpand.
      + destruct (bool_decide _); [discriminate|].
        rewrite bind_unfold. rewrite transform_root_mret. discriminate.
      + intros [= <- _].
        apply (transform_root_raises _ _
                 (fun node s ex s' H => _expand_raises _ _ _ _ node s ex s' H)
                 _ _ _ _ Hexpand). }
  split; [exact Hmodule|].
  intros self expression args st ex st'. unfold resolve_tables.
  destruct (bool_decide _ && bool_decide _); [discriminate|].
  rewrite bind_unfold. unfold logging, zoom, with_normalize_and_quote.
  unfold with_contextmanager. cbn [run_block _normalize_and_quote run_stmt].
  cbn -[_resolve_tables].
  destruct (_resolve_tables _ _ _ _ _ (log st)) as [[[resolved [|]]|ex0] l1] eqn:Hrun;
    cbn; try discriminate.
  intros [= <- _]. now apply Hmodule in Hrun.
Qed.

(** *** Which result of table resolution is quoted *)

(** A root that is not a table reference is kept by both traversals. *)
Lemma _resolve_tables_keeps_root expression snapshots expand is_dev render_kwargs l
    resolved kept l' :
  node_kind expression <> KTable ->
  _resolve_tables expression snapshots expand is_dev render_kwargs l
  = (Ok (resolved, kept), l') ->
  kept = true.
Proof.
  intros Hkind. unfold _resolve_tables. rewrite bind_unfold.
  set (f := _expand _ _ is_dev render_kwargs).
  set (g := _replace_tables _).
  assert (Hexpanded : forall expanded l1,
            (if bool_decide (expand_set (default ∅ snapshots)
                               (to_table_mapping (map_to_list (default ∅ snapshots)).*2
                                  is_dev) expand = ∅)
             then mret (expression, true) else transform_root f expression) l
            = (Ok expanded, l1) ->
            expanded.2 = true /\ node_kind expanded.1 <> KTable).
  { intros expanded l1. destruct (bool_decide _).
    - intros [= <- _]. now split.
    - unfold transform_root. rewrite bind_unfold.
      assert (Hf : f expression l = (Ok None, l)).
      { subst f. unfold _expand. now rewrite (bool_decide_eq_false_2 _ Hkind). }
      rewrite Hf. rewrite bind_unfold.
      destruct (transform_children f (node_args expression) l) as [[args'|ex] l2];
        [|discriminate].
      intros [= <- _]. now split. }
  destruct ((if bool_decide _ then mret (expression, true)
             else transform_root f expression) l)
    as [[expanded|ex] l1] eqn:Hrun; [|discriminate].
  destruct (Hexpanded expanded l1 eq_refl) as [Hkept Hkind'].
  destruct (bool_decide (to_table_mapping _ _ = ∅)).
  - unfold mret, M_ret. intros [= -> _]. exact Hkept.
  - rewrite bind_unfold, transform_root_mret.
    assert (Hg : g expanded.1 = None).
    { subst g. unfold _replace_tables. now rewrite (bool_decide_eq_false_2 _ Hkind'). }
    rewrite Hg. cbn [mret M_ret fst snd]. intros [= _ <- _].
    now rewrite Hkept.
Qed.

(** X22. In a call with snapshots or names to expand, the method
    [_resolve_tables] of the renderer works on a copy of the expression
    that went through [qualify_tables] and [normalize_identifiers].  When
    the module function returns that copy, as it does for every expression
    that is not itself a table reference, the caller receives it after the
    quote pass.  When the expression is a table reference that the module
    function replaces, the caller receives the replacement, on which the
    quote pass has not run.  Only the log changes. *)
Theorem resolve_tables_quoting self expression args st resolved kept l' :
  let entered :=
    normalize_identifiers (qualify_tables expression) (_dialect self) in
  default ∅ (args_snapshots args) <> ∅ \/ args_expand args <> ∅ ->
  _resolve_tables entered (args_snapshots args) (args_expand args) (args_is_dev args)
    args (log st)
  = (Ok (resolved, kept), l') ->
  resolve_tables self expression args st
  = (Ok (if kept then quote_identifiers resolved (_dialect self) else resolved),
     set_log l' st)
  /\ (node_kind entered <> KTable -> kept = true).
Proof.
  intros entered Hskip Hrun. split.
  - unfold resolve_tables.
    assert (Hcond : bool_decide (default ∅ (args_snapshots args) = ∅)
                    && bool_decide (args_expand args = ∅) = false).
    { destruct Hskip as [Hs | He].
      - now rewrite (bool_decide_eq_false_2 _ Hs).
      - rewrite (bool_decide_eq_false_2 _ He). apply andb_false_r. }
    rewrite Hcond. rewrite bind_unfold.
    unfold logging, zoom, with_normalize_and_quote, with_contextmanager.
    cbn [run_block _normalize_and_quote run_stmt run_pass app fst snd].
    fold entered. rewrite Hrun. now destruct kept.
  - intros Hkind. now apply (_resolve_tables_keeps_root _ _ _ _ _ _ _ _ _ Hkind Hrun).
Qed.

(** *** What [_render] stores *)

Lemma for_each_invariant {S A B} (P : B -> Prop) (step : B -> A -> M S B) :
  (forall acc x s r s', P acc -> step acc x s = (Ok r, s') -> P r) ->
  forall l acc s r s', P acc -> for_each step l acc s = (Ok r, s') -> P r.
Proof.
  intros Hstep. induction l as [|x l IH]; intros acc s r s' Hacc; cbn [for_each].
  - now intros [= <- _].
  - rewrite bind_unfold.
    destruct (step acc x s) as [[acc'|ex] s1] eqn:Hx; [|discriminate].
    apply IH. now apply (Hstep acc x s acc' s1).
Qed.

(** X23. What a call of [_render] computes, as opposed to what it finds in
    the cache, went through the three passes: each expression it returns
    is the result of [qualify_tables], [normalize_identifiers] and
    [quote_identifiers], in this order, on an expression that the macro
    evaluator returned. *)
Theorem _render_output_is_quoted self start end_ latest snapshots is_dev kwargs st
    expressions st' :
  _cache st !! _dates start end_ latest = None ->
  _render self start end_ latest snapshots is_dev kwargs st = (Ok expressions, st') ->
  Forall (fun e =>
            exists evaluator source transformed,
              macro_transform evaluator source = Ok (Some transformed)
              /\ e = quote_identifiers
                       (normalize_identifiers (qualify_tables transformed)
                          (_dialect self)) (_dialect self))
         expressions.
Proof.
  intros Hcache Hrun. unfold _render in Hrun.
  rewrite bind_unfold in Hrun. unfold gets at 1 in Hrun. rewrite Hcache in Hrun.
  rewrite bind_unfold in Hrun.
  match type of Hrun with
  | context [match ?stage st with _ => _ end] =>
    destruct (stage st) as [[[empty|parsed]|ex] st1] eqn:Hstage; [| |discriminate]
  end.
  - assert (Hempty : empty = []).
    { case_decide as Hkind; [|discriminate].
      unfold try_except in Hstage.
      destruct (render_jinja_effect self (_dates start end_ latest)
                  (mkJinjaEnv (_jinja_macro_registry self)
                     (prepare_env (_python_env self)
                      ∪ (kwargs ∪ date_dict (_dates start end_ latest)
                                  (_only_latest self)))
                     (default ∅ snapshots) is_dev) st)
        as [[e He] | [He | [found He]]]; rewrite He in Hstage.
      - cbn in Hstage. destruct (is_ParsetimeAdapterCallError e); discriminate.
      - now injection Hstage as <- _.
      - discriminate. }
    subst empty. injection Hrun as <- _. constructor.
  - rewrite bind_unfold in Hrun.
    destruct (for_each _ (_macro_definitions self) _ st1) as [[evaluator|ex] st2];
      [|discriminate].
    rewrite bind_unfold in Hrun.
    destruct (for_each _ parsed [] st2) as [[resolved|ex] st3] eqn:Hloop;
      [|discriminate].
    injection Hrun as <- _.
    revert Hloop. apply for_each_invariant; [|constructor].
    intros acc x s r s' Hacc. rewrite bind_unfold. unfold try_except, call.
    destruct (macro_transform _ x) as [[transformed|]|ex] eqn:Htransform.
    + rewrite bind_unfold, normalize_and_quote_eq. intros [= <- _].
      apply Forall_app. split; [exact Hacc|]. repeat constructor. eauto.
    + now intros [= <- _].
    + cbn [handle]. destruct (is_MacroEvalError ex); discriminate.
Qed.

End Properties.

#[local] Existing Instance sample_sqlglot.
#[local] Existing Instance sample_sqlmesh.

(** A seed model named in [expand] is not inlined: its reference keeps
    being a table, here under its physical name, although the model has a
    rendered query. *)
Lemma seed_in_expand_is_not_inlined :
  _resolve_tables (table "items" "") (Some {["items" := seed_snapshot]})
    {["items"]} false no_args []
  = (Ok (table "sqlmesh__default.items" "", false), [])
  /\ render_query (snapshot_model seed_snapshot)
       (nested_args (Some {["items" := seed_snapshot]}) {["items"]} false no_args)
     = Ok (Some (from_ (table "raw.items" "") select_star)).
Proof. split; vm_compute; reflexivity. Qed.

(** C1, on the failing input. A first call with snapshots leaves the
    optimized cache empty but stores, under the date key, the expressions
    it rendered with its snapshots in the template environment.  A later
    call without snapshots for the same key takes them from there: it
    returns the query over the physical table of the earlier call's
    snapshot, and stores it in the optimized cache, where a fresh renderer
    returns the query over [upstream]. *)
Theorem snapshots_leak_through_resolved_cache :
  let after_call_with_snapshots :=
    (render jinja_query (with_snapshots {["upstream" := upstream_snapshot]})
       false true empty_state).2 in
  _optimized_cache after_call_with_snapshots = ∅
  /\ (render jinja_query no_args false true after_call_with_snapshots).1
     = Ok (Some (mark "type" "annotated" (mark "quoted" "true"
                   (from_ (table "sqlmesh__default.upstream" "") select_star))))
  /\ (render jinja_query no_args false true empty_state).1
     = Ok (Some (mark "type" "annotated" (mark "quoted" "true"
                   (from_ (table "upstream" "") select_star))))
  /\ _optimized_cache
       (render jinja_query no_args false true after_call_with_snapshots).2
     !! (0, 0, 0)
     = Some (mark "type" "annotated" (mark "quoted" "true"
               (from_ (table "sqlmesh__default.upstream" "") select_star))).
Proof. cbv zeta. repeat split; vm_compute; reflexivity. Qed.

(** **** The properties above on concrete inputs *)

(** When the body raises, the managed query is left unquoted. *)
Lemma quote_pass_skipped_on_raise :
  with_contextmanager (A := unit) "duckdb" _normalize_and_quote (orders_query, [])
    (raise (OtherException "boom")) tt
  = (Raise (OtherException "boom"),
     (orders_query, [QualifyTables; NormalizeIdentifiers]), tt).
Proof. reflexivity. Qed.

Lemma normalize_and_quote_scope_witness :
  with_contextmanager "duckdb" _normalize_and_quote (orders_query, []) (mret 7) tt
  = (Ok 7,
     (mark "quoted" "true" orders_query,
      [QualifyTables; NormalizeIdentifiers; QuoteIdentifiers]), tt)
  /\ with_contextmanager (A := unit) "duckdb" _normalize_and_quote (orders_query, [])
       (raise (OtherException "boom")) tt
     = (Raise (OtherException "boom"),
        (orders_query, [QualifyTables; NormalizeIdentifiers]), tt).
Proof.
  split.
  - exact (proj1 (normalize_and_quote_scope "duckdb" orders_query (mret 7) tt)
             7 orders_query tt eq_refl).
  - exact (proj2 (normalize_and_quote_scope (A := unit) "duckdb" orders_query
                    (raise (OtherException "boom")) tt)
             (OtherException "boom") orders_query tt eq_refl).
Defined.

Lemma parsetime_adapter_call_skips_rendering_witness :
  render (sample_renderer (Node KJinja "adapter.get_relation" "" []))
    no_args false true empty_state
  = (Ok None, empty_state)
  /\ _render (sample_base (Node KJinja "undefined_variable" "" []))
       None None None None false ∅ empty_state
     = (Raise (ConfigError ("Invalid expression. 'undefined_variable' is undefined"
                            +:+ " at 'models/orders.sql'")), empty_state)
  /\ render (sample_renderer (Node KJinja "undefined_variable" "" []))
       no_args false true empty_state
     = (Raise (ConfigError ("Invalid expression. 'undefined_variable' is undefined"
                            +:+ " at 'models/orders.sql'")), empty_state).
Proof.
  split.
  - apply (parsetime_adapter_call_skips_rendering
             (sample_renderer (Node KJinja "adapter.get_relation" "" []))
             no_args false true empty_state
             (ParsetimeAdapterCallError "adapter call at parse time")).
    + repeat split; intros; reflexivity.
    + left. reflexivity.
    + reflexivity.
  - apply (proj2 (parsetime_adapter_call_skips_rendering
                    (sample_renderer (Node KJinja "undefined_variable" "" []))
                    no_args false true empty_state
                    (OtherException "'undefined_variable' is undefined")
                    ltac:(repeat split; intros; reflexivity)
                    ltac:(left; reflexivity))).
    reflexivity.
Defined.



Lemma table_resolution_witness :
  (fst <$> _resolve_tables (table "embedded" "e") (Some both_snapshots)
             ∅ false no_args) []
  = (Ok (subquery (from_ (table "raw.embedded" "") select_star) "e"), [])
  /\ (fst <$> _resolve_tables (table "upstream" "") (Some both_snapshots)
                ∅ false no_args) []
     = (Ok (table "sqlmesh__default.upstream" ""), []).
Proof.
  assert (Hembedded : inlinable (Some both_snapshots) ∅ false "embedded"
                      = Some (snapshot_model embedded_snapshot))
    by (vm_compute; reflexivity).
  assert (Hupstream : inlinable (Some both_snapshots) ∅ false "upstream" = None)
    by (vm_compute; reflexivity).
  split.
  - etransitivity;
      [exact (proj1 (proj2 (table_resolution (Some both_snapshots) ∅ false no_args []))
                "embedded" "e" (snapshot_model embedded_snapshot)
                (from_ (table "raw.embedded" "") select_star) Hembedded eq_refl)
      |vm_compute; reflexivity].
  - etransitivity;
      [exact (proj1 (proj2 (proj2 (table_resolution (Some both_snapshots) ∅ false
                                     no_args [])))
                "upstream" "" Hupstream)
      |vm_compute; reflexivity].
Defined.

Lemma render_with_snapshots_skips_optimized_cache_witness :
  _optimized_cache
    (render jinja_query (with_snapshots {["upstream" := upstream_snapshot]})
       false true (mkState ∅ {[(0, 0, 0) := orders_query]} [])).2
  = {[(0, 0, 0) := orders_query]}.
Proof.
  apply (proj2 (render_with_snapshots_skips_optimized_cache jinja_query
                  (with_snapshots {["upstream" := upstream_snapshot]}) false true
                  (or_introl (map_non_empty_singleton "upstream" upstream_snapshot)))).
Defined.

Lemma _render_memoized_witness :
  let rendered :=
    [mark "quoted" "true" (from_ (table "sqlmesh__default.upstream" "") select_star)] in
  let st' := mkState {[(0, 0, 0) := rendered]} ∅ [] in
  _render (sample_base (Node KJinja "upstream" "" [])) None None None
    (Some {["upstream" := upstream_snapshot]}) false ∅ empty_state
  = (Ok rendered, st')
  /\ _render (sample_base (Node KJinja "upstream" "" [])) None None None None true ∅ st'
     = (Ok rendered, st').
Proof.
  cbv zeta.
  match goal with
  | |- ?run = ?res /\ _ => assert (Hrun : run = res) by (vm_compute; reflexivity)
  end.
  split; [exact Hrun|].
  exact (proj2 (_render_memoized _ _ _ _ _ _ _ _ _ _ Hrun) None true ∅).
Defined.

Lemma _render_writes_its_key_only_witness :
  (_render (sample_base (Node KJinja "undefined_variable" "" [])) None None None None
     false ∅ (mkState ∅ {[(0, 0, 0) := orders_query]} [Warning "earlier"])).2
  = mkState ∅ {[(0, 0, 0) := orders_query]} [Warning "earlier"].
Proof.
  apply (proj2 (proj2 (proj2
           (_render_writes_its_key_only
              (sample_base (Node KJinja "undefined_variable" "" [])) None None None None
              false ∅ (mkState ∅ {[(0, 0, 0) := orders_query]} [Warning "earlier"])
              _ _ (surjective_pairing _))))).
  left. vm_compute. reflexivity.
Defined.

Lemma render_optimized_cache_hit_witness :
  render jinja_query no_args false true (mkState ∅ {[(0, 0, 0) := orders_query]} [])
  = (Ok (Some orders_query), mkState ∅ {[(0, 0, 0) := orders_query]} []).
Proof.
  assert (Hhit : _optimized_cache (mkState ∅ {[(0, 0, 0) := orders_query]} [])
                 !! _dates (args_start no_args) (args_end no_args) (args_latest no_args)
                 = Some orders_query) by (vm_compute; reflexivity).
  exact (proj2 (render_optimized_cache_hit jinja_query no_args false
                  (mkState ∅ {[(0, 0, 0) := orders_query]} []) orders_query
                  (conj eq_refl eq_refl) Hhit) eq_refl).
Defined.

Lemma render_memoized_witness :
  let first := render jinja_query no_args false true empty_state in
  first.1 = Ok (Some (mark "type" "annotated" (mark "quoted" "true"
                        (from_ (table "upstream" "") select_star))))
  /\ length (log first.2) = 1%nat
  /\ render jinja_query no_args false true first.2 = first.
Proof.
  cbv zeta.
  assert (Hrun : render jinja_query no_args false true empty_state
                 = (Ok (Some (mark "type" "annotated" (mark "quoted" "true"
                                (from_ (table "upstream" "") select_star)))),
                    (render jinja_query no_args false true empty_state).2))
    by (vm_compute; reflexivity).
  split; [now rewrite Hrun|]. split; [vm_compute; reflexivity|].
  rewrite Hrun at 2.
  exact (render_memoized jinja_query no_args false empty_state _ _
           (conj eq_refl eq_refl) Hrun).
Defined.

Lemma render_returns_select_or_union_witness :
  is_subqueryable (mark "quoted" "true" orders_query) = true
  /\ exists e,
       render (sample_renderer (table "orders" "")) no_args false false empty_state
       = (Raise e,
          mkState {[(0, 0, 0) := [mark "quoted" "true" (table "orders" "")]]} ∅ [])
       /\ e = ConfigError
                ("Query needs to be a SELECT or a UNION orders. at 'models/orders.sql'").
Proof.
  split.
  - apply (proj1 (render_returns_select_or_union (sample_renderer orders_query)
                    no_args false false empty_state)
             (mark "quoted" "true" orders_query)
             (mkState {[(0, 0, 0) := [mark "quoted" "true" orders_query]]} ∅ [])).
    vm_compute. reflexivity.
  - assert (Hresolved :
      render_resolved (sample_renderer (table "orders" "")) no_args false empty_state
      = (Ok (Some (mark "quoted" "true" (table "orders" ""))),
         mkState {[(0, 0, 0) := [mark "quoted" "true" (table "orders" "")]]} ∅ []))
      by (vm_compute; reflexivity).
    destruct (proj2 (render_returns_select_or_union
                       (sample_renderer (table "orders" "")) no_args false false
                       empty_state) _ _ Hresolved eq_refl) as (e & Hrun & He).
    exists e. split; [exact Hrun|]. exact He.
Defined.

Lemma render_statement_count_witness :
  render (sample_renderer (Node KJinja " " "" [])) no_args false true empty_state
  = (Raise (ConfigError ("Failed to render query:" +:+ newline +:+ " ")),
     mkState {[(0, 0, 0) := []]} ∅ [])
  /\ render (sample_renderer orders_query) no_args false true
       (mkState {[(0, 0, 0) := [orders_query; orders_query]]} ∅ [])
     = (Raise (ConfigError ("Too many statements in query:" +:+ newline)),
        mkState {[(0, 0, 0) := [orders_query; orders_query]]} ∅ []).
Proof.
  assert (Hblank :
    _render (base (sample_renderer (Node KJinja " " "" []))) None None None None
      false ∅ empty_state
    = (Ok [], mkState {[(0, 0, 0) := []]} ∅ [])) by (vm_compute; reflexivity).
  assert (Htwo :
    _render (base (sample_renderer orders_query)) None None None None false ∅
      (mkState {[(0, 0, 0) := [orders_query; orders_query]]} ∅ [])
    = (Ok [orders_query; orders_query],
       mkState {[(0, 0, 0) := [orders_query; orders_query]]} ∅ []))
    by (vm_compute; reflexivity).
  assert (Hmiss :
    _optimized_cache (mkState {[(0, 0, 0) := [orders_query; orders_query]]} ∅ [])
    !! _dates (args_start no_args) (args_end no_args) (args_latest no_args) = None)
    by (vm_compute; reflexivity).
  split.
  - apply (proj1 (render_statement_count (sample_renderer (Node KJinja " " "" []))
                    no_args false true empty_state []
                    (mkState {[(0, 0, 0) := []]} ∅ [])
                    (fun _ _ _ => eq_refl) Hblank)).
    reflexivity.
  - apply (proj2 (render_statement_count (sample_renderer orders_query)
                    no_args false true
                    (mkState {[(0, 0, 0) := [orders_query; orders_query]]} ∅ [])
                    [orders_query; orders_query]
                    (mkState {[(0, 0, 0) := [orders_query; orders_query]]} ∅ [])
                    (fun _ _ _ => Hmiss) Htwo)).
    cbn. lia.
Defined.

Lemma update_cache_round_trip_witness :
  render jinja_query no_args false true
    (update_cache orders_query None None None true empty_state).2
  = (Ok (Some orders_query), (update_cache orders_query None None None true empty_state).2)
  /\ _render (base jinja_query) None None None None false ∅
       (update_cache orders_query None None None false empty_state).2
     = (Ok [orders_query], (update_cache orders_query None None None false empty_state).2).
Proof.
  destruct (update_cache_round_trip jinja_query no_args orders_query None None None
              false empty_state (conj eq_refl eq_refl) eq_refl)
    as (Hoptimized & Hresolved & _).
  split.
  - etransitivity; [exact Hoptimized|]. reflexivity.
  - exact (Hresolved None false ∅).
Defined.

Lemma optimize_query_success_witness :
  _optimize_query (sample_renderer orders_query) orders_query empty_state
  = (Ok (mark "type" "annotated" orders_query), empty_state).
Proof.
  assert (Hall : forall dependency,
            dependency ∈ dependencies_of (sample_renderer orders_query) orders_query ->
            is_Some (schema (sample_renderer orders_query) !! dependency)).
  { intros dependency Hin. exfalso. revert Hin. vm_compute. intros Hin.
    apply (elem_of_empty (C := gset string) dependency), Hin. }
  exact (optimize_query_success (sample_renderer orders_query) orders_query empty_state
           orders_query orders_query Hall eq_refl eq_refl).
Defined.

Lemma optimize_query_effects_witness :
  _cache (_optimize_query (sample_renderer upstream_query) upstream_query
            (mkState {[(0, 0, 0) := [orders_query]]} ∅ [])).2
  = {[(0, 0, 0) := [orders_query]]}.
Proof.
  exact (proj1 (proj1 (optimize_query_effects (sample_renderer upstream_query)
                         upstream_query (mkState {[(0, 0, 0) := [orders_query]]} ∅ [])
                         _ _ (surjective_pairing _)))).
Defined.

Lemma expression_render_resolves_witness :
  expression_render (sample_base orders_query) no_args empty_state
  = _render (sample_base orders_query) None None None None false ∅ empty_state.
Proof.
  apply (expression_render_resolves (sample_base orders_query) no_args empty_state).
  split; reflexivity.
Defined.

Lemma resolve_tables_raises_what_render_query_raises_witness :
  exists model args,
    @render_query raising_sqlmesh model args
    = Raise (ConfigError "Failed to render query:embedded").
Proof.
  apply (proj1 (@resolve_tables_raises_what_render_query_raises
                  sample_sqlglot raising_sqlmesh)
           (table "embedded" "") (Some both_snapshots) ∅ false no_args [] _ []).
  vm_compute. reflexivity.
Defined.

Lemma resolve_tables_quoting_witness :
  resolve_tables (sample_base upstream_query) upstream_query
    (with_snapshots {["upstream" := upstream_snapshot]}) empty_state
  = (Ok (mark "quoted" "true"
           (Node KSelect "" ""
              [("expressions", column "a");
               ("from", Node KFrom "" ""
                          [("this", table "sqlmesh__default.upstream" "")])])),
     empty_state)
  /\ resolve_tables (sample_base upstream_query) (table "upstream" "")
       (with_snapshots {["upstream" := upstream_snapshot]}) empty_state
     = (Ok (table "sqlmesh__default.upstream" ""), empty_state).
Proof.
  assert (Hskip : default ∅ (args_snapshots
                               (with_snapshots {["upstream" := upstream_snapshot]})) <> ∅
                  \/ args_expand (with_snapshots {["upstream" := upstream_snapshot]}) <> ∅).
  { left. apply map_non_empty_singleton. }
  assert (Hselect :
    _resolve_tables
      (normalize_identifiers (qualify_tables upstream_query)
         (_dialect (sample_base upstream_query)))
      (Some {["upstream" := upstream_snapshot]}) ∅ false
      (with_snapshots {["upstream" := upstream_snapshot]}) (log empty_state)
    = (Ok (Node KSelect "" ""
             [("expressions", column "a");
              ("from", Node KFrom "" ""
                         [("this", table "sqlmesh__default.upstream" "")])], true), []))
    by (vm_compute; reflexivity).
  assert (Htable :
    _resolve_tables
      (normalize_identifiers (qualify_tables (table "upstream" ""))
         (_dialect (sample_base upstream_query)))
      (Some {["upstream" := upstream_snapshot]}) ∅ false
      (with_snapshots {["upstream" := upstream_snapshot]}) (log empty_state)
    = (Ok (table "sqlmesh__default.upstream" "", false), []))
    by (vm_compute; reflexivity).
  split.
  - exact (proj1 (resolve_tables_quoting (sample_base upstream_query) upstream_query
                    (with_snapshots {["upstream" := upstream_snapshot]}) empty_state
                    _ true [] Hskip Hselect)).
  - exact (proj1 (resolve_tables_quoting (sample_base upstream_query)
                    (table "upstream" "")
                    (with_snapshots {["upstream" := upstream_snapshot]}) empty_state
                    _ false [] Hskip Htable)).
Defined.

Lemma _render_output_is_quoted_witness :
  Forall (fun e =>
            exists evaluator source transformed,
              macro_transform evaluator source = Ok (Some transformed)
              /\ e = quote_identifiers
                       (normalize_identifiers (qualify_tables transformed) "duckdb")
                       "duckdb")
         [mark "quoted" "true" orders_query].
Proof.
  assert (Hmiss : _cache empty_state !! _dates None None None = None)
    by (vm_compute; reflexivity).
  assert (Hrun :
    _render (sample_base orders_query) None None None None false ∅ empty_state
    = (Ok [mark "quoted" "true" orders_query],
       mkState {[(0, 0, 0) := [mark "quoted" "true" orders_query]]} ∅ []))
    by (vm_compute; reflexivity).
  exact (_render_output_is_quoted (sample_base orders_query) None None None None false ∅
           empty_state _ _ Hmiss Hrun).
Defined.

End Renderer.
